(** * Zellous client SDK: a shallow embedding of [zellous-sdk.js]

    - [JSON]: the values the SDK handles (JavaScript values restricted to
      JSON data plus [undefined]), and the two platform functions the wire
      codec is made of, [JSON.stringify] and [JSON.parse].
    - [SDK]: the [ZellousSDK] class, method by method in the order of the
      source.  The instance fields, the sockets it created, the timers it
      armed and the promises it handed out form one [world]; every method
      is a function on worlds.
    - [Notions]: the predicates and sample values that the statements use.
    - [JSONFacts], [SDKFacts]: the proofs.

    Strings are sequences of UTF-16 code units, as in JavaScript.  The
    event loop is single-threaded.  A turn of the loop (code of the
    application, the handling of a socket event or of a timeout) runs its
    synchronous code to the end; what an async method does after an
    [await] is a job that waits in [jobs] and runs, in order, once the
    synchronous code of the turn is over and before the next turn
    starts. *)

From Stdlib Require Import ZArith NArith List Ascii String Bool Lia.
From Stdlib Require Import DecimalN DecimalFacts.
From stdpp Require Import base option list gmap.

Local Open Scope N_scope.

(** A JavaScript string: its code units. *)
Abbreviation text := (list N).

(** [str "abc"] is the JavaScript string literal ['abc']. *)
Definition str (s : string) : text :=
  List.map N_of_ascii (list_ascii_of_string s).

Arguments str : simpl never.

(* ================================================================== *)
(** * Values and the JSON codec of the platform *)
(* ================================================================== *)

Module JSON.

(** JavaScript values as far as the SDK sees them.  Numbers are IEEE
    doubles in the source; [VNum z] is the double equal to the integer [z]
    (exact for safe integers, see [safe_integer]) and [VDec m e], with
    [e < 0] and [m] not a multiple of ten, is the double that
    Number::toString prints with the digits of [m] and the exponent [e]:
    the double nearest to [m * 10^e], when these are the fewest digits
    that name it.  NaN, the infinities and the sign of zero are left out.
    An object is the list of its own properties in enumeration order,
    which is the order in which they were added as long as no key is an
    array index; the platform enumerates keys that are array indices
    first, and [obj_set] keeps them where they were added. *)
#[local] Unset Elimination Schemes.
Inductive jsval : Type :=
| VUndef
| VNull
| VBool (b : bool)
| VNum (z : Z)
| VDec (m e : Z)
| VStr (s : text)
| VArr (l : list jsval)
| VObj (l : list (text * jsval)).
#[local] Set Elimination Schemes.

Definition is_undef (v : jsval) : bool :=
  match v with VUndef => true | _ => false end.

(** ** Characters *)

Definition is_ws (c : N) : bool :=
  (c =? 9) || (c =? 10) || (c =? 13) || (c =? 32).

(** Leading and trailing surrogates. *)
Definition is_high (c : N) : bool := (55296 <=? c) && (c <=? 56319).
Definition is_low (c : N) : bool := (56320 <=? c) && (c <=? 57343).

(** Lowercase hexadecimal digit of a nibble. *)
Definition hex_digit (n : N) : N := if n <? 10 then 48 + n else 87 + n.

Definition hex_val (c : N) : option N :=
  if (48 <=? c) && (c <=? 57) then Some (c - 48)
  else if (97 <=? c) && (c <=? 102) then Some (c - 87)
  else if (65 <=? c) && (c <=? 70) then Some (c - 55)
  else None.

(** ** JSON.stringify *)

(** UnicodeEscape: backslash, [u], four hexadecimal digits. *)
Definition uesc (c : N) : text :=
  [92; 117; hex_digit (c / 4096 mod 16); hex_digit (c / 256 mod 16);
   hex_digit (c / 16 mod 16); hex_digit (c mod 16)].

(** One code unit that is not a surrogate, as QuoteJSONString writes it. *)
Definition esc_unit (c : N) : text :=
  if c =? 8 then [92; 98]
  else if c =? 9 then [92; 116]
  else if c =? 10 then [92; 110]
  else if c =? 12 then [92; 102]
  else if c =? 13 then [92; 114]
  else if c =? 34 then [92; 34]
  else if c =? 92 then [92; 92]
  else if c <? 32 then uesc c
  else [c].

(** A surrogate pair is copied, a lone surrogate is escaped. *)
Fixpoint quote_units (s : text) : text :=
  match s with
  | [] => []
  | c :: r =>
      if is_high c then
        match r with
        | d :: r' =>
            if is_low d then c :: d :: quote_units r'
            else uesc c ++ quote_units r
        | [] => uesc c
        end
      else if is_low c then uesc c ++ quote_units r
      else esc_unit c ++ quote_units r
  end.

Definition quote (s : text) : text := 34 :: quote_units s ++ [34].

Fixpoint uint_units (d : Decimal.uint) : text :=
  match d with
  | Decimal.Nil => []
  | Decimal.D0 d => 48 :: uint_units d
  | Decimal.D1 d => 49 :: uint_units d
  | Decimal.D2 d => 50 :: uint_units d
  | Decimal.D3 d => 51 :: uint_units d
  | Decimal.D4 d => 52 :: uint_units d
  | Decimal.D5 d => 53 :: uint_units d
  | Decimal.D6 d => 54 :: uint_units d
  | Decimal.D7 d => 55 :: uint_units d
  | Decimal.D8 d => 56 :: uint_units d
  | Decimal.D9 d => 57 :: uint_units d
  end.

Definition print_N (n : N) : text := uint_units (N.to_uint n).

(** Number::toString on [m * 10^e] where [m] is not a multiple of ten and
    the digits are not all before the point: [k] digits, the decimal
    point after the first [n = k + e] of them, or the exponent form. *)
Definition print_dec (m e : Z) : text :=
  let ds := print_N (Z.abs_N m) in
  let k := Z.of_nat (length ds) in
  let n := (k + e)%Z in
  (if (m <? 0)%Z then [45] else []) ++
  (if (0 <? n)%Z && (n <=? 21)%Z then
     firstn (Z.to_nat n) ds ++ 46 :: skipn (Z.to_nat n) ds
   else if (-6 <? n)%Z && (n <=? 0)%Z then
     48 :: 46 :: repeat 48 (Z.to_nat (- n)) ++ ds
   else
     firstn 1 ds ++
     (if (1 <? k)%Z then 46 :: skipn 1 ds else []) ++
     101 :: (if (n - 1 <? 0)%Z then 45 else 43) :: print_N (Z.abs_N (n - 1))).

(** [m * 10^e] without the zeros that end [m]. *)
Fixpoint strip_zeros (fuel : nat) (m e : Z) : Z * Z :=
  match fuel with
  | S f =>
      if (m mod 10 =? 0)%Z then strip_zeros f (m / 10)%Z (e + 1)%Z
      else (m, e)
  | O => (m, e)
  end.

(** Number::toString on an integer: its digits below [10^21], the
    exponent form from there on. *)
Definition print_Z (z : Z) : text :=
  if (Z.abs z <? 10 ^ 21)%Z then
    if (z <? 0)%Z then 45 :: print_N (Z.abs_N z) else print_N (Z.abs_N z)
  else
    let '(m, e) := strip_zeros (Z.to_nat (Z.log2 (Z.abs z))) z 0 in
    print_dec m e.

Definition t_null : text := Eval cbv in str "null".
Definition t_true : text := Eval cbv in str "true".
Definition t_false : text := Eval cbv in str "false".
Definition t_undefined : text := Eval cbv in str "undefined".

Section Lists.
Variable ser : jsval -> text.

(** Array elements, separated by commas. *)
Fixpoint ser_elems (l : list jsval) : text :=
  match l with
  | [] => []
  | v :: l' =>
      ser v ++ match l' with [] => [] | _ :: _ => 44 :: ser_elems l' end
  end.

(** Object members; a property whose value is [undefined] is left out.
    [first] tells whether a member was written already. *)
Fixpoint ser_members (first : bool) (l : list (text * jsval)) : text :=
  match l with
  | [] => []
  | (k, v) :: l' =>
      if is_undef v then ser_members first l'
      else (if first then [] else [44]) ++ quote k ++ 58 :: ser v
           ++ ser_members false l'
  end.
End Lists.

(** SerializeJSONProperty without indentation.  [undefined] is written
    [null], which is what an array element gets; objects skip it and
    [JSON_stringify] answers [undefined] for it at the top. *)
Fixpoint ser (v : jsval) : text :=
  match v with
  | VUndef => t_null
  | VNull => t_null
  | VBool true => t_true
  | VBool false => t_false
  | VNum z => print_Z z
  | VDec m e => print_dec m e
  | VStr s => quote s
  | VArr l => 91 :: ser_elems ser l ++ [93]
  | VObj l => 123 :: ser_members ser true l ++ [125]
  end.

(** [None] is JavaScript's [undefined] result. *)
Definition JSON_stringify (v : jsval) : option text :=
  if is_undef v then None else Some (ser v).

(** ** JSON.parse *)

Fixpoint skip_ws (s : text) : text :=
  match s with
  | c :: r => if is_ws c then skip_ws r else s
  | [] => []
  end.

(** [match_prefix p s] is what follows [p] in [s]. *)
Fixpoint match_prefix (p s : text) : option text :=
  match p, s with
  | [], _ => Some s
  | a :: p', b :: s' => if a =? b then match_prefix p' s' else None
  | _ :: _, [] => None
  end.

Definition simple_escape (e : N) : option N :=
  if e =? 34 then Some 34
  else if e =? 92 then Some 92
  else if e =? 47 then Some 47
  else if e =? 98 then Some 8
  else if e =? 102 then Some 12
  else if e =? 110 then Some 10
  else if e =? 114 then Some 13
  else if e =? 116 then Some 9
  else None.

Definition hex4 (a b c d : N) : option N :=
  match hex_val a, hex_val b, hex_val c, hex_val d with
  | Some a, Some b, Some c, Some d => Some (4096 * a + 256 * b + 16 * c + d)
  | _, _, _, _ => None
  end.

(** The characters of a string literal after its opening quote, up to and
    including the closing one. *)
Fixpoint parse_string (s : text) : option (text * text) :=
  match s with
  | [] => None
  | c :: r =>
      if c =? 34 then Some ([], r)
      else if c =? 92 then
        match r with
        | [] => None
        | e :: r1 =>
            if e =? 117 then
              match r1 with
              | h1 :: h2 :: h3 :: h4 :: r2 =>
                  match hex4 h1 h2 h3 h4 with
                  | Some u =>
                      match parse_string r2 with
                      | Some (t, rest) => Some (u :: t, rest)
                      | None => None
                      end
                  | None => None
                  end
              | _ => None
              end
            else
              match simple_escape e with
              | Some u =>
                  match parse_string r1 with
                  | Some (t, rest) => Some (u :: t, rest)
                  | None => None
                  end
              | None => None
              end
        end
      else if c <? 32 then None
      else
        match parse_string r with
        | Some (t, rest) => Some (c :: t, rest)
        | None => None
        end
  end.

Definition digit_cons (c : N) : option (Decimal.uint -> Decimal.uint) :=
  if c =? 48 then Some Decimal.D0
  else if c =? 49 then Some Decimal.D1
  else if c =? 50 then Some Decimal.D2
  else if c =? 51 then Some Decimal.D3
  else if c =? 52 then Some Decimal.D4
  else if c =? 53 then Some Decimal.D5
  else if c =? 54 then Some Decimal.D6
  else if c =? 55 then Some Decimal.D7
  else if c =? 56 then Some Decimal.D8
  else if c =? 57 then Some Decimal.D9
  else None.

(** The longest run of digits at the head of [s]. *)
Fixpoint span_digits (s : text) : Decimal.uint * text :=
  match s with
  | [] => (Decimal.Nil, [])
  | c :: r =>
      match digit_cons c with
      | Some k => let '(d, rest) := span_digits r in (k d, rest)
      | None => (Decimal.Nil, s)
      end
  end.

(** The value [m * 10^e] of a literal: an integer where it is one, the
    decimal in lowest terms otherwise.  Each step drops a zero that ends
    [m] and [- e] steps reach an integer, if nothing else does. *)
Fixpoint norm_dec (fuel : nat) (m e : Z) : jsval :=
  match fuel with
  | S f =>
      if (e <? 0)%Z && (m mod 10 =? 0)%Z then norm_dec f (m / 10)%Z (e + 1)%Z
      else if (0 <=? e)%Z then VNum (m * 10 ^ e)%Z else VDec m e
  | O => if (0 <=? e)%Z then VNum (m * 10 ^ e)%Z else VDec m e
  end.

Definition is_nil (d : Decimal.uint) : bool :=
  match d with Decimal.Nil => true | _ => false end.

(** The integer part: at least one digit, no leading zero. *)
Definition int_part_ok (d : Decimal.uint) : bool :=
  match d with
  | Decimal.Nil => false
  | Decimal.D0 d' => is_nil d'
  | _ => true
  end.

(** An optional fraction: a point and at least one digit. *)
Definition parse_frac (s : text) : option (Decimal.uint * text) :=
  match s with
  | c :: r =>
      if c =? 46 then
        let '(f, rest) := span_digits r in
        if is_nil f then None else Some (f, rest)
      else Some (Decimal.Nil, s)
  | [] => Some (Decimal.Nil, s)
  end.

(** An optional exponent: [e] or [E], an optional sign, at least one
    digit. *)
Definition parse_exp (s : text) : option (Z * text) :=
  match s with
  | c :: r =>
      if (c =? 101) || (c =? 69) then
        let '(eneg, r1) :=
          match r with
          | g :: r' =>
              if g =? 45 then (true, r')
              else if g =? 43 then (false, r')
              else (false, r)
          | [] => (false, r)
          end in
        let '(x, rest) := span_digits r1 in
        if is_nil x then None
        else
          let xv := Z.of_N (N.of_uint x) in
          Some (if eneg then (- xv)%Z else xv, rest)
      else Some (0%Z, s)
  | [] => Some (0%Z, s)
  end.

(** The literal with integer part [i], fraction [f] and exponent [x] is
    [m * 10^e] for the digits [m] of [i] and [f] together.  The platform
    rounds that to the nearest double; the value is kept as it is written
    here, which is the same number whenever the literal is what
    Number::toString prints for a double, as every literal that
    [JSON.stringify] writes is. *)
Definition number_value (neg : bool) (i f : Decimal.uint) (x : Z) : jsval :=
  let k := Decimal.nb_digits f in
  let m := (Z.of_N (N.of_uint i) * 10 ^ Z.of_nat k
            + Z.of_N (N.of_uint f))%Z in
  let e := (x - Z.of_nat k)%Z in
  norm_dec (Z.to_nat (- e)) (if neg then (- m)%Z else m) e.

(** A number literal: an optional minus sign, an integer part, an
    optional fraction, an optional exponent. *)
Definition parse_number (s : text) : option (jsval * text) :=
  let '(neg, s1) :=
    match s with
    | c :: r => if c =? 45 then (true, r) else (false, s)
    | [] => (false, s)
    end in
  let '(i, s2) := span_digits s1 in
  if int_part_ok i then
    match parse_frac s2 with
    | None => None
    | Some (f, s3) =>
        match parse_exp s3 with
        | None => None
        | Some (x, s4) => Some (number_value neg i f x, s4)
        end
    end
  else None.

(** Defining a property: an existing key keeps its place and takes the new
    value, a new key goes last (also a key that is an array index, which
    the platform would enumerate before the others). *)
Fixpoint obj_set (k : text) (v : jsval) (o : list (text * jsval))
  : list (text * jsval) :=
  match o with
  | [] => [(k, v)]
  | (k', v') :: o' =>
      if decide (k' = k) then (k, v) :: o' else (k', v') :: obj_set k v o'
  end.

Definition mk_object (ms : list (text * jsval)) : list (text * jsval) :=
  fold_left (fun o kv => obj_set (fst kv) (snd kv) o) ms [].

(** Recursive descent.  [n] bounds the number of nested calls; every call
    consumes input, so the length of the text is enough (see
    [JSON_parse]). *)
Fixpoint parse_value (n : nat) (s : text) {struct n} : option (jsval * text) :=
  match n with
  | O => None
  | S n' =>
      match skip_ws s with
      | [] => None
      | c :: r =>
          if c =? 123 then
            match skip_ws r with
            | [] => None
            | c' :: r' =>
                if c' =? 125 then Some (VObj [], r')
                else
                  match parse_members n' (c' :: r') with
                  | Some (ms, rest) => Some (VObj (mk_object ms), rest)
                  | None => None
                  end
            end
          else if c =? 91 then
            match skip_ws r with
            | [] => None
            | c' :: r' =>
                if c' =? 93 then Some (VArr [], r')
                else
                  match parse_elements n' (c' :: r') with
                  | Some (vs, rest) => Some (VArr vs, rest)
                  | None => None
                  end
            end
          else if c =? 34 then
            match parse_string r with
            | Some (t, rest) => Some (VStr t, rest)
            | None => None
            end
          else if c =? 116 then
            match match_prefix t_true (c :: r) with
            | Some rest => Some (VBool true, rest)
            | None => None
            end
          else if c =? 102 then
            match match_prefix t_false (c :: r) with
            | Some rest => Some (VBool false, rest)
            | None => None
            end
          else if c =? 110 then
            match match_prefix t_null (c :: r) with
            | Some rest => Some (VNull, rest)
            | None => None
            end
          else parse_number (c :: r)
      end
  end

with parse_elements (n : nat) (s : text) {struct n}
  : option (list jsval * text) :=
  match n with
  | O => None
  | S n' =>
      match parse_value n' s with
      | None => None
      | Some (v, r) =>
          match skip_ws r with
          | [] => None
          | c :: r' =>
              if c =? 44 then
                match parse_elements n' r' with
                | Some (vs, rest) => Some (v :: vs, rest)
                | None => None
                end
              else if c =? 93 then Some ([v], r')
              else None
          end
      end
  end

with parse_members (n : nat) (s : text) {struct n}
  : option (list (text * jsval) * text) :=
  match n with
  | O => None
  | S n' =>
      match skip_ws s with
      | [] => None
      | q :: r =>
          if q =? 34 then
            match parse_string r with
            | None => None
            | Some (k, r1) =>
                match skip_ws r1 with
                | [] => None
                | c :: r2 =>
                    if c =? 58 then
                      match parse_value n' r2 with
                      | None => None
                      | Some (v, r3) =>
                          match skip_ws r3 with
                          | [] => None
                          | d :: r4 =>
                              if d =? 44 then
                                match parse_members n' r4 with
                                | Some (ms, rest) => Some ((k, v) :: ms, rest)
                                | None => None
                                end
                              else if d =? 125 then Some ([(k, v)], r4)
                              else None
                          end
                      end
                    else None
                end
            end
          else None
      end
  end.

(** [None] is the SyntaxError that JSON.parse throws. *)
Definition JSON_parse (s : text) : option jsval :=
  match parse_value (S (length s)) s with
  | Some (v, rest) =>
      match skip_ws rest with
      | [] => Some v
      | _ :: _ => None
      end
  | None => None
  end.

(** ** Property access and comparison *)

(** [o[k]] on the property list of an object. *)
Fixpoint obj_get (k : text) (o : list (text * jsval)) : option jsval :=
  match o with
  | [] => None
  | (k', v) :: o' => if decide (k' = k) then Some v else obj_get k o'
  end.

Section Deep.
Variable deep_equal : jsval -> jsval -> bool.

Fixpoint deep_equal_list (a b : list jsval) : bool :=
  match a, b with
  | [], [] => true
  | x :: a', y :: b' => deep_equal x y && deep_equal_list a' b'
  | _, _ => false
  end.

Fixpoint deep_equal_members (a b : list (text * jsval)) : bool :=
  match a with
  | [] => true
  | (k, x) :: a' =>
      match obj_get k b with
      | Some y => deep_equal x y && deep_equal_members a' b
      | None => false
      end
  end.
End Deep.

(** Structural equality: the same primitive, arrays with equal elements
    in order, objects with the same keys and equal values whatever the
    order of the keys. *)
Fixpoint deep_equal (a b : jsval) : bool :=
  match a, b with
  | VUndef, VUndef | VNull, VNull => true
  | VBool x, VBool y => bool_decide (x = y)
  | VNum x, VNum y => bool_decide (x = y)
  | VDec m e, VDec m' e' => bool_decide (m = m') && bool_decide (e = e')
  | VStr x, VStr y => bool_decide (x = y)
  | VArr x, VArr y => deep_equal_list deep_equal x y
  | VObj x, VObj y =>
      bool_decide (length x = length y) && deep_equal_members deep_equal x y
  | _, _ => false
  end.

(** Integers that a double holds exactly. *)
Definition safe_integer (z : Z) : bool :=
  (- (2 ^ 53 - 1) <=? z)%Z && (z <=? 2 ^ 53 - 1)%Z.

(** Plain JSON data: no [undefined], numbers that are a safe integer or
    a decimal in lowest terms, and objects whose keys are pairwise
    distinct. *)
Fixpoint json_data (v : jsval) : bool :=
  match v with
  | VUndef => false
  | VNull | VBool _ | VStr _ => true
  | VNum z => safe_integer z
  | VDec m e => (e <? 0)%Z && negb (m mod 10 =? 0)%Z
  | VArr l => forallb json_data l
  | VObj l =>
      bool_decide (NoDup l.*1) && forallb (fun kv => json_data kv.2) l
  end.

End JSON.

Import JSON.

(* ================================================================== *)
(** * The ZellousSDK class *)
(* ================================================================== *)

Module SDK.

(** ** JavaScript helpers *)

(** ToBoolean. *)
Definition truthy (v : jsval) : bool :=
  match v with
  | VUndef | VNull => false
  | VBool b => b
  | VNum z => negb (z =? 0)%Z
  | VDec _ _ => true
  | VStr s => match s with [] => false | _ :: _ => true end
  | VArr _ | VObj _ => true
  end.

(** [a || b]. *)
Definition or_else (a b : jsval) : jsval := if truthy a then a else b.

(** [v.k] for a value [v] that is neither [null] nor [undefined]; the
    keys the SDK reads are not properties of strings, numbers or arrays. *)
Definition prop (k : text) (v : jsval) : jsval :=
  match v with
  | VObj o => default VUndef (obj_get k o)
  | _ => VUndef
  end.

Definition nullish (v : jsval) : bool :=
  match v with VUndef | VNull => true | _ => false end.

(** A default parameter value applies to a missing or [undefined]
    argument. *)
Definition param (dflt v : jsval) : jsval :=
  match v with VUndef => dflt | _ => v end.

Section ToString.
Variable to_string : jsval -> text.

(** Array.prototype.join with a comma. *)
Fixpoint join_elems (l : list jsval) : text :=
  match l with
  | [] => []
  | v :: l' =>
      (if nullish v then [] else to_string v)
      ++ match l' with [] => [] | _ :: _ => 44 :: join_elems l' end
  end.
End ToString.

(** ToString, as a template literal applies it. *)
Fixpoint to_string (v : jsval) : text :=
  match v with
  | VUndef => t_undefined
  | VNull => t_null
  | VBool true => t_true
  | VBool false => t_false
  | VNum z => print_Z z
  | VDec m e => print_dec m e
  | VStr s => s
  | VArr l => join_elems to_string l
  | VObj _ => str "[object Object]"
  end.

(** [a === b] against a string literal. *)
Definition is_str (s : text) (v : jsval) : bool :=
  match v with VStr t => bool_decide (t = s) | _ => false end.

(** ** Errors, handlers, platform objects *)

Inductive exn : Type :=
| Error (msg : text)        (* new Error(msg) *)
| TypeError                 (* a property read on null or undefined *)
| SyntaxError               (* JSON.parse *)
| UserError (tag : nat)     (* thrown by the code of a subscriber *)
| Thrown (v : jsval)        (* any other value, here the error event *)
| DOMException (name : text).
                            (* thrown by the platform: SyntaxError by
                               new WebSocket, InvalidStateError by send *)

Inductive completion : Type :=
| Normal
| Abrupt (e : exn).

(** A promise returned by an async method: settled at once, or the
    promise [p] of the store. *)
Inductive outcome : Type :=
| Fulfilled (v : jsval)
| Rejected (e : exn)
| Awaits (p : nat).

Inductive promise_state : Type :=
| Pending
| Resolved (v : jsval)
| Failed (e : exn).

(** Identity of a function object.  [indexOf] compares handlers by
    identity; the wrappers that [once] creates are new objects. *)
Inductive ident : Type :=
| ByUser (n : nat)
| ByOnce (n : nat).

#[global] Instance ident_eq_dec : EqDecision ident.
Proof. solve_decision. Defined.

(** Subscribers.  The code of a subscriber written by the application is
    a sequence of statements: it may look at its argument ([SRecord], which
    leaves the tag and the argument in the [trace]), throw, and call the
    public methods of the SDK.  The other closures are the ones the SDK
    itself creates. *)
#[local] Unset Elimination Schemes.
Inductive stmt : Type :=
| SRecord (tag : nat)
| SThrow (tag : nat)
| SCall (c : call)

with call : Type :=
| CConnect (token : jsval)
| CConnectRefused (token : jsval)
    (* connect(token) when the platform refuses the URL for another reason
       than a fragment *)
| CDisconnect
| CJoinRoom (room : jsval)
| CSendMessage (content type : jsval)
| CSendImage (filename base64Data caption : jsval)
| CUploadFile (filename base64Data path description : jsval)
| CGetMessages (limit before : jsval)
| CGetFiles (path : jsval)
| CBroadcastState (appName state : jsval) (now : Z)
| COn (event : text) (h : ident) (f : closure)
| COnce (event : text) (f : closure)
| COff (event : text) (h : ident)
| CEmit (event data : jsval)
| CSend (message : jsval)
| CGetState

with closure : Type :=
| User (body : list stmt)
    (* application code *)
| OnceWrapper (event : text) (inner : closure)
    (* (...args) => { this.off(event, wrappedHandler); handler(...args) } *)
| Handshake (p : nat)
    (* (data) => { this.clientId = data.clientId; this.user = data.user;
                   resolve(data) } *)
| Settle (p : nat) (field : option text).
    (* (data) => resolve(data), (data) => resolve(data.messages), ... *)
#[local] Set Elimination Schemes.

Record handler : Type := Handler { hid : ident; code : closure }.

Inductive ready : Type := CONNECTING | OPEN | CLOSING | CLOSED.

#[global] Instance ready_eq_dec : EqDecision ready.
Proof. solve_decision. Defined.

(** A frame on the wire: the text of a text frame, or a Blob.  [WBlob t]
    is the Blob that [new Blob([t])] makes, which holds the UTF-8 encoding
    of [t]; a Blob that arrives is the one of the string its bytes decode
    to. *)
Inductive wire : Type :=
| WText (t : text)
| WBlob (t : text).

(** What is left of an async method once [send] has transmitted: [send]
    itself ends, [sendMessage], [sendImage], [uploadFile] and
    [broadcastState] return a value, [joinRoom] assigns [roomId] and waits
    for [room_joined], [getMessages] and [getFiles] wait for an event and
    take a field of its payload. *)
Inductive cont : Type :=
| KSend
| KReturn (v : jsval)
| KJoin (room : jsval)
| KAsk (event field : text).

(** A job of the promise machinery, for the call that returned promise
    [p]: the rest of [send] after [await this._pack(message)], and the rest
    of the method that called it after [await this.send(...)], entered with
    the completion [r] of [send]. *)
Inductive job : Type :=
| Transmit (packed : wire) (p : nat) (k : cont)
| Resume (p : nat) (k : cont) (r : completion).

(** A WebSocket made by [connect].  Its four event handlers are closures
    over [this], over the [token] of that call and over the [resolve] and
    [reject] of the promise that call returned. *)
Record socket : Type := Socket {
  url : text;
  sock_token : jsval;
  sock_promise : nat;
  readyState : ready;
  sent : list wire
}.

(** A pending timeout armed by the close handler; the callback is a
    closure over the [token] of the connect call. *)
Record timer : Type := Timer {
  delay : jsval;
  timer_token : jsval
}.

Inductive log : Type :=
| LogConnected                              (* console.log *)
| LogDisconnected                           (* console.log *)
| LogReceived (type : jsval)                (* console.log *)
| LogSocketError (error : jsval)            (* console.error *)
| LogHandlerError (event : text) (e : exn). (* console.error *)

(** ** The state *)

(** The fields of the instance ([options] to [connected]), the platform
    objects it created ([sockets], [timers], [promises], with the counters
    that name new ones), what reached the [console], two histories that no
    method reads ([trace], written by [SRecord], and [emitted], every call
    of [emit] with its arguments), and the [jobs] that wait for the
    synchronous code to end. *)
Record world : Type := World {
  options : list (text * jsval);
  ws : option nat;
  clientId : jsval;
  roomId : jsval;
  user : jsval;
  listeners : gmap text (list handler);
  reconnectTimer : option positive;
  connected : bool;
  sockets : list socket;
  timers : list (positive * timer);
  next_timer : positive;
  promises : list promise_state;
  next_closure : nat;
  console : list log;
  trace : list (nat * jsval);
  emitted : list (jsval * jsval);
  jobs : list job
}.

Definition set_options (x : list (text * jsval)) (w : world) : world :=
  {| options := x; ws := ws w; clientId := clientId w; roomId := roomId w;
     user := user w; listeners := listeners w;
     reconnectTimer := reconnectTimer w; connected := connected w;
     sockets := sockets w; timers := timers w; next_timer := next_timer w;
     promises := promises w; next_closure := next_closure w;
     console := console w; trace := trace w; emitted := emitted w;
     jobs := jobs w |}.

Definition set_ws (x : option nat) (w : world) : world :=
  {| options := options w; ws := x; clientId := clientId w;
     roomId := roomId w; user := user w; listeners := listeners w;
     reconnectTimer := reconnectTimer w; connected := connected w;
     sockets := sockets w; timers := timers w; next_timer := next_timer w;
     promises := promises w; next_closure := next_closure w;
     console := console w; trace := trace w; emitted := emitted w;
     jobs := jobs w |}.

Definition set_clientId (x : jsval) (w : world) : world :=
  {| options := options w; ws := ws w; clientId := x; roomId := roomId w;
     user := user w; listeners := listeners w;
     reconnectTimer := reconnectTimer w; connected := connected w;
     sockets := sockets w; timers := timers w; next_timer := next_timer w;
     promises := promises w; next_closure := next_closure w;
     console := console w; trace := trace w; emitted := emitted w;
     jobs := jobs w |}.

Definition set_roomId (x : jsval) (w : world) : world :=
  {| options := options w; ws := ws w; clientId := clientId w; roomId := x;
     user := user w; listeners := listeners w;
     reconnectTimer := reconnectTimer w; connected := connected w;
     sockets := sockets w; timers := timers w; next_timer := next_timer w;
     promises := promises w; next_closure := next_closure w;
     console := console w; trace := trace w; emitted := emitted w;
     jobs := jobs w |}.

Definition set_user (x : jsval) (w : world) : world :=
  {| options := options w; ws := ws w; clientId := clientId w;
     roomId := roomId w; user := x; listeners := listeners w;
     reconnectTimer := reconnectTimer w; connected := connected w;
     sockets := sockets w; timers := timers w; next_timer := next_timer w;
     promises := promises w; next_closure := next_closure w;
     console := console w; trace := trace w; emitted := emitted w;
     jobs := jobs w |}.

Definition set_listeners (x : gmap text (list handler)) (w : world) : world :=
  {| options := options w; ws := ws w; clientId := clientId w;
     roomId := roomId w; user := user w; listeners := x;
     reconnectTimer := reconnectTimer w; connected := connected w;
     sockets := sockets w; timers := timers w; next_timer := next_timer w;
     promises := promises w; next_closure := next_closure w;
     console := console w; trace := trace w; emitted := emitted w;
     jobs := jobs w |}.

Definition set_reconnectTimer (x : option positive) (w : world) : world :=
  {| options := options w; ws := ws w; clientId := clientId w;
     roomId := roomId w; user := user w; listeners := listeners w;
     reconnectTimer := x; connected := connected w; sockets := sockets w;
     timers := timers w; next_timer := next_timer w; promises := promises w;
     next_closure := next_closure w; console := console w; trace := trace w;
     emitted := emitted w; jobs := jobs w |}.

Definition set_connected (x : bool) (w : world) : world :=
  {| options := options w; ws := ws w; clientId := clientId w;
     roomId := roomId w; user := user w; listeners := listeners w;
     reconnectTimer := reconnectTimer w; connected := x;
     sockets := sockets w; timers := timers w; next_timer := next_timer w;
     promises := promises w; next_closure := next_closure w;
     console := console w; trace := trace w; emitted := emitted w;
     jobs := jobs w |}.

Definition set_sockets (x : list socket) (w : world) : world :=
  {| options := options w; ws := ws w; clientId := clientId w;
     roomId := roomId w; user := user w; listeners := listeners w;
     reconnectTimer := reconnectTimer w; connected := connected w;
     sockets := x; timers := timers w; next_timer := next_timer w;
     promises := promises w; next_closure := next_closure w;
     console := console w; trace := trace w; emitted := emitted w;
     jobs := jobs w |}.

Definition set_timers (x : list (positive * timer)) (w : world) : world :=
  {| options := options w; ws := ws w; clientId := clientId w;
     roomId := roomId w; user := user w; listeners := listeners w;
     reconnectTimer := reconnectTimer w; connected := connected w;
     sockets := sockets w; timers := x; next_timer := next_timer w;
     promises := promises w; next_closure := next_closure w;
     console := console w; trace := trace w; emitted := emitted w;
     jobs := jobs w |}.

Definition set_next_timer (x : positive) (w : world) : world :=
  {| options := options w; ws := ws w; clientId := clientId w;
     roomId := roomId w; user := user w; listeners := listeners w;
     reconnectTimer := reconnectTimer w; connected := connected w;
     sockets := sockets w; timers := timers w; next_timer := x;
     promises := promises w; next_closure := next_closure w;
     console := console w; trace := trace w; emitted := emitted w;
     jobs := jobs w |}.

Definition set_promises (x : list promise_state) (w : world) : world :=
  {| options := options w; ws := ws w; clientId := clientId w;
     roomId := roomId w; user := user w; listeners := listeners w;
     reconnectTimer := reconnectTimer w; connected := connected w;
     sockets := sockets w; timers := timers w; next_timer := next_timer w;
     promises := x; next_closure := next_closure w; console := console w;
     trace := trace w; emitted := emitted w; jobs := jobs w |}.

Definition set_next_closure (x : nat) (w : world) : world :=
  {| options := options w; ws := ws w; clientId := clientId w;
     roomId := roomId w; user := user w; listeners := listeners w;
     reconnectTimer := reconnectTimer w; connected := connected w;
     sockets := sockets w; timers := timers w; next_timer := next_timer w;
     promises := promises w; next_closure := x; console := console w;
     trace := trace w; emitted := emitted w; jobs := jobs w |}.

Definition set_console (x : list log) (w : world) : world :=
  {| options := options w; ws := ws w; clientId := clientId w;
     roomId := roomId w; user := user w; listeners := listeners w;
     reconnectTimer := reconnectTimer w; connected := connected w;
     sockets := sockets w; timers := timers w; next_timer := next_timer w;
     promises := promises w; next_closure := next_closure w; console := x;
     trace := trace w; emitted := emitted w; jobs := jobs w |}.

Definition set_trace (x : list (nat * jsval)) (w : world) : world :=
  {| options := options w; ws := ws w; clientId := clientId w;
     roomId := roomId w; user := user w; listeners := listeners w;
     reconnectTimer := reconnectTimer w; connected := connected w;
     sockets := sockets w; timers := timers w; next_timer := next_timer w;
     promises := promises w; next_closure := next_closure w;
     console := console w; trace := x; emitted := emitted w; jobs := jobs w |}.

Definition set_emitted (x : list (jsval * jsval)) (w : world) : world :=
  {| options := options w; ws := ws w; clientId := clientId w;
     roomId := roomId w; user := user w; listeners := listeners w;
     reconnectTimer := reconnectTimer w; connected := connected w;
     sockets := sockets w; timers := timers w; next_timer := next_timer w;
     promises := promises w; next_closure := next_closure w;
     console := console w; trace := trace w; emitted := x; jobs := jobs w |}.

Definition set_jobs (x : list job) (w : world) : world :=
  {| options := options w; ws := ws w; clientId := clientId w;
     roomId := roomId w; user := user w; listeners := listeners w;
     reconnectTimer := reconnectTimer w; connected := connected w;
     sockets := sockets w; timers := timers w; next_timer := next_timer w;
     promises := promises w; next_closure := next_closure w;
     console := console w; trace := trace w; emitted := emitted w; jobs := x |}.

Definition set_readyState (r : ready) (s : socket) : socket :=
  {| url := url s; sock_token := sock_token s; sock_promise := sock_promise s;
     readyState := r; sent := sent s |}.

Definition push_sent (b : wire) (s : socket) : socket :=
  {| url := url s; sock_token := sock_token s; sock_promise := sock_promise s;
     readyState := readyState s; sent := sent s ++ [b] |}.

Definition console_push (l : log) (w : world) : world :=
  set_console (console w ++ [l]) w.

(** resolve and reject of promise [p]; a settled promise stays as it is. *)
Definition settle (p : nat) (s : promise_state) (w : world) : world :=
  match promises w !! p with
  | Some Pending => set_promises (<[p := s]> (promises w)) w
  | _ => w
  end.

Definition new_promise (w : world) : world * nat :=
  (set_promises (promises w ++ [Pending]) w, length (promises w)).

(** ** constructor *)

Definition default_options (given : list (text * jsval))
  : list (text * jsval) :=
  [ (str "serverUrl",
     or_else (prop (str "serverUrl") (VObj given))
             (VStr (str "ws://localhost:3000")));
    (str "autoReconnect",
     VBool (negb match prop (str "autoReconnect") (VObj given) with
                 | VBool false => true
                 | _ => false
                 end));
    (str "reconnectDelay",
     or_else (prop (str "reconnectDelay") (VObj given)) (VNum 3000)) ].

(** The spread [...options] comes last: a key that is given, whatever its
    value, replaces the entry computed above. *)
Definition constructor (given : list (text * jsval)) : world :=
  {| options :=
       fold_left (fun o kv => obj_set (fst kv) (snd kv) o) given
                 (default_options given);
     ws := None;
     clientId := VNull;
     roomId := VNull;
     user := VNull;
     listeners := ∅;
     reconnectTimer := None;
     connected := false;
     sockets := [];
     timers := [];
     next_timer := 1%positive;
     promises := [];
     next_closure := 0;
     console := [];
     trace := [];
     emitted := [];
     jobs := [] |}.

(** ** on, once, off *)

Definition on (event : text) (h : handler) (w : world) : world :=
  set_listeners
    (<[event := default [] (listeners w !! event) ++ [h]]> (listeners w)) w.

(** handlers.indexOf(handler) *)
Fixpoint index_of (i : ident) (hs : list handler) : option nat :=
  match hs with
  | [] => None
  | h :: hs' =>
      if decide (hid h = i) then Some 0%nat else S <$> index_of i hs'
  end.

Definition off (event : text) (i : ident) (w : world) : world :=
  match listeners w !! event with
  | None => w
  | Some hs =>
      match index_of i hs with
      | Some k => set_listeners (<[event := delete k hs]> (listeners w)) w
      | None => w
      end
  end.

(** The wrapper is a new function object; the result is its identity,
    which is what the returned unsubscribe function passes to [off]. *)
Definition once (event : text) (f : closure) (w : world) : world * ident :=
  let i := ByOnce (next_closure w) in
  (on event (Handler i (OnceWrapper event f))
      (set_next_closure (S (next_closure w)) w), i).

(** ** connect, disconnect *)

(** [new WebSocket(url)] either makes a socket or throws: the platform
    refuses a URL that it cannot parse, whose scheme is not one of ws,
    wss, http and https, or that has a fragment.  [connect] is the call
    when the URL is accepted.  When it is refused the executor ends at
    the exception, which rejects the promise: nothing was assigned, no
    subscription was made ([connect_refused]). *)
Definition connect (token : jsval) (w : world) : world * nat :=
  let token := param VNull token in
  let server := prop (str "serverUrl") (VObj (options w)) in
  let u := if truthy token
           then to_string server ++ str "?token=" ++ to_string token
           else to_string server in
  let '(w, p) := new_promise w in
  let s := {| url := u; sock_token := token; sock_promise := p;
              readyState := CONNECTING; sent := [] |} in
  let w := set_ws (Some (length (sockets w)))
                  (set_sockets (sockets w ++ [s]) w) in
  (fst (once (str "connection_established") (Handshake p) w), p).

Definition connect_refused (w : world) : world * nat :=
  (set_promises
     (promises w ++ [Failed (DOMException (str "SyntaxError"))]) w,
   length (promises w)).

(** The URL that [connect] gives to [new WebSocket]. *)
Definition connect_url (token : jsval) (w : world) : text :=
  let token := param VNull token in
  let server := prop (str "serverUrl") (VObj (options w)) in
  if truthy token
  then to_string server ++ str "?token=" ++ to_string token
  else to_string server.

(** A [#] (code 35) starts the fragment of a URL wherever it stands, and
    every platform refuses a WebSocket URL that has a fragment. *)
Definition has_fragment (u : text) : bool := existsb (N.eqb 35) u.

(** ws.close(): an open or connecting socket starts closing. *)
Definition socket_close (s : socket) : socket :=
  match readyState s with
  | CONNECTING | OPEN => set_readyState CLOSING s
  | CLOSING | CLOSED => s
  end.

Definition clearTimeout (t : positive) (w : world) : world :=
  set_timers (filter (fun e => e.1 ≠ t) (timers w)) w.

Definition disconnect (w : world) : world :=
  let w := match reconnectTimer w with
           | Some t => set_reconnectTimer None (clearTimeout t w)
           | None => w
           end in
  let w := match ws w with
           | Some i =>
               set_ws None (set_sockets (alter socket_close i (sockets w)) w)
           | None => w
           end in
  set_connected false w.

(** ** The codec *)

Definition _pack (obj : jsval) : wire :=
  WBlob (default t_undefined (JSON_stringify obj)).

(** A string as the bytes of a Blob can hold it: UTF-8 has no code for a
    surrogate that stands alone, and U+FFFD takes its place. *)
Fixpoint usv (s : text) : text :=
  match s with
  | [] => []
  | c :: r =>
      if is_high c then
        match r with
        | d :: r' => if is_low d then c :: d :: usv r' else 65533 :: usv r
        | [] => [65533]
        end
      else if is_low c then 65533 :: usv r
      else c :: usv r
  end.

(** Decoding UTF-8 drops a byte order mark at the start. *)
Definition strip_bom (s : text) : text :=
  match s with
  | c :: r => if c =? 65279 then r else s
  | [] => []
  end.

(** blob.text() on the Blob made from [t]. *)
Definition blob_text (t : text) : text := strip_bom (usv t).

(** The text that a frame carries. *)
Definition frame_text (f : wire) : text :=
  match f with
  | WText t => t
  | WBlob t => blob_text t
  end.

(** A Blob is read with blob.text(), a text frame is parsed as it is. *)
Definition _unpack (blob : wire) : exn + jsval :=
  match JSON_parse (frame_text blob) with
  | Some v => inr v
  | None => inl SyntaxError
  end.

(** ** send and the request methods *)

(** The methods are async.  A call runs the method up to its first
    [await] and returns a promise; the rest is a job.  The result of a
    call is that promise, as an [outcome]: rejected at once when the check
    in [send] fails, for the exception leaves [send] before anything was
    awaited and nothing but the rejection follows; else the new promise
    [p] of the store, with the job that will transmit the frame. *)

Definition is_open (w : world) : bool :=
  match ws w with
  | None => false
  | Some i =>
      match sockets w !! i with
      | Some s => bool_decide (readyState s = OPEN)
      | None => false
      end
  end.

Definition not_connected : exn := Error (str "WebSocket not connected").

Definition enqueue (j : job) (w : world) : world :=
  set_jobs (jobs w ++ [j]) w.

(** [send] as the first thing an async method does, [k] being the rest of
    that method.  [_pack] is called, and so the message serialized, before
    the [await]. *)
Definition send_with (k : cont) (message : jsval) (w : world)
  : world * outcome :=
  if negb (is_open w) then (w, Rejected not_connected)
  else
    let '(w, p) := new_promise w in
    (enqueue (Transmit (_pack message) p k) w, Awaits p).

(** [send] called for itself.  [Normal]: the check passed, the promise is
    pending and the transmission is a job. *)
Definition send (message : jsval) (w : world) : world * completion :=
  match send_with KSend message w with
  | (w, Rejected e) => (w, Abrupt e)
  | (w, _) => (w, Normal)
  end.

Definition success : jsval := VObj [(str "success", VBool true)].

Definition joinRoom (room : jsval) (w : world) : world * outcome :=
  send_with (KJoin room)
            (VObj [(str "type", VStr (str "join_room"));
                   (str "roomId", room)]) w.

Definition sendMessage (content type : jsval) (w : world) : world * outcome :=
  let type := param (VStr (str "text")) type in
  if is_str (str "text") type then
    send_with (KReturn success)
              (VObj [(str "type", VStr (str "text_message"));
                     (str "content", content)]) w
  else (w, Fulfilled success).

Definition sendImage (filename base64Data caption : jsval) (w : world)
  : world * outcome :=
  let caption := param (VStr []) caption in
  send_with (KReturn success)
            (VObj [(str "type", VStr (str "image_message"));
                   (str "filename", filename);
                   (str "data", base64Data);
                   (str "caption", caption)]) w.

Definition uploadFile (filename base64Data path description : jsval)
  (w : world) : world * outcome :=
  let path := param (VStr []) path in
  let description := param (VStr []) description in
  send_with (KReturn success)
            (VObj [(str "type", VStr (str "file_upload_complete"));
                   (str "filename", filename);
                   (str "data", base64Data);
                   (str "path", path);
                   (str "description", description)]) w.

Definition getMessages (limit before : jsval) (w : world) : world * outcome :=
  let limit := param (VNum 50) limit in
  let before := param VNull before in
  send_with (KAsk (str "message_history") (str "messages"))
            (VObj [(str "type", VStr (str "get_messages"));
                   (str "limit", limit);
                   (str "before", before)]) w.

Definition getFiles (path : jsval) (w : world) : world * outcome :=
  let path := param (VStr []) path in
  send_with (KAsk (str "file_list") (str "files"))
            (VObj [(str "type", VStr (str "get_files"));
                   (str "path", path)]) w.

(** [now] is the value of Date.now(). *)
Definition broadcastState (appName state : jsval) (now : Z) (w : world)
  : world * outcome :=
  send_with (KReturn VUndef)
            (VObj [(str "type", VStr (str "app_state_broadcast"));
                   (str "appName", appName);
                   (str "state", state);
                   (str "timestamp", VNum now)]) w.

Definition getState (w : world) : jsval :=
  VObj [(str "connected", VBool (connected w));
        (str "clientId", clientId w);
        (str "roomId", roomId w);
        (str "user", user w)].

(** ** The jobs *)

(** this.ws.send(packed), when its turn has come: [this.ws] is read then.
    The platform throws on a socket that is still connecting and drops
    the data without a word on one that is closing or closed. *)
Definition transmit (packed : wire) (w : world) : world * completion :=
  match ws w with
  | None => (w, Abrupt TypeError)
  | Some i =>
      match readyState <$> sockets w !! i with
      | Some OPEN =>
          (set_sockets (alter (push_sent packed) i (sockets w)) w, Normal)
      | Some CONNECTING =>
          (w, Abrupt (DOMException (str "InvalidStateError")))
      | Some CLOSING | Some CLOSED => (w, Normal)
      | None => (w, Abrupt TypeError)
      end
  end.

(** The method that awaited [send] goes on: with an exception the
    promise it returned is rejected; else [k]. *)
Definition conclude (p : nat) (k : cont) (r : completion) (w : world)
  : world :=
  match r with
  | Abrupt e => settle p (Failed e) w
  | Normal =>
      match k with
      | KSend => settle p (Resolved VUndef) w
      | KReturn v => settle p (Resolved v) w
      | KJoin room =>
          fst (once (str "room_joined") (Settle p None) (set_roomId room w))
      | KAsk event field => fst (once event (Settle p (Some field)) w)
      end
  end.

(** The end of [send] settles the promise of [send]; a method that awaits
    it goes on in a job of its own. *)
Definition run_job (j : job) (w : world) : world :=
  match j with
  | Transmit packed p k =>
      let '(w, r) := transmit packed w in
      match k with
      | KSend => conclude p k r w
      | _ => enqueue (Resume p k r) w
      end
  | Resume p k r => conclude p k r w
  end.

(** The jobs from position [k] of the queue on run one after the other,
    those that they add too.  A job adds at most one, which adds none. *)
Fixpoint drain (fuel k : nat) (w : world) : world :=
  match fuel with
  | O => w
  | S fuel' =>
      match jobs w !! k with
      | None => w
      | Some j => drain fuel' k (run_job j (set_jobs (delete k (jobs w)) w))
      end
  end.

(** Two steps for each job that the turn added are enough
    ([run_jobs_complete]). *)
Definition run_jobs (k : nat) (w : world) : world :=
  drain (2 * (length (jobs w) - k)) k w.

(** ** emit and the code of subscribers *)

(** What a call yields: [None] when the budget [n] of nested calls was
    too small, else the state and how the call completed. *)
Definition result : Type := option (world * completion).

(** Statements in sequence: the second runs if the first completed
    normally. *)
Definition and_then (r : result) (k : world -> result) : result :=
  match r with
  | Some (w, Normal) => k w
  | Some (w, Abrupt e) => Some (w, Abrupt e)
  | None => None
  end.

Definition log_emit (event data : jsval) (w : world) : world :=
  set_emitted (emitted w ++ [(event, data)]) w.

Definition record (tag : nat) (data : jsval) (w : world) : world :=
  set_trace (trace w ++ [(tag, data)]) w.

(** this.listeners.has(event) and this.listeners.get(event); the keys of
    the map are the strings given to [on]. *)
Definition handlers_of (event : jsval) (w : world)
  : option (text * list handler) :=
  match event with
  | VStr ev => (fun hs => (ev, hs)) <$> listeners w !! ev
  | _ => None
  end.

Definition handshake (p : nat) (data : jsval) (w : world)
  : world * completion :=
  if nullish data then (w, Abrupt TypeError)
  else
    let w := set_clientId (prop (str "clientId") data) w in
    let w := set_user (prop (str "user") data) w in
    (settle p (Resolved data) w, Normal).

Definition settle_with (p : nat) (field : option text) (data : jsval)
  (w : world) : world * completion :=
  match field with
  | None => (settle p (Resolved data) w, Normal)
  | Some k =>
      if nullish data then (w, Abrupt TypeError)
      else (settle p (Resolved (prop k data)) w, Normal)
  end.

(** A call of a method other than [emit] by code that does not await the
    result.  None of them throws: the async ones return a promise, and a
    rejection that nobody handles is reported by the platform. *)
Definition method (c : call) (w : world) : world :=
  match c with
  | CConnect token =>
      if has_fragment (connect_url token w) then fst (connect_refused w)
      else fst (connect token w)
  | CConnectRefused _ => fst (connect_refused w)
  | CDisconnect => disconnect w
  | CJoinRoom room => fst (joinRoom room w)
  | CSendMessage content type => fst (sendMessage content type w)
  | CSendImage filename base64Data caption =>
      fst (sendImage filename base64Data caption w)
  | CUploadFile filename base64Data path description =>
      fst (uploadFile filename base64Data path description w)
  | CGetMessages limit before => fst (getMessages limit before w)
  | CGetFiles path => fst (getFiles path w)
  | CBroadcastState appName state now =>
      fst (broadcastState appName state now w)
  | COn event h f => on event (Handler h f) w
  | COnce event f => fst (once event f w)
  | COff event h => off event h w
  | CSend message =>
      fst (send message w)
  | CEmit _ _ | CGetState => w
  end.

(** The array that [emit] walks is the one stored in the map, and the
    subscribers it calls may change it: [for_each] reads element [k] of
    the array as it is when its turn comes, [len] being the length when
    the walk began (Array.prototype.forEach). *)
Fixpoint emit (n : nat) (event data : jsval) (w : world) {struct n} : result :=
  match n with
  | O => None
  | S n' =>
      let w := log_emit event data w in
      match handlers_of event w with
      | None => Some (w, Normal)
      | Some (ev, hs) => for_each n' ev data 0 (length hs) w
      end
  end

with for_each (n : nat) (ev : text) (data : jsval) (k len : nat) (w : world)
  {struct n} : result :=
  match n with
  | O => None
  | S n' =>
      if decide (len <= k)%nat then Some (w, Normal)
      else
        match default [] (listeners w !! ev) !! k with
        | None => for_each n' ev data (S k) len w
        | Some h =>
            match call_handler n' h data w with
            | None => None
            | Some (w, Normal) => for_each n' ev data (S k) len w
            | Some (w, Abrupt e) =>
                for_each n' ev data (S k) len
                         (console_push (LogHandlerError ev e) w)
            end
        end
  end

with call_handler (n : nat) (h : handler) (data : jsval) (w : world)
  {struct n} : result :=
  match n with
  | O => None
  | S n' =>
      match code h with
      | User body => run_stmts n' body data w
      | OnceWrapper ev inner =>
          call_handler n' (Handler (hid h) inner) data (off ev (hid h) w)
      | Handshake p => Some (handshake p data w)
      | Settle p field => Some (settle_with p field data w)
      end
  end

with run_stmts (n : nat) (body : list stmt) (data : jsval) (w : world)
  {struct n} : result :=
  match n with
  | O => None
  | S n' =>
      match body with
      | [] => Some (w, Normal)
      | SRecord tag :: rest => run_stmts n' rest data (record tag data w)
      | SThrow tag :: _ => Some (w, Abrupt (UserError tag))
      | SCall c :: rest =>
          and_then (run_call n' c w) (fun w => run_stmts n' rest data w)
      end
  end

with run_call (n : nat) (c : call) (w : world) {struct n} : result :=
  match n with
  | O => None
  | S n' =>
      match c with
      | CEmit event data => emit n' event data w
      | _ => Some (method c w, Normal)
      end
  end.

(** ** _handleMessage *)

Definition presence (kind : string) (fields : list text) (msg : jsval)
  : jsval :=
  VObj ((str "type", VStr (str kind))
        :: List.map (fun k => (k, prop k msg)) fields).

Definition _handleMessage (n : nat) (msg : jsval) (w : world) : result :=
  if nullish msg then Some (w, Abrupt TypeError)
  else
    let type := prop (str "type") msg in
    let w := console_push (LogReceived type) w in
    and_then (emit n type msg w) (fun w =>
    and_then (emit n (VStr (str "message")) msg w) (fun w =>
    if is_str (str "connection_established") type then
      Some (set_user (prop (str "user") msg)
              (set_clientId (prop (str "clientId") msg) w), Normal)
    else if is_str (str "room_joined") type then
      Some (set_roomId (prop (str "roomId") msg) w, Normal)
    else if is_str (str "text_message") type
            || is_str (str "image_message") type
            || is_str (str "file_shared") type then
      emit n (VStr (str "chat_message")) msg w
    else if is_str (str "user_joined") type then
      emit n (VStr (str "user_presence"))
           (presence "joined" [str "user"; str "userId"] msg) w
    else if is_str (str "user_left") type then
      emit n (VStr (str "user_presence"))
           (presence "left" [str "userId"] msg) w
    else if is_str (str "speaker_joined") type then
      emit n (VStr (str "voice_presence"))
           (presence "joined" [str "userId"; str "user"] msg) w
    else if is_str (str "speaker_left") type then
      emit n (VStr (str "voice_presence"))
           (presence "left" [str "userId"; str "user"] msg) w
    else Some (w, Normal))).

(** ** The event handlers that connect installs on a socket *)

Definition ws_onopen (n : nat) (w : world) : result :=
  let w := set_connected true w in
  and_then (emit n (VStr (str "connected")) VUndef w) (fun w =>
  Some (console_push LogConnected w, Normal)).

(** An async function: completing abruptly is rejecting the promise it
    returns, which nobody holds. *)
Definition ws_onmessage (n : nat) (data : wire) (w : world) : result :=
  match _unpack data with
  | inl e => Some (w, Abrupt e)
  | inr msg => _handleMessage n msg w
  end.

Definition ws_onerror (n : nat) (s : socket) (error : jsval) (w : world)
  : result :=
  let w := console_push (LogSocketError error) w in
  and_then (emit n (VStr (str "error")) error w) (fun w =>
  Some (settle (sock_promise s) (Failed (Thrown error)) w, Normal)).

(** Timer handles are positive integers, hence truthy. *)
Definition setTimeout (tm : timer) (w : world) : world * positive :=
  (set_next_timer (Pos.succ (next_timer w))
     (set_timers (timers w ++ [(next_timer w, tm)]) w),
   next_timer w).

Definition ws_onclose (n : nat) (s : socket) (w : world) : result :=
  let w := set_connected false w in
  and_then (emit n (VStr (str "disconnected")) VUndef w) (fun w =>
  let w := console_push LogDisconnected w in
  if truthy (prop (str "autoReconnect") (VObj (options w)))
     && negb (bool_decide (is_Some (reconnectTimer w))) then
    let '(w, t) :=
      setTimeout {| delay := prop (str "reconnectDelay") (VObj (options w));
                    timer_token := sock_token s |} w in
    Some (set_reconnectTimer (Some t) w, Normal)
  else Some (w, Normal)).

(** The callback given to setTimeout: [connect] with the token of the
    socket that closed.  The options never change, so the URL is the one
    the platform accepted when that socket was made. *)
Definition reconnect (tm : timer) (w : world) : world :=
  fst (connect (timer_token tm) (set_reconnectTimer None w)).

(** ** The platform *)

(** What can happen to a client, one turn of the event loop after the
    other: the application calls a method, or several one after the other
    without waiting ([Turn]), a
    socket that [connect] created reports an event, a pending timeout
    expires.  For a Blob, [Message] is the moment when its contents have
    been read. *)
Inductive event : Type :=
| Call (c : call)
| Turn (cs : list call)
| Open (i : nat)
| Message (i : nat) (data : wire)
| Failure (i : nat) (error : jsval)
| Close (i : nat)
| Timeout (t : positive).

(** The end of a turn: the jobs that it added, from position [k] of the
    queue on, run; between turns the queue of a client that started
    without jobs is empty ([run_no_job_left]).  An exception that leaves
    an event handler, or the rejection of the promise it returned, is
    reported by the platform; the state stays as the handler left it. *)
Definition finish (k : nat) (r : result) : option world :=
  (fun r => run_jobs k r.1) <$> r.

Definition mark (r : ready) (i : nat) (w : world) : world :=
  set_sockets (alter (set_readyState r) i (sockets w)) w.

Definition pending (t : positive) (w : world) : option timer :=
  snd <$> List.find (fun e => bool_decide (e.1 = t)) (timers w).

(** The callback of the timeout awaits nothing and calls no subscriber:
    it adds no job. *)
Definition step (n : nat) (e : event) (w : world) : option world :=
  let k := length (jobs w) in
  match e with
  | Call c => finish k (run_call n c w)
  | Turn cs => finish k (run_stmts n (SCall <$> cs) VUndef w)
  | Open i =>
      match sockets w !! i with
      | Some _ => finish k (ws_onopen n (mark OPEN i w))
      | None => Some w
      end
  | Message i data =>
      match sockets w !! i with
      | Some _ => finish k (ws_onmessage n data w)
      | None => Some w
      end
  | Failure i error =>
      match sockets w !! i with
      | Some s => finish k (ws_onerror n s error w)
      | None => Some w
      end
  | Close i =>
      match sockets w !! i with
      | Some s => finish k (ws_onclose n s (mark CLOSED i w))
      | None => Some w
      end
  | Timeout t =>
      match pending t w with
      | Some tm => Some (reconnect tm (clearTimeout t w))
      | None => Some w
      end
  end.

Fixpoint run (n : nat) (es : list event) (w : world) : option world :=
  match es with
  | [] => Some w
  | e :: es' =>
      match step n e w with
      | Some w' => run n es' w'
      | None => None
      end
  end.

End SDK.

(* ================================================================== *)
(** * Notions used in the statements *)
(* ================================================================== *)

Module Notions.
Import JSON SDK.

(** ** The codec *)

(** What may follow a value inside a text that [ser] wrote: nothing, a
    comma, or a closing bracket or brace. *)
Definition delimited (rest : text) : Prop :=
  match rest with
  | [] => True
  | c :: _ => c = 44 \/ c = 93 \/ c = 125
  end.

Definition no_digit (rest : text) : Prop :=
  match rest with
  | [] => True
  | c :: _ => digit_cons c = None
  end.

(** The first character that [ser] writes starts a value. *)
Definition starts_value (c : N) : Prop :=
  is_ws c = false /\ c <> 93 /\ c <> 125 /\ c <> 44.

(** The number that digits written from the left denote, after the
    digits of [acc]. *)
Fixpoint uint_val (d : Decimal.uint) (acc : N) : N :=
  match d with
  | Decimal.Nil => acc
  | Decimal.D0 d => uint_val d (10 * acc)
  | Decimal.D1 d => uint_val d (10 * acc + 1)
  | Decimal.D2 d => uint_val d (10 * acc + 2)
  | Decimal.D3 d => uint_val d (10 * acc + 3)
  | Decimal.D4 d => uint_val d (10 * acc + 4)
  | Decimal.D5 d => uint_val d (10 * acc + 5)
  | Decimal.D6 d => uint_val d (10 * acc + 6)
  | Decimal.D7 d => uint_val d (10 * acc + 7)
  | Decimal.D8 d => uint_val d (10 * acc + 8)
  | Decimal.D9 d => uint_val d (10 * acc + 9)
  end.

(** The same for the characters of a text. *)
Fixpoint text_val (t : text) (acc : N) : N :=
  match t with
  | [] => acc
  | c :: r => text_val r (10 * acc + (c - 48))
  end.

(** The digits at the head of a text. *)
Definition digits_of (t : text) : Decimal.uint := (span_digits t).1.

(** A decimal digit. *)
Definition digit (c : N) : Prop := 48 <= c <= 57.


(** No code unit above the ASCII range. *)
Definition ascii_text (t : text) : Prop := Forall (fun c => c < 128) t.

(** Every surrogate is half of a pair. *)
Fixpoint paired (s : text) : bool :=
  match s with
  | [] => true
  | c :: r =>
      if is_high c then
        match r with
        | d :: r' => is_low d && paired r'
        | [] => false
        end
      else negb (is_low c) && paired r
  end.

(** The statement for one value, as the induction carries it. *)
Definition reads_back (v : jsval) : Prop :=
  json_data v = true ->
  forall n rest,
    (length (ser v) <= n)%nat -> delimited rest ->
    parse_value n (ser v ++ rest) = Some (v, rest).

(** A result of a parser with bound [n] that consumed input, and that
    every bound at least the number of characters consumed gives too. *)
Definition settled {A : Type} (f : nat -> text -> option (A * text))
  (n : nat) : Prop :=
  forall s a rest,
    f n s = Some (a, rest) ->
    (length rest < length s)%nat
    /\ forall m, (length s - length rest <= m)%nat -> f m s = Some (a, rest).

(** ** Effects *)

(** Every change of state is a sequence of these: an assignment to a
    field other than the timer fields, a new socket or a change to one,
    and three changes of the timer fields.  A timeout is armed only while
    the client holds none; it is cleared through the handle the client
    holds, or it expires. *)
Inductive effect : world -> world -> Prop :=
| eff_listeners l w : effect w (set_listeners l w)
| eff_next_closure k w : effect w (set_next_closure k w)
| eff_promises ps w : effect w (set_promises ps w)
| eff_roomId r w : effect w (set_roomId r w)
| eff_clientId c w : effect w (set_clientId c w)
| eff_user u w : effect w (set_user u w)
| eff_connected b w : effect w (set_connected b w)
| eff_ws o w : effect w (set_ws o w)
| eff_console l w : effect w (console_push l w)
| eff_record tag data w : effect w (record tag data w)
| eff_log_emit event data w : effect w (log_emit event data w)
| eff_jobs js w : effect w (set_jobs js w)
| eff_socket_new s w : effect w (set_sockets (sockets w ++ [s]) w)
| eff_socket_alter f i w : effect w (set_sockets (alter f i (sockets w)) w)
| eff_clear t w :
    reconnectTimer w = Some t ->
    effect w (set_reconnectTimer None (clearTimeout t w))
| eff_arm tm w :
    reconnectTimer w = None ->
    effect w (set_reconnectTimer (Some (setTimeout tm w).2)
                                 (setTimeout tm w).1)
| eff_expire t tm w :
    pending t w = Some tm ->
    effect w (set_reconnectTimer None (clearTimeout t w)).

Abbreviation effects := (rtc effect).

(** The timeouts that are pending are the one whose handle the client
    holds, if it holds one. *)
Definition timers_ok (w : world) : Prop :=
  (timers w).*1 = option_list (reconnectTimer w).

(** Auto-reconnect is on. *)
Definition auto_reconnect (w : world) : Prop :=
  truthy (prop (str "autoReconnect") (VObj (options w))) = true.

(** The tags recorded so far, oldest first. *)
Definition tags (w : world) : list nat := (trace w).*1.

(** The names of the events emitted so far, oldest first. *)
Definition emitted_names (w : world) : list jsval := (emitted w).*1.

(** The array of subscribers of an event, empty if there is none. *)
Definition subscribers (ev : text) (w : world) : list handler :=
  default [] (listeners w !! ev).

(** ** Subscribers that only look and throw *)

Definition simple (s : stmt) : bool :=
  match s with
  | SRecord _ | SThrow _ => true
  | SCall _ => false
  end.

(** Application code that calls no method of the SDK. *)
Definition plain (h : handler) : bool :=
  match code h with
  | User body => forallb simple body
  | _ => false
  end.

(** Every subscriber of [ev] is plain. *)
Definition calm (ev : text) (w : world) : Prop :=
  forallb plain (subscribers ev w) = true.

(** What the body of a plain subscriber does. *)
Fixpoint run_plain (body : list stmt) (data : jsval) (w : world)
  : world * completion :=
  match body with
  | SRecord tag :: rest => run_plain rest data (record tag data w)
  | SThrow tag :: _ => (w, Abrupt (UserError tag))
  | _ => (w, Normal)
  end.

(** One turn of the loop of [emit] on a plain subscriber. *)
Definition call_plain (ev : text) (data : jsval) (w : world) (h : handler)
  : world :=
  match code h with
  | User body =>
      match run_plain body data w with
      | (w', Normal) => w'
      | (w', Abrupt e) => console_push (LogHandlerError ev e) w'
      end
  | _ => w
  end.

(** The loop of [emit] on plain subscribers [hs]. *)
Definition deliver (ev : text) (data : jsval) (hs : list handler) (w : world)
  : world :=
  fold_left (call_plain ev data) hs w.

(** The tags a plain body records before it throws or ends. *)
Fixpoint seen (body : list stmt) : list nat :=
  match body with
  | SRecord tag :: rest => tag :: seen rest
  | _ => []
  end.

Definition seen_by (h : handler) : list nat :=
  match code h with
  | User body => seen body
  | _ => []
  end.

(** How a plain body ends: with its first throw, or normally. *)
Fixpoint fate (body : list stmt) : completion :=
  match body with
  | SRecord _ :: rest => fate rest
  | SThrow tag :: _ => Abrupt (UserError tag)
  | _ => Normal
  end.

(** What plain subscribers [hs] record when called in order with [data]:
    each one its tags up to its own throw. *)
Definition observed (data : jsval) (hs : list handler)
  : list (nat * jsval) :=
  concat ((fun h => (fun tag => (tag, data)) <$> seen_by h) <$> hs).

(** What [emit] writes to the console for them: one line for each
    subscriber that threw. *)
Definition complaints (ev : text) (hs : list handler) : list log :=
  concat ((fun h =>
             match code h with
             | User body =>
                 match fate body with
                 | Abrupt e => [LogHandlerError ev e]
                 | Normal => []
                 end
             | _ => []
             end) <$> hs).

Definition weight (h : handler) : nat :=
  match code h with
  | User body => length body
  | _ => 0
  end.

(** Enough nested calls for [emit] on plain subscribers [hs]. *)
Definition budget (hs : list handler) : nat :=
  length hs + max_list (weight <$> hs) + 4.

(** ** Subscribers that do not emit *)

(** Application code of at most [B] statements that calls no method. *)
Definition plain_code (B : nat) (f : closure) : bool :=
  match f with
  | User body => forallb simple body && bool_decide (length body <= B)%nat
  | _ => false
  end.

(** Plain application code, a closure that the SDK itself passes to
    [once], or the wrapper that [once] makes of one of these. *)
Definition tame (B : nat) (h : handler) : bool :=
  match code h with
  | User _ => plain_code B (code h)
  | OnceWrapper _ inner =>
      match inner with
      | User _ => plain_code B inner
      | Handshake _ | Settle _ _ => true
      | OnceWrapper _ _ => false
      end
  | Handshake _ | Settle _ _ => true
  end.

(** Every subscriber is tame, with bodies of at most [B] statements, and
    no event has more than [L] subscribers. *)
Definition tame_world (B L : nat) (w : world) : Prop :=
  map_Forall (fun _ hs => forallb (tame B) hs = true
                          /\ (length hs <= L)%nat) (listeners w).

(** What a call of a tame subscriber preserves. *)
Definition kept (B L : nat) (w w' : world) : Prop :=
  tame_world B L w' /\ emitted w' = emitted w /\ jobs w' = jobs w.

(** ** What the jobs leave alone *)

(** From [w] to [w'] nothing changed but the sockets, the promises, the
    subscriptions, [roomId] and the queue of jobs. *)
Definition steady (w w' : world) : Prop :=
  options w' = options w /\ ws w' = ws w /\ clientId w' = clientId w
  /\ user w' = user w /\ reconnectTimer w' = reconnectTimer w
  /\ connected w' = connected w /\ timers w' = timers w
  /\ next_timer w' = next_timer w /\ console w' = console w
  /\ trace w' = trace w /\ emitted w' = emitted w.

(** ** The fuel of the jobs *)

(** What a job costs: one step, and one more for the job it adds. *)
Definition job_cost (l : list job) : nat :=
  sum_list_with (fun j => match j with
                          | Transmit _ _ KSend => 1
                          | Transmit _ _ _ => 2
                          | Resume _ _ _ => 1
                          end)%nat l.

(** ** Sample values *)

(** A client made with no options. *)
Definition fresh : world := constructor [].

(** connect() on a fresh client, then the open event of its socket. *)
Definition go_online : list event := [Call (CConnect VUndef); Open 0].

(** The client after that. *)
Definition online : world := default fresh (run 8 go_online fresh).

(** The inbound message
    [{type:'user_joined', userId:7, user:{username:'al'}}]. *)
Definition user_joined_al : jsval :=
  VObj [(str "type", VStr (str "user_joined"));
        (str "userId", VNum 7);
        (str "user", VObj [(str "username", VStr (str "al"))])].

(** [{type:'joined', userId:7, user:{username:'al'}}] *)
Definition presence_al : jsval :=
  VObj [(str "type", VStr (str "joined"));
        (str "userId", VNum 7);
        (str "user", VObj [(str "username", VStr (str "al"))])].

(** The payload that the router derives from [user_joined_al]. *)
Definition derived_al : jsval :=
  presence "joined" [str "user"; str "userId"] user_joined_al.

(** The three emissions that [user_joined_al] causes, in order. *)
Definition emissions_al : list (jsval * jsval) :=
  [(VStr (str "user_joined"), user_joined_al);
   (VStr (str "message"), user_joined_al);
   (VStr (str "user_presence"), derived_al)].

(** The message that [broadcastState('cursor', undefined)] sends when
    the clock shows 1. *)
Definition cursor_gone : jsval :=
  VObj [(str "type", VStr (str "app_state_broadcast"));
        (str "appName", VStr (str "cursor"));
        (str "state", VUndef);
        (str "timestamp", VNum 1)].

(** What arrives of it. *)
Definition cursor_gone_received : jsval :=
  VObj [(str "type", VStr (str "app_state_broadcast"));
        (str "appName", VStr (str "cursor"));
        (str "timestamp", VNum 1)].

(** The message that [broadcastState('cursor', {x: 10.5, y: -0.25})]
    sends when the clock shows 1700000000000. *)
Definition cursor_at : jsval :=
  VObj [(str "type", VStr (str "app_state_broadcast"));
        (str "appName", VStr (str "cursor"));
        (str "state", VObj [(str "x", VDec 105 (-1));
                            (str "y", VDec (-25) (-2))]);
        (str "timestamp", VNum 1700000000000)].

(** The inbound message
    [{type:'room_joined', roomId:'r1', currentUsers:[]}]. *)
Definition room_joined_r1 : jsval :=
  VObj [(str "type", VStr (str "room_joined"));
        (str "roomId", VStr (str "r1"));
        (str "currentUsers", VArr [])].

(** A frame that is not JSON. *)
Definition garbled : wire := WText (str "{oops").

(** A subscriber that records its argument under [tag]. *)
Definition spy (tag : nat) : closure := User [SRecord tag].

(** A subscriber that records its argument and emits [event] again. *)
Definition echo (tag : nat) (event : text) : closure :=
  User [SRecord tag; SCall (CEmit (VStr event) VNull)].

(** Four one-shot subscriptions to [E], in this order. *)
Definition four_once : list event :=
  [Call (COnce (str "E") (spy 1)); Call (COnce (str "E") (spy 2));
   Call (COnce (str "E") (spy 3)); Call (COnce (str "E") (spy 4))].

Definition emit_E : event := Call (CEmit (VStr (str "E")) VNull).

(** Two subscribers on [E]: the first throws, the second records. *)
Definition thrower_then_spy : world :=
  on (str "E") (Handler (ByUser 2) (spy 2))
     (on (str "E") (Handler (ByUser 1) (User [SThrow 1])) fresh).

(** ** Options *)

(** [{...given}] on top of the object [o]. *)
Definition spread (given o : list (text * jsval)) : list (text * jsval) :=
  fold_left (fun o kv => obj_set (fst kv) (snd kv) o) given o.

(** ** Frames *)

(** What the current socket has sent, oldest first. *)
Definition outbox (w : world) : list wire :=
  match ws w with
  | Some i =>
      match sockets w !! i with
      | Some s => sent s
      | None => []
      end
  | None => []
  end.

(** What the promise of an async method is when the turn that called it
    alone ends: settled with what the method returns, or pending for the
    methods that wait for an answer. *)
Definition at_end_of_turn (k : cont) : promise_state :=
  match k with
  | KSend => Resolved VUndef
  | KReturn v => Resolved v
  | KJoin _ | KAsk _ _ => Pending
  end.

(** The event that an async method waits for once its request is sent,
    and the field of the payload that it returns, if not all of it. *)
Definition awaited (k : cont) : option (text * option text) :=
  match k with
  | KSend | KReturn _ => None
  | KJoin _ => Some (str "room_joined", None)
  | KAsk event field => Some (event, Some field)
  end.

(** In a turn of its own on the client [w], the call [c] puts [message]
    on the current socket, after the frames sent before, makes one
    promise, which is [st] when the turn ends, and leaves no job. *)
Definition sends (n : nat) (c : call) (message : jsval) (st : promise_state)
  (w : world) : Prop :=
  exists w',
    step n (Call c) w = Some w'
    /\ outbox w' = outbox w ++ [_pack message]
    /\ promises w' = promises w ++ [st]
    /\ jobs w' = jobs w.

(** A property that has a value. *)
Definition defined (kv : text * jsval) : bool := negb (is_undef kv.2).

(** [undefined] where an array element is: [null]. *)
Definition hole_to_null (v : jsval) : jsval :=
  if is_undef v then VNull else v.

(** [undefined], or plain JSON data. *)
Definition json_data_or_undefined (v : jsval) : bool :=
  is_undef v || json_data v.

(** ** What the codec carries *)

Section Members.
Variable on_the_wire : jsval -> jsval.

(** The properties that are written, with what is written for each. *)
Fixpoint members_on_the_wire (l : list (text * jsval))
  : list (text * jsval) :=
  match l with
  | [] => []
  | (k, v) :: l' =>
      if is_undef v then members_on_the_wire l'
      else (k, on_the_wire v) :: members_on_the_wire l'
  end.
End Members.

(** What [JSON.parse] reads from what [JSON.stringify] wrote for [v]: a
    property whose value is [undefined] is gone, and an element of an
    array that is [undefined] is [null]. *)
Fixpoint on_the_wire (v : jsval) : jsval :=
  match v with
  | VUndef => VNull
  | VArr l => VArr (List.map on_the_wire l)
  | VObj l => VObj (members_on_the_wire on_the_wire l)
  | _ => v
  end.

(** Plain JSON data but for [undefined], which may be a property or an
    element anywhere in the value. *)
Fixpoint sendable (v : jsval) : bool :=
  match v with
  | VUndef | VNull | VBool _ | VStr _ => true
  | VNum z => safe_integer z
  | VDec m e => (e <? 0)%Z && negb (m mod 10 =? 0)%Z
  | VArr l => forallb sendable l
  | VObj l =>
      bool_decide (NoDup l.*1) && forallb (fun kv => sendable kv.2) l
  end.

(** ** Timers *)

(** No timeout is pending and the client holds none. *)
Definition no_timer (w : world) : Prop :=
  timers w = [] /\ reconnectTimer w = None.

(** From [w] to [w'] the options stayed and no timer appeared. *)
Definition quiet (w w' : world) : Prop :=
  options w' = options w /\ (no_timer w -> no_timer w').

(** A client made with auto-reconnect off. *)
Definition manual : world := constructor [(str "autoReconnect", VBool false)].

(** The client [online] after the close event of its socket: a
    reconnect is pending. *)
Definition dropped : world := default online (run 8 [Close 0%nat] online).

(** ** Messages *)


(** The inbound message [{type:'text_message', content:'hi'}]. *)
Definition text_hi : jsval :=
  VObj [(str "type", VStr (str "text_message"));
        (str "content", VStr (str "hi"))].



(** The inbound message
    [{type:'connection_established', clientId:'c1', user:{username:'al'}}]. *)
Definition hello_c1 : jsval :=
  VObj [(str "type", VStr (str "connection_established"));
        (str "clientId", VStr (str "c1"));
        (str "user", VObj [(str "username", VStr (str "al"))])].

(** The inbound message [{type:'message_history', messages:[]}]. *)
Definition history_none : jsval :=
  VObj [(str "type", VStr (str "message_history"));
        (str "messages", VArr [])].

(** The inbound message [{type:'file_list', files:[]}]. *)
Definition files_none : jsval :=
  VObj [(str "type", VStr (str "file_list")); (str "files", VArr [])].

(** ** Sockets *)

(** The URL that [connect] opens for a token. *)
Definition endpoint (token : jsval) (w : world) : text :=
  let server := prop (str "serverUrl") (VObj (options w)) in
  if truthy token
  then to_string server ++ str "?token=" ++ to_string token
  else to_string server.


(** A client with one subscriber of [E], which subscribes another. *)
Definition grower : world :=
  on (str "E")
     (Handler (ByUser 1) (User [SCall (COn (str "E") (ByUser 2) (spy 2))]))
     fresh.

End Notions.

(* ================================================================== *)
(** * Facts about the codec *)
(* ================================================================== *)

Module JSONFacts.
Import JSON Notions.

(** Induction on values, with the hypothesis available for every element
    of an array and every member of an object. *)
Lemma jsval_ind (P : jsval -> Prop) :
  P VUndef -> P VNull -> (forall b, P (VBool b)) -> (forall z, P (VNum z)) ->
  (forall m e, P (VDec m e)) -> (forall s, P (VStr s)) ->
  (forall l, Forall P l -> P (VArr l)) ->
  (forall l, Forall (fun kv => P kv.2) l -> P (VObj l)) ->
  forall v, P v.
Proof.
  intros Hu Hn Hb Hz Hd Hs Ha Ho.
  fix IH 1. intros [| |b|z|m e|s|l|l].
  - exact Hu.
  - exact Hn.
  - apply Hb.
  - apply Hz.
  - apply Hd.
  - apply Hs.
  - apply Ha. induction l as [|v l IHl]; constructor; [apply IH | exact IHl].
  - apply Ho. induction l as [|[k v] l IHl]; constructor;
      [apply IH | exact IHl].
Qed.

(** Case analysis on the comparisons of code units in the goal. *)
Ltac units :=
  repeat match goal with
  | |- context [N.eqb ?a ?b] => destruct (N.eqb_spec a b); try lia
  | |- context [N.leb ?a ?b] => destruct (N.leb_spec a b); try lia
  | |- context [N.ltb ?a ?b] => destruct (N.ltb_spec a b); try lia
  end.

Lemma hex_val_digit n : n < 16 -> hex_val (hex_digit n) = Some n.
Proof.
  intros Hn. unfold hex_val, hex_digit.
  destruct (N.ltb_spec n 10); units; simpl; f_equal; lia.
Qed.

Lemma hex4_uesc c rest :
  c < 65536 ->
  exists h1 h2 h3 h4,
    uesc c ++ rest = 92 :: 117 :: h1 :: h2 :: h3 :: h4 :: rest
    /\ hex4 h1 h2 h3 h4 = Some c.
Proof.
  intros Hc. do 4 eexists. split; [reflexivity|].
  unfold hex4.
  rewrite !hex_val_digit by (apply N.mod_lt; lia).
  f_equal.
  assert (E1 : c / 256 = c / 16 / 16)
    by (rewrite N.Div0.div_div; reflexivity).
  assert (E2 : c / 4096 = c / 16 / 16 / 16)
    by (rewrite !N.Div0.div_div; reflexivity).
  rewrite E1, E2. clear E1 E2.
  assert (D : c / 16 / 16 / 16 / 16 = 0).
  { rewrite !N.Div0.div_div. apply N.div_small. lia. }
  pose proof (N.div_mod c 16 ltac:(lia)) as H0.
  pose proof (N.div_mod (c / 16) 16 ltac:(lia)) as H1.
  pose proof (N.div_mod (c / 16 / 16) 16 ltac:(lia)) as H2.
  pose proof (N.div_mod (c / 16 / 16 / 16) 16 ltac:(lia)) as H3.
  rewrite D in H3.
  generalize dependent (c / 16 / 16 / 16 mod 16).
  generalize dependent (c / 16 / 16 / 16).
  generalize dependent (c / 16 / 16 mod 16).
  generalize dependent (c / 16 / 16).
  generalize dependent (c / 16 mod 16).
  generalize dependent (c / 16).
  generalize dependent (c mod 16).
  intros. lia.
Qed.

Lemma parse_uesc c t :
  c < 65536 ->
  parse_string (uesc c ++ t) =
  match parse_string t with
  | Some (u, rest) => Some (c :: u, rest)
  | None => None
  end.
Proof.
  intros Hc. destruct (hex4_uesc c t Hc) as (h1 & h2 & h3 & h4 & -> & E).
  cbn [parse_string]. change (92 =? 34) with false.
  change (92 =? 92) with true. change (117 =? 117) with true.
  cbn iota. rewrite E. reflexivity.
Qed.

Lemma parse_esc_unit c t :
  is_high c = false -> is_low c = false ->
  parse_string (esc_unit c ++ t) =
  match parse_string t with
  | Some (u, rest) => Some (c :: u, rest)
  | None => None
  end.
Proof.
  unfold is_high, is_low, esc_unit. intros Hh Hl.
  destruct (N.eqb_spec c 8) as [->|]; [reflexivity|].
  destruct (N.eqb_spec c 9) as [->|]; [reflexivity|].
  destruct (N.eqb_spec c 10) as [->|]; [reflexivity|].
  destruct (N.eqb_spec c 12) as [->|]; [reflexivity|].
  destruct (N.eqb_spec c 13) as [->|]; [reflexivity|].
  destruct (N.eqb_spec c 34) as [->|]; [reflexivity|].
  destruct (N.eqb_spec c 92) as [->|]; [reflexivity|].
  destruct (N.ltb_spec c 32).
  - apply parse_uesc. lia.
  - cbn [app parse_string].
    destruct (N.eqb_spec c 34); [lia|].
    destruct (N.eqb_spec c 92); [lia|].
    destruct (N.ltb_spec c 32); [lia|]. reflexivity.
Qed.

Lemma parse_literal_unit c t :
  32 <= c -> c <> 34 -> c <> 92 ->
  parse_string (c :: t) =
  match parse_string t with
  | Some (u, rest) => Some (c :: u, rest)
  | None => None
  end.
Proof.
  intros. cbn [parse_string].
  destruct (N.eqb_spec c 34); [lia|].
  destruct (N.eqb_spec c 92); [lia|].
  destruct (N.ltb_spec c 32); [lia|]. reflexivity.
Qed.

(** A string literal reads back as the string it was written from. *)
Lemma parse_string_quote s rest :
  parse_string (quote_units s ++ 34 :: rest) = Some (s, rest).
Proof.
  remember (length s) as n eqn:Hn.
  revert s Hn. induction n as [n IH] using lt_wf_ind. intros s Hn.
  destruct s as [|c r]; [reflexivity|].
  cbn [quote_units].
  destruct (is_high c) eqn:Hh.
  - assert (Hc : 55296 <= c <= 56319).
    { unfold is_high in Hh. apply andb_true_iff in Hh as [H1 H2].
      apply N.leb_le in H1, H2. lia. }
    destruct r as [|d r'].
    + rewrite parse_uesc by lia. reflexivity.
    + destruct (is_low d) eqn:Hl.
      * assert (Hd : 56320 <= d <= 57343).
        { unfold is_low in Hl. apply andb_true_iff in Hl as [H1 H2].
          apply N.leb_le in H1, H2. lia. }
        cbn [app]. rewrite parse_literal_unit by lia.
        rewrite parse_literal_unit by lia.
        rewrite (IH (length r')) by (subst n; simpl; lia || reflexivity).
        reflexivity.
      * rewrite <- app_assoc, parse_uesc by lia.
        rewrite (IH (length (d :: r'))) by (subst n; simpl; lia || reflexivity).
        reflexivity.
  - destruct (is_low c) eqn:Hl.
    + assert (Hc : 56320 <= c <= 57343).
      { unfold is_low in Hl. apply andb_true_iff in Hl as [H1 H2].
        apply N.leb_le in H1, H2. lia. }
      rewrite <- app_assoc, parse_uesc by lia.
      rewrite (IH (length r)) by (subst n; simpl; lia || reflexivity).
      reflexivity.
    + rewrite <- app_assoc, parse_esc_unit by assumption.
      rewrite (IH (length r)) by (subst n; simpl; lia || reflexivity).
      reflexivity.
Qed.

Lemma delimited_no_digit rest : delimited rest -> no_digit rest.
Proof.
  destruct rest as [|c r]; [trivial|]. simpl.
  intros [-> | [-> | ->]]; reflexivity.
Qed.

Lemma span_digits_units d rest :
  no_digit rest -> span_digits (uint_units d ++ rest) = (d, rest).
Proof.
  intros Hr.
  induction d; cbn [uint_units app span_digits];
    try (change (digit_cons _) with (Some Decimal.D0)
         || change (digit_cons _) with (Some Decimal.D1)
         || change (digit_cons _) with (Some Decimal.D2)
         || change (digit_cons _) with (Some Decimal.D3)
         || change (digit_cons _) with (Some Decimal.D4)
         || change (digit_cons _) with (Some Decimal.D5)
         || change (digit_cons _) with (Some Decimal.D6)
         || change (digit_cons _) with (Some Decimal.D7)
         || change (digit_cons _) with (Some Decimal.D8)
         || change (digit_cons _) with (Some Decimal.D9));
    cbn iota; rewrite ?IHd; try reflexivity.
  destruct rest as [|c r]; [reflexivity|].
  simpl in Hr. cbn [span_digits]. rewrite Hr. reflexivity.
Qed.

(** The decimal notation of a number has a digit and no leading zero. *)
Lemma to_uint_int_part n : int_part_ok (N.to_uint n) = true.
Proof.
  assert (E : N.to_uint n = Decimal.unorm (N.to_uint n)).
  { rewrite <- (DecimalN.Unsigned.to_of (N.to_uint n)).
    rewrite DecimalN.Unsigned.of_to. reflexivity. }
  destruct (N.to_uint n) as [|d| | | | | | | | |] eqn:Hd; try reflexivity.
  - exfalso. symmetry in E. revert E. apply unorm_nonnil.
  - rewrite unorm_D0 in E. unfold Decimal.unorm in E.
    destruct (Decimal.nzhead d) eqn:Hz;
      try (exfalso; symmetry in E; rewrite <- Hz in E;
           revert E; apply nzhead_nonzero).
    injection E as ->. reflexivity.
Qed.

Lemma print_N_head n :
  exists c t, print_N n = c :: t /\ 48 <= c <= 57.
Proof.
  unfold print_N. pose proof (to_uint_int_part n) as H.
  destruct (N.to_uint n); try discriminate H;
    cbn [uint_units]; do 2 eexists; (split; [reflexivity | lia]).
Qed.

Lemma parse_frac_delimited rest :
  delimited rest -> parse_frac rest = Some (Decimal.Nil, rest).
Proof.
  destruct rest as [|c r]; [reflexivity|]. simpl.
  intros [-> | [-> | ->]]; reflexivity.
Qed.

Lemma parse_exp_delimited rest :
  delimited rest -> parse_exp rest = Some (0%Z, rest).
Proof.
  destruct rest as [|c r]; [reflexivity|]. simpl.
  intros [-> | [-> | ->]]; reflexivity.
Qed.

Lemma number_value_integer neg n :
  number_value neg (N.to_uint n) Decimal.Nil 0 =
  VNum (if neg then - Z.of_N n else Z.of_N n)%Z.
Proof.
  unfold number_value. cbn [Decimal.nb_digits]. cbv zeta.
  rewrite DecimalN.Unsigned.of_to.
  change (Z.of_nat 0) with 0%Z. change (0 - 0)%Z with 0%Z.
  change (Z.to_nat (- 0)) with 0%nat. cbn [norm_dec].
  change (0 <=? 0)%Z with true. cbn iota.
  change (N.of_uint Decimal.Nil) with 0. f_equal.
  destruct neg; lia.
Qed.

(** ** Decimals *)

Lemma of_uint_acc_val d : forall acc,
  N.pos (Pos.of_uint_acc d acc) = uint_val d (N.pos acc).
Proof.
  induction d; intros acc; cbn [Pos.of_uint_acc uint_val];
    rewrite ?IHd; try reflexivity; f_equal; lia.
Qed.

Lemma uint_val_0 d : uint_val d 0 = N.of_uint d.
Proof.
  unfold N.of_uint.
  induction d; cbn [Pos.of_uint uint_val]; rewrite ?of_uint_acc_val;
    try reflexivity.
  exact IHd.
Qed.

Lemma uint_val_acc d : forall acc,
  uint_val d acc = acc * 10 ^ N.of_nat (Decimal.nb_digits d) + uint_val d 0.
Proof.
  induction d; intros acc; cbn [uint_val Decimal.nb_digits];
    [cbn; lia | ..];
    rewrite IHd; rewrite (IHd (10 * 0 + _)) || rewrite (IHd (10 * 0));
    rewrite Nat2N.inj_succ, N.pow_succ_r'; lia.
Qed.

Lemma digit_cons_digit c :
  digit c ->
  exists k, digit_cons c = Some k
    /\ (forall d acc, uint_val (k d) acc = uint_val d (10 * acc + (c - 48)))
    /\ (forall d, Decimal.nb_digits (k d) = S (Decimal.nb_digits d))
    /\ (forall d, uint_units (k d) = c :: uint_units d)
    /\ (forall d, is_nil (k d) = false)
    /\ (c <> 48 -> forall d, int_part_ok (k d) = true).
Proof.
  unfold digit. intros Hc.
  assert (E : c = 48 \/ c = 49 \/ c = 50 \/ c = 51 \/ c = 52 \/ c = 53
              \/ c = 54 \/ c = 55 \/ c = 56 \/ c = 57) by lia.
  repeat destruct E as [-> | E]; try subst c;
    (eexists; split; [reflexivity|]);
    (repeat split; try reflexivity; intros; cbn [uint_val];
     try (f_equal; lia); congruence).
Qed.

Lemma span_digits_text t rest :
  Forall digit t -> no_digit rest ->
  span_digits (t ++ rest) = (digits_of t, rest).
Proof.
  intros Ht Hr. unfold digits_of.
  induction Ht as [|c t Hc Ht IH]; cbn [app].
  - destruct rest as [|c r]; [reflexivity|].
    simpl in Hr. cbn [span_digits]. rewrite Hr. reflexivity.
  - destruct (digit_cons_digit c Hc) as (k & E & _).
    cbn [span_digits]. rewrite E, IH.
    destruct (span_digits t). reflexivity.
Qed.

Lemma digits_of_cons c t :
  digit c ->
  exists k, digit_cons c = Some k /\ digits_of (c :: t) = k (digits_of t).
Proof.
  intros Hc. destruct (digit_cons_digit c Hc) as (k & E & _).
  exists k. split; [exact E|]. unfold digits_of. cbn [span_digits].
  rewrite E. destruct (span_digits t). reflexivity.
Qed.

Lemma digits_of_val t :
  Forall digit t -> forall acc, uint_val (digits_of t) acc = text_val t acc.
Proof.
  induction 1 as [|c t Hc Ht IH]; intros acc; [reflexivity|].
  destruct (digit_cons_digit c Hc) as (k & E & Hv & _).
  destruct (digits_of_cons c t Hc) as (k' & E' & ->).
  assert (k' = k) as -> by congruence.
  rewrite Hv, IH. reflexivity.
Qed.

Lemma digits_of_length t :
  Forall digit t -> Decimal.nb_digits (digits_of t) = length t.
Proof.
  induction 1 as [|c t Hc Ht IH]; [reflexivity|].
  destruct (digit_cons_digit c Hc) as (k & E & _ & Hn & _).
  destruct (digits_of_cons c t Hc) as (k' & E' & ->).
  assert (k' = k) as -> by congruence.
  rewrite Hn, IH. reflexivity.
Qed.

Lemma digits_of_nonnil c t :
  Forall digit (c :: t) -> is_nil (digits_of (c :: t)) = false.
Proof.
  intros H. apply Forall_cons in H as [Hc Ht].
  destruct (digit_cons_digit c Hc) as (k & E & _ & _ & _ & Hn & _).
  destruct (digits_of_cons c t Hc) as (k' & E' & ->).
  assert (k' = k) as -> by congruence. apply Hn.
Qed.

Lemma digits_of_int_part c t :
  Forall digit (c :: t) -> c <> 48 -> int_part_ok (digits_of (c :: t)) = true.
Proof.
  intros H Hz. apply Forall_cons in H as [Hc Ht].
  destruct (digit_cons_digit c Hc) as (k & E & _ & _ & _ & _ & Hn).
  destruct (digits_of_cons c t Hc) as (k' & E' & ->).
  assert (k' = k) as -> by congruence. now apply Hn.
Qed.

Lemma text_val_app a b : forall acc,
  text_val (a ++ b) acc = text_val b (text_val a acc).
Proof. induction a as [|c a IH]; intros acc; [reflexivity|]. apply IH. Qed.

Lemma text_val_acc t : forall acc,
  text_val t acc = acc * 10 ^ N.of_nat (length t) + text_val t 0.
Proof.
  induction t as [|c t IH]; intros acc; cbn [text_val length]; [cbn; lia|].
  rewrite IH, (IH (10 * 0 + _)).
  rewrite Nat2N.inj_succ, N.pow_succ_r'. lia.
Qed.

Lemma uint_units_digits d : Forall digit (uint_units d).
Proof.
  induction d; cbn [uint_units]; constructor; try assumption;
    unfold digit; lia.
Qed.

Lemma uint_units_val d : forall acc,
  text_val (uint_units d) acc = uint_val d acc.
Proof.
  induction d; intros acc; cbn [uint_units text_val uint_val];
    rewrite ?IHd; try reflexivity; f_equal; lia.
Qed.

Lemma print_N_val n : text_val (print_N n) 0 = n.
Proof.
  unfold print_N. rewrite uint_units_val, uint_val_0.
  apply DecimalN.Unsigned.of_to.
Qed.

Lemma print_N_digits n : Forall digit (print_N n).
Proof. apply uint_units_digits. Qed.

Lemma text_val_zeros k t : text_val (repeat 48 k ++ t) 0 = text_val t 0.
Proof.
  induction k as [|k IH]; [reflexivity|]. cbn [repeat app text_val].
  exact IH.
Qed.

(** The value of the digits of a text, as [number_value] computes it. *)
Lemma of_uint_digits t :
  Forall digit t -> N.of_uint (digits_of t) = text_val t 0.
Proof. intros H. rewrite <- uint_val_0. now apply digits_of_val. Qed.

(** The first digit of a number that is not zero is not a zero. *)
Lemma print_N_first n :
  n <> 0 -> exists c t, print_N n = c :: t /\ c <> 48.
Proof.
  intros Hn. unfold print_N. pose proof (to_uint_int_part n) as H.
  pose proof (DecimalN.Unsigned.of_to n) as E.
  destruct (N.to_uint n) as [|d| | | | | | | | |]; try discriminate H;
    cbn [uint_units]; try (do 2 eexists; split; [reflexivity | lia]).
  cbn [int_part_ok] in H. destruct d; try discriminate H.
  cbn in E. congruence.
Qed.

Lemma norm_dec_lowest fuel m e :
  (e < 0)%Z -> (m mod 10 <> 0)%Z -> norm_dec fuel m e = VDec m e.
Proof.
  intros He Hm.
  assert (H1 : ((m mod 10 =? 0) = false)%Z) by now apply Z.eqb_neq.
  assert (H2 : ((0 <=? e) = false)%Z) by now apply Z.leb_gt.
  destruct fuel; cbn [norm_dec]; rewrite ?H1, ?H2, ?andb_false_r;
    reflexivity.
Qed.

Lemma parse_number_body (neg : bool) c t :
  digit c ->
  parse_number ((if neg then [45] else []) ++ c :: t)
  = let '(i, s2) := span_digits (c :: t) in
    if int_part_ok i then
      match parse_frac s2 with
      | None => None
      | Some (f, s3) =>
          match parse_exp s3 with
          | None => None
          | Some (x, s4) => Some (number_value neg i f x, s4)
          end
      end
    else None.
Proof.
  unfold digit. intros Hc. unfold parse_number. destruct neg; cbn [app].
  - reflexivity.
  - destruct (N.eqb_spec c 45); [lia | reflexivity].
Qed.

Lemma number_value_dec neg i f x m e :
  (Z.of_N (N.of_uint i) * 10 ^ Z.of_nat (Decimal.nb_digits f)
   + Z.of_N (N.of_uint f) = Z.abs m)%Z ->
  (x - Z.of_nat (Decimal.nb_digits f) = e)%Z ->
  neg = (m <? 0)%Z ->
  (e < 0)%Z -> (m mod 10 <> 0)%Z ->
  number_value neg i f x = VDec m e.
Proof.
  intros Hm He -> Hlt Hmod. unfold number_value.
  cbv zeta. rewrite Hm, He, norm_dec_lowest.
  - f_equal. destruct (Z.ltb_spec m 0); lia.
  - assumption.
  - destruct (Z.ltb_spec m 0); [|now rewrite Z.abs_eq by lia].
    replace (- Z.abs m)%Z with m by lia. assumption.
Qed.

Lemma parse_frac_digits t rest :
  t <> [] -> Forall digit t -> no_digit rest ->
  parse_frac (46 :: t ++ rest) = Some (digits_of t, rest).
Proof.
  intros Hne Ht Hr. cbn [parse_frac]. change (46 =? 46) with true.
  cbn iota. rewrite span_digits_text by assumption.
  destruct t as [|c t]; [congruence|].
  rewrite digits_of_nonnil by assumption. reflexivity.
Qed.

Lemma parse_exp_print (x : Z) rest :
  no_digit rest ->
  parse_exp (101 :: (if (x <? 0)%Z then 45 else 43)
                 :: print_N (Z.abs_N x) ++ rest)
  = Some (x, rest).
Proof.
  intros Hr. cbn [parse_exp]. change (101 =? 101) with true.
  cbn [orb]. cbv iota.
  assert (Hn : is_nil (N.to_uint (Z.abs_N x)) = false).
  { pose proof (to_uint_int_part (Z.abs_N x)) as H.
    destruct (N.to_uint _); (discriminate H || reflexivity). }
  destruct (Z.ltb_spec x 0).
  - change (45 =? 45) with true. cbv iota. unfold print_N.
    rewrite span_digits_units by assumption. rewrite Hn.
    rewrite DecimalN.Unsigned.of_to, N2Z.inj_abs_N. do 2 f_equal. lia.
  - change (43 =? 45) with false. change (43 =? 43) with true. cbv iota.
    unfold print_N.
    rewrite span_digits_units by assumption. rewrite Hn.
    rewrite DecimalN.Unsigned.of_to, N2Z.inj_abs_N. do 2 f_equal. lia.
Qed.

Lemma no_digit_point t : no_digit (46 :: t).
Proof. reflexivity. Qed.

Lemma no_digit_exp t : no_digit (101 :: t).
Proof. reflexivity. Qed.

Lemma parse_frac_none t : parse_frac (101 :: t) = Some (Decimal.Nil, 101 :: t).
Proof. reflexivity. Qed.

Lemma text_val_split a b :
  (Z.of_N (text_val a 0) * 10 ^ Z.of_nat (length b) + Z.of_N (text_val b 0)
   = Z.of_N (text_val (a ++ b) 0))%Z.
Proof.
  rewrite text_val_app, (text_val_acc b (text_val a 0)).
  rewrite N2Z.inj_add, N2Z.inj_mul, N2Z.inj_pow, nat_N_Z. reflexivity.
Qed.

Lemma digit_one c : digit c -> Forall digit [c].
Proof. intros H. constructor; [exact H | constructor]. Qed.

(** A decimal in lowest terms reads back from what Number::toString
    prints for it. *)
Lemma parse_number_print_dec m e rest :
  (e < 0)%Z -> (m mod 10 <> 0)%Z -> delimited rest ->
  parse_number (print_dec m e ++ rest) = Some (VDec m e, rest).
Proof.
  intros He Hm Hr.
  assert (Hm0 : Z.abs_N m <> 0).
  { intros H. apply Hm. replace m with 0%Z by lia. reflexivity. }
  pose proof (delimited_no_digit rest Hr) as Hnd.
  pose proof (print_N_digits (Z.abs_N m)) as Hds.
  pose proof (print_N_val (Z.abs_N m)) as Hv.
  destruct (print_N_first _ Hm0) as (c & ds' & Eds & Hc).
  unfold print_dec. cbv zeta.
  set (ds := print_N (Z.abs_N m)) in *.
  set (k := Z.of_nat (length ds)).
  assert (Hk : (1 <= k)%Z) by (subst k; rewrite Eds; simpl length; lia).
  assert (Hdc : digit c) by (rewrite Eds in Hds; now inversion Hds).
  assert (Hval : Z.of_N (text_val ds 0) = Z.abs m)
    by (rewrite Hv; apply N2Z.inj_abs_N).
  destruct (andb (0 <? k + e)%Z (k + e <=? 21)%Z) eqn:HA.
  - (* digits, a point, digits *)
    apply andb_true_iff in HA as [H0 _]. apply Z.ltb_lt in H0.
    set (n := Z.to_nat (k + e)).
    assert (Hn : (0 < n < length ds)%nat) by (subst n k; lia).
    assert (E1 : firstn n ds = c :: firstn (pred n) ds').
    { rewrite Eds. destruct n; [lia | reflexivity]. }
    rewrite <- !app_assoc. rewrite E1 at 1. cbn [app].
    rewrite parse_number_body by assumption.
    rewrite app_comm_cons, <- E1.
    rewrite span_digits_text;
      [| now apply Forall_take | apply no_digit_point].
    rewrite E1 at 1.
    rewrite digits_of_int_part;
      [| rewrite <- E1; now apply Forall_take | assumption].
    rewrite parse_frac_digits;
      [| intros H; apply (f_equal length) in H; rewrite length_skipn in H;
         simpl in H; lia
       | now apply Forall_drop | assumption].
    rewrite parse_exp_delimited by assumption.
    f_equal. f_equal.
    apply number_value_dec; try assumption.
    + rewrite !of_uint_digits
        by (now apply Forall_take || now apply Forall_drop).
      rewrite digits_of_length by now apply Forall_drop.
      rewrite text_val_split, firstn_skipn. exact Hval.
    + rewrite digits_of_length by now apply Forall_drop.
      rewrite length_skipn. subst n k. lia.
    + destruct (m <? 0)%Z; reflexivity.
  - destruct (andb (-6 <? k + e)%Z (k + e <=? 0)%Z) eqn:HB.
    + (* 0, a point, zeros, digits *)
      apply andb_true_iff in HB as [_ H0]. apply Z.leb_le in H0.
      rewrite <- !app_assoc. cbn [app].
      rewrite (parse_number_body (m <? 0)%Z 48) by (unfold digit; lia).
      change (span_digits (48 :: 46 :: ?t))
        with (Decimal.D0 Decimal.Nil, 46 :: t).
      cbv iota beta. cbn [int_part_ok is_nil].
      assert (Hz : Forall digit (repeat 48 (Z.to_nat (- (k + e))) ++ ds)).
      { apply Forall_app. split; [|assumption].
        induction (Z.to_nat (- (k + e))) as [|j IH]; [constructor|].
        cbn [repeat]. constructor; [unfold digit; lia | exact IH]. }
      rewrite parse_frac_digits;
        [| rewrite Eds; intros H; apply (f_equal length) in H;
           rewrite length_app in H; simpl in H; lia
         | assumption | assumption].
      rewrite parse_exp_delimited by assumption.
      f_equal. f_equal.
      apply number_value_dec; try assumption.
      * rewrite of_uint_digits by assumption.
        rewrite text_val_zeros. change (N.of_uint _) with 0. lia.
      * rewrite digits_of_length by assumption.
        rewrite length_app, repeat_length. subst k. lia.
      * reflexivity.
    + (* the exponent form *)
      rewrite <- !app_assoc. rewrite Eds at 1. cbn [firstn app].
      rewrite (parse_number_body (m <? 0)%Z c) by assumption.
      assert (Ek : (1 <? k)%Z = negb (bool_decide (ds' = []))).
      { subst k. rewrite Eds. destruct ds'; [reflexivity|].
        simpl length. rewrite bool_decide_eq_false_2 by congruence.
        apply Z.ltb_lt. lia. }
      assert (Hds' : Forall digit ds')
        by (rewrite Eds in Hds; now inversion Hds).
      rewrite Ek, Eds. cbn [skipn].
      assert (parse_exp_ok := parse_exp_print (k + e - 1) rest Hnd).
      destruct ds' as [|c2 ds2].
      * cbn [bool_decide decide_rel negb app].
        rewrite bool_decide_eq_true_2 by reflexivity. cbn [negb app].
        cbn [firstn skipn app].
        change (c :: 101 :: ?t) with ([c] ++ 101 :: t).
        rewrite span_digits_text;
          [| now apply digit_one | apply no_digit_exp].
        rewrite digits_of_int_part by (assumption || now apply digit_one).
        rewrite parse_frac_none, parse_exp_ok.
        f_equal. f_equal.
        apply number_value_dec; try assumption; try reflexivity.
        -- rewrite of_uint_digits by (now apply digit_one).
           cbn [Decimal.nb_digits]. change (N.of_uint Decimal.Nil) with 0.
           rewrite Eds in Hval. rewrite <- Hval. lia.
        -- cbn [Decimal.nb_digits]. subst k. rewrite Eds. simpl length. lia.
      * rewrite bool_decide_eq_false_2 by congruence. cbn [negb app].
        cbn [firstn skipn app].
        change (c :: 46 :: ?t) with ([c] ++ 46 :: t).
        rewrite span_digits_text;
          [| now apply digit_one | apply no_digit_point].
        rewrite digits_of_int_part by (assumption || now apply digit_one).
        rewrite app_comm_cons.
        rewrite parse_frac_digits;
          [| congruence | assumption | apply no_digit_exp].
        rewrite parse_exp_ok.
        f_equal. f_equal.
        apply number_value_dec; try assumption; try reflexivity.
        -- rewrite !of_uint_digits
             by (assumption || now apply digit_one).
           rewrite digits_of_length by assumption.
           rewrite text_val_split. cbn [app]. rewrite <- Eds. exact Hval.
        -- rewrite digits_of_length by assumption.
           subst k. rewrite Eds. simpl length. lia.
Qed.

(** Below [10^21] an integer is printed with all its digits. *)
Lemma print_Z_safe z :
  safe_integer z = true ->
  print_Z z
  = if (z <? 0)%Z then 45 :: print_N (Z.abs_N z) else print_N (Z.abs_N z).
Proof.
  unfold safe_integer, print_Z. intros H.
  apply andb_true_iff in H as [H1 H2]. apply Z.leb_le in H1, H2.
  change (2 ^ 53 - 1)%Z with 9007199254740991%Z in *.
  change (10 ^ 21)%Z with 1000000000000000000000%Z.
  destruct (Z.ltb_spec (Z.abs z) 1000000000000000000000); [reflexivity|].
  lia.
Qed.

(** An integer reads back from its decimal notation. *)
Lemma parse_number_print z rest :
  safe_integer z = true -> delimited rest ->
  parse_number (print_Z z ++ rest) = Some (VNum z, rest).
Proof.
  intros Hs Hr. rewrite print_Z_safe by assumption. unfold parse_number.
  destruct (Z.ltb_spec z 0) as [Hz|Hz].
  - cbn [app]. change (45 =? 45) with true. cbn iota.
    unfold print_N. rewrite span_digits_units by (now apply delimited_no_digit).
    rewrite to_uint_int_part, parse_frac_delimited, parse_exp_delimited
      by assumption.
    rewrite number_value_integer, N2Z.inj_abs_N. do 3 f_equal. lia.
  - destruct (print_N_head (Z.abs_N z)) as (c & t & E & Hc).
    rewrite E. cbn [app].
    destruct (N.eqb_spec c 45); [lia|].
    rewrite app_comm_cons, <- E. unfold print_N.
    rewrite span_digits_units by (now apply delimited_no_digit).
    rewrite to_uint_int_part, parse_frac_delimited, parse_exp_delimited
      by assumption.
    rewrite number_value_integer, N2Z.inj_abs_N. do 3 f_equal. lia.
Qed.

Lemma skip_ws_head c t : is_ws c = false -> skip_ws (c :: t) = c :: t.
Proof. intros H. cbn [skip_ws]. rewrite H. reflexivity. Qed.

Lemma obj_set_fresh k v o :
  k ∉ o.*1 -> obj_set k v o = o ++ [(k, v)].
Proof.
  induction o as [|[k' v'] o IH]; intros Hk; [reflexivity|].
  cbn [obj_set]. rewrite fmap_cons, not_elem_of_cons in Hk.
  destruct Hk as [Hne Hk]. simpl in Hne.
  destruct (decide (k' = k)); [congruence|].
  cbn [app]. rewrite IH by assumption. reflexivity.
Qed.

Lemma mk_object_from acc l :
  NoDup (acc ++ l).*1 ->
  fold_left (fun o kv => obj_set kv.1 kv.2 o) l acc = acc ++ l.
Proof.
  revert acc. induction l as [|[k v] l IH]; intros acc Hnd.
  - cbn [fold_left]. rewrite app_nil_r. reflexivity.
  - cbn [fold_left fst snd].
    assert (Hk : k ∉ acc.*1).
    { rewrite fmap_app, fmap_cons in Hnd. apply NoDup_app in Hnd.
      destruct Hnd as (_ & Hd & _). intros Hin. apply (Hd k Hin).
      left. }
    rewrite obj_set_fresh by assumption.
    rewrite IH; rewrite <- app_assoc; [reflexivity | exact Hnd].
Qed.

(** Distinct keys: the object is the list of members as they were read. *)
Lemma mk_object_distinct l : NoDup l.*1 -> mk_object l = l.
Proof. intros H. unfold mk_object. apply (mk_object_from [] l H). Qed.

Lemma print_Z_head z :
  safe_integer z = true ->
  exists c t, print_Z z = c :: t /\ (c = 45 \/ 48 <= c <= 57).
Proof.
  intros Hs. rewrite print_Z_safe by assumption. destruct (z <? 0)%Z.
  - do 2 eexists. split; [reflexivity | left; reflexivity].
  - destruct (print_N_head (Z.abs_N z)) as (c & t & E & Hc).
    exists c, t. split; [exact E | right; exact Hc].
Qed.

Lemma print_dec_head m e :
  exists c t, print_dec m e = c :: t /\ (c = 45 \/ 48 <= c <= 57).
Proof.
  unfold print_dec. cbv zeta.
  destruct (print_N_head (Z.abs_N m)) as (c & t & E & Hc).
  destruct (m <? 0)%Z.
  - do 2 eexists. split; [reflexivity | left; reflexivity].
  - cbn [app]. rewrite E. set (n := (Z.of_nat (length (c :: t)) + e)%Z).
    destruct ((0 <? n)%Z && (n <=? 21)%Z) eqn:HA.
    + apply andb_true_iff in HA as [H0 _]. apply Z.ltb_lt in H0.
      destruct (Z.to_nat n) eqn:En; [lia|]. cbn [firstn app].
      do 2 eexists. split; [reflexivity | right; exact Hc].
    + destruct ((-6 <? n)%Z && (n <=? 0)%Z).
      * do 2 eexists. split; [reflexivity | right; lia].
      * cbn [firstn app].
        do 2 eexists. split; [reflexivity | right; exact Hc].
Qed.

Lemma sign_or_digit_starts c : c = 45 \/ 48 <= c <= 57 -> starts_value c.
Proof.
  unfold starts_value, is_ws. intros [-> | Hc];
    [repeat split; (reflexivity || discriminate)|].
  repeat split; try lia.
  destruct (N.eqb_spec c 9); [lia|]. destruct (N.eqb_spec c 10); [lia|].
  destruct (N.eqb_spec c 13); [lia|]. destruct (N.eqb_spec c 32); [lia|].
  reflexivity.
Qed.

Lemma ser_head v :
  json_data v = true -> exists c t, ser v = c :: t /\ starts_value c.
Proof.
  destruct v as [| |[|]|z|m e|s|l|l]; try discriminate; intros Hd;
    try (do 2 eexists; split; [reflexivity|];
         repeat split; (reflexivity || discriminate)).
  - destruct (print_Z_head z Hd) as (c & t & E & Hc).
    exists c, t. split; [exact E | now apply sign_or_digit_starts].
  - destruct (print_dec_head m e) as (c & t & E & Hc).
    exists c, t. split; [exact E | now apply sign_or_digit_starts].
Qed.

Lemma json_data_defined v : json_data v = true -> is_undef v = false.
Proof. destruct v; (discriminate || reflexivity). Qed.

Section RoundTrip.

Lemma parse_elements_ser l :
  l <> [] -> Forall reads_back l -> forallb json_data l = true ->
  forall n rest,
    (length (ser_elems ser l) < n)%nat ->
    parse_elements n (ser_elems ser l ++ 93 :: rest) = Some (l, rest).
Proof.
  induction l as [|v l IH]; [congruence|].
  intros _ Hall Hd n rest Hn.
  apply Forall_cons in Hall as [Hv Hl].
  cbn [forallb] in Hd. apply andb_true_iff in Hd as [Hdv Hdl].
  destruct n as [|n]; [lia|].
  cbn [ser_elems parse_elements] in *. rewrite <- app_assoc.
  destruct l as [|v2 l].
  - cbn [app]. rewrite length_app in Hn. simpl in Hn.
    rewrite (Hv Hdv) by (simpl; auto; lia).
    reflexivity.
  - rewrite length_app in Hn. cbn [length] in Hn.
    cbn [app]. rewrite (Hv Hdv) by (simpl; auto; lia).
    rewrite skip_ws_head by reflexivity.
    change (44 =? 44) with true. cbn iota.
    rewrite IH; [reflexivity | congruence | assumption | assumption | lia].
Qed.

Lemma ser_members_cons first k v l :
  is_undef v = false ->
  ser_members ser first ((k, v) :: l) =
  (if first then [] else [44]) ++ quote k ++ 58 :: ser v
  ++ ser_members ser false l.
Proof. intros H. cbn [ser_members]. rewrite H. reflexivity. Qed.

Lemma parse_members_ser l :
  l <> [] -> Forall (fun kv => reads_back kv.2) l ->
  forallb (fun kv => json_data kv.2) l = true ->
  forall n rest,
    (length (ser_members ser true l) < n)%nat ->
    parse_members n (ser_members ser true l ++ 125 :: rest)
    = Some (l, rest).
Proof.
  induction l as [|[k v] l IH]; [congruence|].
  intros _ Hall Hd n rest Hn.
  apply Forall_cons in Hall as [Hv Hl]. cbn [snd] in Hv.
  cbn [forallb snd] in Hd. apply andb_true_iff in Hd as [Hdv Hdl].
  destruct n as [|n]; [lia|].
  rewrite ser_members_cons in * by (now apply json_data_defined).
  cbn [app] in *. unfold quote in *. cbn [app] in *.
  cbn [parse_members].
  rewrite skip_ws_head by reflexivity.
  change (34 =? 34) with true. cbn iota.
  rewrite <- !app_assoc. cbn [app].
  rewrite parse_string_quote.
  rewrite skip_ws_head by reflexivity.
  change (58 =? 58) with true. cbn iota.
  cbn [length] in Hn. rewrite !length_app in Hn. cbn [length] in Hn.
  rewrite length_app in Hn.
  destruct l as [|[k2 v2] l].
  - cbn [ser_members app] in *. rewrite <- ?app_assoc. cbn [app].
    rewrite (Hv Hdv) by (simpl; auto; lia).
    reflexivity.
  - assert (Hd2 : is_undef v2 = false).
    { cbn [forallb snd] in Hdl. apply andb_true_iff in Hdl as [H2 _].
      now apply json_data_defined. }
    assert (E : ser_members ser false ((k2, v2) :: l)
                = 44 :: ser_members ser true ((k2, v2) :: l)).
    { rewrite !ser_members_cons by assumption. reflexivity. }
    rewrite E in *. rewrite <- ?app_assoc. cbn [app length] in *.
    rewrite (Hv Hdv) by (simpl; auto; lia).
    rewrite skip_ws_head by reflexivity.
    change (44 =? 44) with true. cbn iota.
    rewrite IH; [reflexivity | congruence | assumption | assumption | lia].
Qed.

Lemma parse_value_ser v : reads_back v.
Proof.
  induction v as [| |b|z|m e|s|l IH|l IH] using jsval_ind;
    unfold reads_back; intros Hd n rest Hn Hr; try discriminate Hd.
  - destruct n; [simpl in Hn; lia | reflexivity].
  - destruct n; [destruct b; simpl in Hn; lia | destruct b; reflexivity].
  - destruct (print_Z_head z Hd) as (c & t & E & Hc).
    cbn [ser] in *. rewrite E in *.
    destruct n; [simpl in Hn; lia|].
    cbn [parse_value app].
    rewrite skip_ws_head by (now apply sign_or_digit_starts).
    destruct (N.eqb_spec c 123); [lia|]. destruct (N.eqb_spec c 91); [lia|].
    destruct (N.eqb_spec c 34); [lia|]. destruct (N.eqb_spec c 116); [lia|].
    destruct (N.eqb_spec c 102); [lia|]. destruct (N.eqb_spec c 110); [lia|].
    rewrite app_comm_cons, <- E. now apply parse_number_print.
  - destruct (print_dec_head m e) as (c & t & E & Hc).
    cbn [json_data] in Hd. apply andb_true_iff in Hd as [He Hm].
    apply Z.ltb_lt in He. apply negb_true_iff, Z.eqb_neq in Hm.
    cbn [ser] in *. rewrite E in *.
    destruct n; [simpl in Hn; lia|].
    cbn [parse_value app].
    rewrite skip_ws_head by (now apply sign_or_digit_starts).
    destruct (N.eqb_spec c 123); [lia|]. destruct (N.eqb_spec c 91); [lia|].
    destruct (N.eqb_spec c 34); [lia|]. destruct (N.eqb_spec c 116); [lia|].
    destruct (N.eqb_spec c 102); [lia|]. destruct (N.eqb_spec c 110); [lia|].
    rewrite app_comm_cons, <- E. now apply parse_number_print_dec.
  - destruct n; [simpl in Hn; lia|].
    cbn [ser parse_value]. unfold quote. cbn [app].
    rewrite skip_ws_head by reflexivity.
    change (34 =? 123) with false. change (34 =? 91) with false.
    change (34 =? 34) with true. cbn iota.
    rewrite <- app_assoc. cbn [app]. rewrite parse_string_quote.
    reflexivity.
  - destruct n; [simpl in Hn; lia|].
    cbn [ser json_data] in *. cbn [app parse_value length] in *.
    rewrite skip_ws_head by reflexivity.
    change (91 =? 123) with false. change (91 =? 91) with true. cbn iota.
    rewrite <- app_assoc. cbn [app]. rewrite length_app in Hn.
    cbn [length] in Hn.
    destruct l as [|v l]; [reflexivity|].
    destruct (ser_head v) as (c & t & E & Hw & H93 & _).
    { cbn [forallb] in Hd. now apply andb_true_iff in Hd as [? _]. }
    assert (E' : exists t', ser_elems ser (v :: l) ++ 93 :: rest = c :: t').
    { cbn [ser_elems]. rewrite E. eexists. reflexivity. }
    destruct E' as [t' E']. rewrite E'.
    rewrite skip_ws_head by assumption.
    destruct (N.eqb_spec c 93); [congruence|].
    rewrite <- E'.
    rewrite parse_elements_ser; [reflexivity | congruence | | | lia];
      assumption.
  - destruct n; [simpl in Hn; lia|].
    cbn [ser json_data] in *. apply andb_true_iff in Hd as [Hnd Hd].
    apply bool_decide_eq_true in Hnd.
    cbn [app parse_value length] in *.
    rewrite skip_ws_head by reflexivity.
    change (123 =? 123) with true. cbn iota.
    rewrite <- app_assoc. cbn [app]. rewrite length_app in Hn.
    cbn [length] in Hn.
    destruct l as [|[k v] l]; [reflexivity|].
    assert (Hu : is_undef v = false).
    { cbn [forallb snd] in Hd. apply andb_true_iff in Hd as [? _].
      now apply json_data_defined. }
    assert (E' : exists t', ser_members ser true ((k, v) :: l) ++ 125 :: rest
                            = 34 :: t').
    { rewrite ser_members_cons by assumption. unfold quote. cbn [app].
      eexists. reflexivity. }
    destruct E' as [t' E']. rewrite E'.
    rewrite skip_ws_head by reflexivity.
    change (34 =? 125) with false. cbn iota.
    rewrite <- E'.
    rewrite parse_members_ser; [| congruence | | | lia]; try assumption.
    rewrite mk_object_distinct by assumption. reflexivity.
Qed.

End RoundTrip.

(** JSON.parse undoes JSON.stringify on plain data. *)
Lemma JSON_parse_stringify v :
  json_data v = true ->
  exists t, JSON_stringify v = Some t /\ JSON_parse t = Some v.
Proof.
  intros Hd. exists (ser v). split.
  - unfold JSON_stringify. now rewrite json_data_defined.
  - unfold JSON_parse.
    pose proof (parse_value_ser v Hd (S (length (ser v))) []) as H.
    rewrite app_nil_r in H. rewrite H by (simpl; auto; lia). reflexivity.
Qed.

(** ** The bound on nested calls does not decide what is accepted *)

Lemma skip_ws_length s : (length (skip_ws s) <= length s)%nat.
Proof.
  induction s as [|c r IH]; [reflexivity|]. cbn [skip_ws].
  destruct (is_ws c); simpl; lia.
Qed.

Lemma parse_string_length s t rest :
  parse_string s = Some (t, rest) -> (length rest < length s)%nat.
Proof.
  remember (length s) as n eqn:Hn. revert s t rest Hn.
  induction n as [n IH] using lt_wf_ind. intros s t rest Hn.
  destruct s as [|c r]; [discriminate|]. cbn [parse_string].
  destruct (c =? 34); [intros [= _ <-]; simpl in *; lia|].
  destruct (c =? 92).
  - destruct r as [|e r1]; [discriminate|].
    destruct (e =? 117).
    + destruct r1 as [|h1 [|h2 [|h3 [|h4 r2]]]]; try discriminate.
      destruct (hex4 h1 h2 h3 h4); [|discriminate].
      destruct (parse_string r2) as [[t' rest']|] eqn:E; [|discriminate].
      intros [= _ <-].
      apply (IH (length r2)) in E; [|subst n; simpl; lia | reflexivity].
      subst n. simpl. lia.
    + destruct (simple_escape e); [|discriminate].
      destruct (parse_string r1) as [[t' rest']|] eqn:E; [|discriminate].
      intros [= _ <-].
      apply (IH (length r1)) in E; [|subst n; simpl; lia | reflexivity].
      subst n. simpl. lia.
  - destruct (c <? 32); [discriminate|].
    destruct (parse_string r) as [[t' rest']|] eqn:E; [|discriminate].
    intros [= _ <-].
    apply (IH (length r)) in E; [|subst n; simpl; lia | reflexivity].
    subst n. simpl. lia.
Qed.

Lemma match_prefix_length p s rest :
  match_prefix p s = Some rest -> length s = (length p + length rest)%nat.
Proof.
  revert s. induction p as [|a p IH]; intros s; cbn [match_prefix].
  - intros [= <-]. reflexivity.
  - destruct s as [|b s]; [discriminate|].
    destruct (a =? b); [|discriminate].
    intros H. apply IH in H. simpl. lia.
Qed.

Lemma span_digits_length s d rest :
  span_digits s = (d, rest) ->
  length s = (Decimal.nb_digits d + length rest)%nat.
Proof.
  revert d rest. induction s as [|c r IH]; intros d rest; cbn [span_digits].
  - intros [= <- <-]. reflexivity.
  - destruct (digit_cons c) as [k|] eqn:Hk; [|intros [= <- <-]; reflexivity].
    destruct (span_digits r) as [d' rest'] eqn:E. intros [= <- <-].
    specialize (IH d' rest' eq_refl). unfold digit_cons in Hk.
    repeat match type of Hk with
           | (if ?b then _ else _) = _ => destruct b
           end; try discriminate; injection Hk as <-; simpl; lia.
Qed.

Lemma parse_frac_length s f rest :
  parse_frac s = Some (f, rest) -> (length rest <= length s)%nat.
Proof.
  unfold parse_frac. destruct s as [|c r]; [intros [= _ <-]; lia|].
  destruct (c =? 46); [|intros [= _ <-]; lia].
  destruct (span_digits r) as [f' rest'] eqn:E.
  destruct (is_nil f'); [discriminate|]. intros [= _ <-].
  apply span_digits_length in E. simpl. lia.
Qed.

Lemma parse_exp_length s x rest :
  parse_exp s = Some (x, rest) -> (length rest <= length s)%nat.
Proof.
  unfold parse_exp. destruct s as [|c r]; [intros [= _ <-]; lia|].
  destruct ((c =? 101) || (c =? 69)); [|intros [= _ <-]; lia].
  destruct (match r with
            | [] => (false, r)
            | g :: r' =>
                if g =? 45 then (true, r')
                else if g =? 43 then (false, r') else (false, r)
            end) as [eneg r1] eqn:Hs.
  assert (Hr : (length r1 <= length r)%nat).
  { destruct r as [|g r']; [injection Hs as _ <-; lia|].
    destruct (g =? 45); [injection Hs as _ <-; simpl; lia|].
    destruct (g =? 43); injection Hs as _ <-; simpl; lia. }
  destruct (span_digits r1) as [x' rest'] eqn:E.
  destruct (is_nil x'); [discriminate|]. intros [= _ <-].
  apply span_digits_length in E. simpl. lia.
Qed.

Lemma parse_number_length s v rest :
  parse_number s = Some (v, rest) -> (length rest < length s)%nat.
Proof.
  unfold parse_number.
  destruct (match s with
            | [] => (false, s)
            | c :: r => if c =? 45 then (true, r) else (false, s)
            end) as [neg s1] eqn:Hs.
  assert (H1 : (length s1 <= length s)%nat).
  { destruct s as [|c r]; [injection Hs as _ <-; lia|].
    destruct (c =? 45); injection Hs as _ <-; simpl; lia. }
  destruct (span_digits s1) as [i s2] eqn:E.
  apply span_digits_length in E.
  destruct (int_part_ok i) eqn:Hi; [|discriminate].
  assert (Hp : (1 <= Decimal.nb_digits i)%nat).
  { destruct i; try discriminate Hi; simpl; lia. }
  destruct (parse_frac s2) as [[f s3]|] eqn:Hf; [|discriminate].
  destruct (parse_exp s3) as [[x s4]|] eqn:Hx; [|discriminate].
  intros [= _ <-].
  apply parse_frac_length in Hf. apply parse_exp_length in Hx. lia.
Qed.

Lemma parse_value_S n s :
  parse_value (S n) s =
  match skip_ws s with
  | [] => None
  | c :: r =>
      if c =? 123 then
        match skip_ws r with
        | [] => None
        | c' :: r' =>
            if c' =? 125 then Some (VObj [], r')
            else
              match parse_members n (c' :: r') with
              | Some (ms, rest) => Some (VObj (mk_object ms), rest)
              | None => None
              end
        end
      else if c =? 91 then
        match skip_ws r with
        | [] => None
        | c' :: r' =>
            if c' =? 93 then Some (VArr [], r')
            else
              match parse_elements n (c' :: r') with
              | Some (vs, rest) => Some (VArr vs, rest)
              | None => None
              end
        end
      else if c =? 34 then
        match parse_string r with
        | Some (t, rest) => Some (VStr t, rest)
        | None => None
        end
      else if c =? 116 then
        match match_prefix t_true (c :: r) with
        | Some rest => Some (VBool true, rest)
        | None => None
        end
      else if c =? 102 then
        match match_prefix t_false (c :: r) with
        | Some rest => Some (VBool false, rest)
        | None => None
        end
      else if c =? 110 then
        match match_prefix t_null (c :: r) with
        | Some rest => Some (VNull, rest)
        | None => None
        end
      else parse_number (c :: r)
  end.
Proof. reflexivity. Qed.

Lemma parse_elements_S n s :
  parse_elements (S n) s =
  match parse_value n s with
  | None => None
  | Some (v, r) =>
      match skip_ws r with
      | [] => None
      | c :: r' =>
          if c =? 44 then
            match parse_elements n r' with
            | Some (vs, rest) => Some (v :: vs, rest)
            | None => None
            end
          else if c =? 93 then Some ([v], r')
          else None
      end
  end.
Proof. reflexivity. Qed.

Lemma parse_members_S n s :
  parse_members (S n) s =
  match skip_ws s with
  | [] => None
  | q :: r =>
      if q =? 34 then
        match parse_string r with
        | None => None
        | Some (k, r1) =>
            match skip_ws r1 with
            | [] => None
            | c :: r2 =>
                if c =? 58 then
                  match parse_value n r2 with
                  | None => None
                  | Some (v, r3) =>
                      match skip_ws r3 with
                      | [] => None
                      | d :: r4 =>
                          if d =? 44 then
                            match parse_members n r4 with
                            | Some (ms, rest) => Some ((k, v) :: ms, rest)
                            | None => None
                            end
                          else if d =? 125 then Some ([(k, v)], r4)
                          else None
                      end
                  end
                else None
            end
        end
      else None
  end.
Proof. reflexivity. Qed.

Ltac retest :=
  repeat match goal with
         | H : (_ =? _) = _ |- _ => rewrite H
         end.

Lemma parse_settled n :
  settled parse_value n /\ settled parse_elements n
  /\ settled parse_members n.
Proof.
  induction n as [|n (IHv & IHe & IHm)].
  { split; [|split]; intros s a rest H; discriminate H. }
  split; [|split].
  - (* parse_value *)
    intros s v rest. rewrite parse_value_S.
    pose proof (skip_ws_length s) as Hw.
    destruct (skip_ws s) as [|c r] eqn:Hs; [discriminate|].
    simpl in Hw.
    destruct (c =? 123) eqn:T1.
    { pose proof (skip_ws_length r) as Hw'.
      destruct (skip_ws r) as [|c' r'] eqn:Hs'; [discriminate|].
      simpl in Hw'.
      destruct (c' =? 125) eqn:T2.
      - intros [= <- <-]. split; [lia|]. intros [|m] Hm; [lia|].
        rewrite parse_value_S, Hs. retest. rewrite Hs'. retest. reflexivity.
      - destruct (parse_members n (c' :: r')) as [[ms rest']|] eqn:E;
          [|discriminate].
        intros [= <- <-]. apply IHm in E as [El Em]. simpl in El.
        split; [lia|]. intros [|m] Hm; [lia|].
        rewrite parse_value_S, Hs. retest. rewrite Hs'. retest.
        rewrite Em by (simpl; lia). reflexivity. }
    destruct (c =? 91) eqn:T2.
    { pose proof (skip_ws_length r) as Hw'.
      destruct (skip_ws r) as [|c' r'] eqn:Hs'; [discriminate|].
      simpl in Hw'.
      destruct (c' =? 93) eqn:T3.
      - intros [= <- <-]. split; [lia|]. intros [|m] Hm; [lia|].
        rewrite parse_value_S, Hs. retest. rewrite Hs'. retest. reflexivity.
      - destruct (parse_elements n (c' :: r')) as [[vs rest']|] eqn:E;
          [|discriminate].
        intros [= <- <-]. apply IHe in E as [El Em]. simpl in El.
        split; [lia|]. intros [|m] Hm; [lia|].
        rewrite parse_value_S, Hs. retest. rewrite Hs'. retest.
        rewrite Em by (simpl; lia). reflexivity. }
    destruct (c =? 34) eqn:T3.
    { destruct (parse_string r) as [[t rest']|] eqn:E; [|discriminate].
      intros [= <- <-]. apply parse_string_length in E as El.
      split; [lia|]. intros [|m] Hm; [lia|].
      rewrite parse_value_S, Hs. retest. rewrite E. reflexivity. }
    destruct (c =? 116) eqn:T4.
    { destruct (match_prefix t_true (c :: r)) as [rest'|] eqn:E;
        [|discriminate].
      intros [= <- <-]. apply match_prefix_length in E as El. simpl in El.
      split; [lia|]. intros [|m] Hm; [lia|].
      rewrite parse_value_S, Hs. retest. rewrite E. reflexivity. }
    destruct (c =? 102) eqn:T5.
    { destruct (match_prefix t_false (c :: r)) as [rest'|] eqn:E;
        [|discriminate].
      intros [= <- <-]. apply match_prefix_length in E as El. simpl in El.
      split; [lia|]. intros [|m] Hm; [lia|].
      rewrite parse_value_S, Hs. retest. rewrite E. reflexivity. }
    destruct (c =? 110) eqn:T6.
    { destruct (match_prefix t_null (c :: r)) as [rest'|] eqn:E;
        [|discriminate].
      intros [= <- <-]. apply match_prefix_length in E as El. simpl in El.
      split; [lia|]. intros [|m] Hm; [lia|].
      rewrite parse_value_S, Hs. retest. rewrite E. reflexivity. }
    intros E. apply parse_number_length in E as El. simpl in El.
    split; [lia|]. intros [|m] Hm; [lia|].
    rewrite parse_value_S, Hs. retest. exact E.
  - (* parse_elements *)
    intros s vs rest. rewrite parse_elements_S.
    destruct (parse_value n s) as [[v r]|] eqn:Ev; [|discriminate].
    apply IHv in Ev as [Evl Evm].
    pose proof (skip_ws_length r) as Hw.
    destruct (skip_ws r) as [|c r'] eqn:Hs; [discriminate|].
    simpl in Hw.
    destruct (c =? 44) eqn:T1.
    + destruct (parse_elements n r') as [[vs' rest']|] eqn:E; [|discriminate].
      intros [= <- <-]. apply IHe in E as [El Em].
      split; [lia|]. intros [|m] Hm; [lia|].
      rewrite parse_elements_S, Evm by lia. rewrite Hs. retest.
      rewrite Em by lia. reflexivity.
    + destruct (c =? 93) eqn:T2; [|discriminate].
      intros [= <- <-]. split; [lia|]. intros [|m] Hm; [lia|].
      rewrite parse_elements_S, Evm by lia. rewrite Hs. retest.
      reflexivity.
  - (* parse_members *)
    intros s ms rest. rewrite parse_members_S.
    pose proof (skip_ws_length s) as Hw.
    destruct (skip_ws s) as [|q r] eqn:Hs; [discriminate|].
    simpl in Hw.
    destruct (q =? 34) eqn:T1; [|discriminate].
    destruct (parse_string r) as [[k r1]|] eqn:Ek; [|discriminate].
    apply parse_string_length in Ek as Ekl.
    pose proof (skip_ws_length r1) as Hw1.
    destruct (skip_ws r1) as [|c r2] eqn:Hs1; [discriminate|].
    simpl in Hw1.
    destruct (c =? 58) eqn:T2; [|discriminate].
    destruct (parse_value n r2) as [[v r3]|] eqn:Ev; [|discriminate].
    apply IHv in Ev as [Evl Evm].
    pose proof (skip_ws_length r3) as Hw3.
    destruct (skip_ws r3) as [|d r4] eqn:Hs3; [discriminate|].
    simpl in Hw3.
    destruct (d =? 44) eqn:T3.
    + destruct (parse_members n r4) as [[ms' rest']|] eqn:E; [|discriminate].
      intros [= <- <-]. apply IHm in E as [El Em].
      split; [lia|]. intros [|m] Hm; [lia|].
      rewrite parse_members_S, Hs. retest. rewrite Ek, Hs1. retest.
      rewrite Evm by lia. rewrite Hs3. retest.
      rewrite Em by lia. reflexivity.
    + destruct (d =? 125) eqn:T4; [|discriminate].
      intros [= <- <-]. split; [lia|]. intros [|m] Hm; [lia|].
      rewrite parse_members_S, Hs. retest. rewrite Ek, Hs1. retest.
      rewrite Evm by lia. rewrite Hs3. retest. reflexivity.
Qed.

(** What [JSON_parse] rejects, no bound accepts: the bound it uses is
    enough for every text. *)
Lemma JSON_parse_complete n s v rest :
  parse_value n s = Some (v, rest) -> skip_ws rest = [] ->
  JSON_parse s = Some v.
Proof.
  intros H Hr. unfold JSON_parse.
  destruct (proj1 (parse_settled n) s v rest H) as [_ Hm].
  rewrite Hm by lia. rewrite Hr. reflexivity.
Qed.

(** ** What [ser] writes: surrogates in pairs, no byte order mark *)

Lemma paired_app a : forall b,
  paired a = true -> paired b = true -> paired (a ++ b) = true.
Proof.
  remember (length a) as n eqn:En. revert a En.
  induction n as [n IH] using lt_wf_ind. intros a En b Ha Hb.
  destruct a as [|c r]; [exact Hb|]. cbn [app paired] in *.
  destruct (is_high c).
  - destruct r as [|d r']; [discriminate|]. cbn [app].
    apply andb_true_iff in Ha as [Hd Hr]. rewrite Hd. cbn [andb].
    apply (IH (length r')); [subst n; simpl; lia | reflexivity | |];
      assumption.
  - apply andb_true_iff in Ha as [Hl Hr]. rewrite Hl. cbn [andb].
    apply (IH (length r)); [subst n; simpl; lia | reflexivity | |];
      assumption.
Qed.

Lemma ascii_paired t : ascii_text t -> paired t = true.
Proof.
  induction 1 as [|c t Hc Ht IH]; [reflexivity|]. cbn [paired].
  unfold is_high, is_low.
  destruct (N.leb_spec 55296 c); [lia|].
  destruct (N.leb_spec 56320 c); [lia|]. exact IH.
Qed.

Lemma ascii_first t : ascii_text t -> hd 0 t <> 65279.
Proof. destruct 1; simpl; lia. Qed.

Lemma hex_digit_ascii n : n < 16 -> hex_digit n < 128.
Proof. intros H. unfold hex_digit. destruct (n <? 10); lia. Qed.

Lemma uesc_ascii c : ascii_text (uesc c).
Proof.
  unfold uesc, ascii_text.
  repeat (constructor; [first [lia | apply hex_digit_ascii, N.mod_lt; lia]|]).
  constructor.
Qed.

Lemma esc_unit_paired c :
  is_high c = false -> is_low c = false -> paired (esc_unit c) = true.
Proof.
  intros Hh Hl. unfold esc_unit.
  repeat (destruct (c =? _); [reflexivity|]).
  destruct (c <? 32); [apply ascii_paired, uesc_ascii|].
  cbn [paired]. rewrite Hh, Hl. reflexivity.
Qed.

Lemma quote_units_paired s : paired (quote_units s) = true.
Proof.
  remember (length s) as n eqn:En. revert s En.
  induction n as [n IH] using lt_wf_ind. intros s En.
  destruct s as [|c r]; [reflexivity|]. cbn [quote_units].
  destruct (is_high c) eqn:Hh.
  - destruct r as [|d r']; [apply ascii_paired, uesc_ascii|].
    destruct (is_low d) eqn:Hl.
    + cbn [paired]. rewrite Hh, Hl. cbn [andb].
      apply (IH (length r')); [subst n; simpl; lia | reflexivity].
    + apply paired_app; [apply ascii_paired, uesc_ascii|].
      apply (IH (length (d :: r'))); [subst n; simpl; lia | reflexivity].
  - destruct (is_low c) eqn:Hl.
    + apply paired_app; [apply ascii_paired, uesc_ascii|].
      apply (IH (length r)); [subst n; simpl; lia | reflexivity].
    + apply paired_app; [now apply esc_unit_paired|].
      apply (IH (length r)); [subst n; simpl; lia | reflexivity].
Qed.

Lemma digits_ascii t : Forall digit t -> ascii_text t.
Proof.
  intros H. eapply Forall_impl; [exact H|]. unfold digit. intros c Hc.
  simpl. lia.
Qed.

Lemma print_N_ascii n : ascii_text (print_N n).
Proof. apply digits_ascii, print_N_digits. Qed.

Lemma print_dec_ascii m e : ascii_text (print_dec m e).
Proof.
  pose proof (print_N_ascii (Z.abs_N m)) as Hd.
  unfold print_dec, ascii_text in *. cbv zeta.
  apply Forall_app. split.
  { destruct (m <? 0)%Z; repeat constructor. }
  destruct (andb _ _).
  { apply Forall_app. split; [now apply Forall_take|].
    constructor; [lia | now apply Forall_drop]. }
  destruct (andb _ _).
  { do 2 (constructor; [lia|]). apply Forall_app. split; [|assumption].
    induction (Z.to_nat _) as [|j IH]; [constructor|].
    cbn [repeat]. constructor; [lia | exact IH]. }
  apply Forall_app. split; [now apply Forall_take|].
  apply Forall_app. split.
  { destruct (1 <? _)%Z; [|constructor].
    constructor; [lia | now apply Forall_drop]. }
  constructor; [lia|].
  constructor; [destruct (_ <? 0)%Z; lia|].
  apply print_N_ascii.
Qed.

Lemma print_Z_ascii z : ascii_text (print_Z z).
Proof.
  unfold print_Z. destruct (Z.abs z <? 10 ^ 21)%Z.
  - destruct (z <? 0)%Z; [constructor; [lia|]|]; apply print_N_ascii.
  - destruct (strip_zeros _ z 0). apply print_dec_ascii.
Qed.

Lemma ser_elems_paired l :
  Forall (fun v => paired (ser v) = true) l ->
  paired (ser_elems ser l) = true.
Proof.
  induction 1 as [|v l Hv Hl IH]; [reflexivity|]. cbn [ser_elems].
  apply paired_app; [exact Hv|].
  destruct l; [reflexivity|]. exact IH.
Qed.

Lemma ser_members_paired l : forall first,
  Forall (fun kv => paired (ser kv.2) = true) l ->
  paired (ser_members ser first l) = true.
Proof.
  induction l as [|[k v] l IH]; intros first Hl; [reflexivity|].
  apply Forall_cons in Hl as [Hv Hl]. cbn [ser_members].
  destruct (is_undef v); [now apply IH|].
  apply paired_app; [destruct first; reflexivity|].
  unfold quote. cbn [app paired]. change (is_high 34) with false.
  change (is_low 34) with false. cbn [negb andb].
  rewrite <- app_assoc. apply paired_app; [apply quote_units_paired|].
  cbn [app paired]. change (is_high 34) with false.
  change (is_low 34) with false. change (is_high 58) with false.
  change (is_low 58) with false. cbn [negb andb].
  apply paired_app; [exact Hv | now apply IH].
Qed.

(** [JSON.stringify] writes no surrogate that stands alone. *)
Lemma ser_paired v : paired (ser v) = true.
Proof.
  induction v as [| |b|z|m e|s|l IH|l IH] using jsval_ind;
    try reflexivity.
  - destruct b; reflexivity.
  - apply ascii_paired, print_Z_ascii.
  - apply ascii_paired, print_dec_ascii.
  - cbn [ser]. unfold quote. cbn [paired].
    change (is_high 34) with false. change (is_low 34) with false.
    cbn [negb andb]. apply paired_app; [apply quote_units_paired|].
    reflexivity.
  - cbn [ser paired]. change (is_high 91) with false.
    change (is_low 91) with false. cbn [negb andb].
    apply paired_app; [now apply ser_elems_paired | reflexivity].
  - cbn [ser paired]. change (is_high 123) with false.
    change (is_low 123) with false. cbn [negb andb].
    apply paired_app; [now apply ser_members_paired | reflexivity].
Qed.

(** Nor does it begin with a byte order mark. *)
Lemma ser_first v : hd 0 (ser v) <> 65279.
Proof.
  destruct v as [| |[|]|z|m e|s|l|l]; try (simpl; lia).
  - apply ascii_first, print_Z_ascii.
  - apply ascii_first, print_dec_ascii.
Qed.

(** ** [undefined] and the codec *)

Lemma ser_on_the_wire v : ser (on_the_wire v) = ser v.
Proof.
  induction v as [| |b|z|m e|s|l IH|l IH] using jsval_ind;
    try reflexivity.
  - cbn [on_the_wire ser]. f_equal. f_equal.
    induction IH as [|v l Hv Hl IHl]; [reflexivity|].
    cbn [List.map ser_elems]. rewrite Hv.
    destruct l as [|v2 l]; [reflexivity|].
    cbn [List.map] in *. rewrite IHl. reflexivity.
  - cbn [on_the_wire ser]. f_equal. f_equal. generalize true.
    induction IH as [|[k v] l Hv Hl IHl]; intros first; [reflexivity|].
    cbn [members_on_the_wire ser_members]. cbn [snd] in Hv.
    destruct (is_undef v) eqn:Hu; [apply IHl|].
    cbn [ser_members].
    assert (Hu' : is_undef (on_the_wire v) = false)
      by (destruct v; (discriminate || reflexivity)).
    rewrite Hu', Hv, IHl. reflexivity.
Qed.

Lemma members_on_the_wire_keys l :
  sublist (members_on_the_wire on_the_wire l).*1 l.*1.
Proof.
  induction l as [|[k v] l IH]; [constructor|].
  cbn [members_on_the_wire]. destruct (is_undef v); cbn.
  - now apply sublist_cons.
  - now apply sublist_skip.
Qed.

Lemma on_the_wire_data v :
  sendable v = true -> json_data (on_the_wire v) = true.
Proof.
  induction v as [| |b|z|m e|s|l IH|l IH] using jsval_ind;
    cbn [sendable on_the_wire json_data]; try (intros; assumption);
    try reflexivity.
  - intros Hs. induction IH as [|v l Hv Hl IHl]; [reflexivity|].
    cbn [forallb List.map] in *. apply andb_true_iff in Hs as [H1 H2].
    rewrite Hv, IHl by assumption. reflexivity.
  - intros Hs. apply andb_true_iff in Hs as [Hnd Hs].
    apply bool_decide_eq_true in Hnd. apply andb_true_iff. split.
    + apply bool_decide_eq_true.
      eapply sublist_NoDup; [exact Hnd | apply members_on_the_wire_keys].
    + clear Hnd. induction IH as [|[k v] l Hv Hl IHl]; [reflexivity|].
      cbn [forallb members_on_the_wire snd] in *.
      apply andb_true_iff in Hs as [H1 H2].
      destruct (is_undef v); [now apply IHl|].
      cbn [forallb snd]. rewrite Hv, IHl by assumption. reflexivity.
Qed.

Lemma json_data_sendable v : json_data v = true -> sendable v = true.
Proof.
  induction v as [| |b|z|m e|s|l IH|l IH] using jsval_ind;
    cbn [sendable json_data]; try (intros; assumption); try reflexivity.
  - intros Hs. induction IH as [|v l Hv Hl IHl]; [reflexivity|].
    cbn [forallb] in *. apply andb_true_iff in Hs as [H1 H2].
    rewrite Hv, IHl by assumption. reflexivity.
  - intros Hs. apply andb_true_iff in Hs as [Hnd Hs]. rewrite Hnd.
    cbn [andb]. clear Hnd.
    induction IH as [|[k v] l Hv Hl IHl]; [reflexivity|].
    cbn [forallb snd] in *. apply andb_true_iff in Hs as [H1 H2].
    rewrite Hv, IHl by assumption. reflexivity.
Qed.

(** Plain JSON data is what it was. *)
Lemma on_the_wire_id v : json_data v = true -> on_the_wire v = v.
Proof.
  induction v as [| |b|z|m e|s|l IH|l IH] using jsval_ind;
    cbn [on_the_wire json_data]; try reflexivity; try discriminate.
  - intros Hs. f_equal. induction IH as [|v l Hv Hl IHl]; [reflexivity|].
    cbn [forallb List.map] in *. apply andb_true_iff in Hs as [H1 H2].
    rewrite Hv, IHl by assumption. reflexivity.
  - intros Hs. apply andb_true_iff in Hs as [_ Hs]. f_equal.
    induction IH as [|[k v] l Hv Hl IHl]; [reflexivity|].
    cbn [forallb members_on_the_wire snd] in *.
    apply andb_true_iff in Hs as [H1 H2].
    rewrite (json_data_defined v H1), Hv, IHl by assumption. reflexivity.
Qed.

Lemma members_on_the_wire_length l :
  (length (members_on_the_wire on_the_wire l) <= length l)%nat.
Proof.
  induction l as [|[k v] l IH]; [reflexivity|].
  cbn [members_on_the_wire]. destruct (is_undef v); simpl; lia.
Qed.

(** And nothing else is. *)
Lemma on_the_wire_changes v :
  sendable v = true -> on_the_wire v = v -> json_data v = true.
Proof.
  induction v as [| |b|z|m e|s|l IH|l IH] using jsval_ind;
    cbn [sendable on_the_wire json_data]; try (intros; assumption);
    try reflexivity; try discriminate.
  - intros Hs E. injection E as E.
    induction IH as [|v l Hv Hl IHl]; [reflexivity|].
    cbn [forallb List.map] in *. apply andb_true_iff in Hs as [H1 H2].
    injection E as E1 E2.
    rewrite Hv, IHl by assumption. reflexivity.
  - intros Hs E. injection E as E.
    apply andb_true_iff in Hs as [Hnd Hs]. rewrite Hnd. cbn [andb].
    clear Hnd. induction IH as [|[k v] l Hv Hl IHl]; [reflexivity|].
    cbn [forallb members_on_the_wire snd] in *.
    apply andb_true_iff in Hs as [H1 H2].
    destruct (is_undef v).
    + exfalso. apply (f_equal length) in E.
      pose proof (members_on_the_wire_length l). simpl in E. lia.
    + injection E as E1 E2.
      rewrite Hv, IHl by assumption. reflexivity.
Qed.

(** What is read from what was written. *)
Lemma JSON_parse_ser v :
  sendable v = true -> JSON_parse (ser v) = Some (on_the_wire v).
Proof.
  intros Hs. rewrite <- ser_on_the_wire.
  pose proof (on_the_wire_data v Hs) as Hd.
  destruct (JSON_parse_stringify _ Hd) as (t & E1 & E2).
  unfold JSON_stringify in E1. rewrite json_data_defined in E1 by assumption.
  injection E1 as <-. exact E2.
Qed.

End JSONFacts.

(* ================================================================== *)
(** * Facts about the SDK *)
(* ================================================================== *)

Module SDKFacts.
Import JSON SDK Notions JSONFacts.

(** ** One step of each function of the interpreter *)

Lemma emit_S n event data w :
  emit (S n) event data w =
  match handlers_of event (log_emit event data w) with
  | None => Some (log_emit event data w, Normal)
  | Some (ev, hs) =>
      for_each n ev data 0 (length hs) (log_emit event data w)
  end.
Proof. reflexivity. Qed.

Lemma for_each_S n ev data k len w :
  for_each (S n) ev data k len w =
  if decide (len <= k)%nat then Some (w, Normal)
  else
    match default [] (listeners w !! ev) !! k with
    | None => for_each n ev data (S k) len w
    | Some h =>
        match call_handler n h data w with
        | None => None
        | Some (w, Normal) => for_each n ev data (S k) len w
        | Some (w, Abrupt e) =>
            for_each n ev data (S k) len
                     (console_push (LogHandlerError ev e) w)
        end
    end.
Proof. reflexivity. Qed.

Lemma call_handler_S n h data w :
  call_handler (S n) h data w =
  match code h with
  | User body => run_stmts n body data w
  | OnceWrapper ev inner =>
      call_handler n (Handler (hid h) inner) data (off ev (hid h) w)
  | Handshake p => Some (handshake p data w)
  | Settle p field => Some (settle_with p field data w)
  end.
Proof. reflexivity. Qed.

Lemma run_stmts_S n body data w :
  run_stmts (S n) body data w =
  match body with
  | [] => Some (w, Normal)
  | SRecord tag :: rest => run_stmts n rest data (record tag data w)
  | SThrow tag :: _ => Some (w, Abrupt (UserError tag))
  | SCall c :: rest =>
      and_then (run_call n c w) (fun w => run_stmts n rest data w)
  end.
Proof. reflexivity. Qed.

Lemma run_call_S n c w :
  run_call (S n) c w =
  match c with
  | CEmit event data => emit n event data w
  | _ => Some (method c w, Normal)
  end.
Proof. reflexivity. Qed.

Lemma run_call_cases n c w w' r :
  run_call (S n) c w = Some (w', r) ->
  (exists event data, c = CEmit event data
                      /\ emit n event data w = Some (w', r))
  \/ (w' = method c w /\ r = Normal).
Proof.
  rewrite run_call_S.
  destruct c; try (intros [= <- <-]; right; split; reflexivity).
  intros H. left. eauto.
Qed.

Lemma and_then_Some r k w c :
  and_then r k = Some (w, c) ->
  (r = Some (w, c) /\ c <> Normal)
  \/ exists w1, r = Some (w1, Normal) /\ k w1 = Some (w, c).
Proof.
  destruct r as [[w1 [|e]]|]; simpl; intros H; try discriminate.
  - right. eauto.
  - left. injection H as <- <-. split; [reflexivity | discriminate].
Qed.

(** ** The effects a run is made of *)

Create HintDb sdk.
#[local] Hint Constructors effect : sdk.
#[local] Hint Resolve rtc_refl rtc_once : sdk.

Lemma fx_on event h w : effects w (on event h w).
Proof. unfold on. auto with sdk. Qed.

Lemma fx_off event i w : effects w (off event i w).
Proof.
  unfold off. destruct (listeners w !! event) as [hs|]; [|reflexivity].
  destruct (index_of i hs); auto with sdk.
Qed.

Lemma fx_once event f w : effects w (once event f w).1.
Proof.
  unfold once. cbn [fst]. etransitivity; [|apply fx_on]. auto with sdk.
Qed.

Lemma fx_settle p st w : effects w (settle p st w).
Proof.
  unfold settle. destruct (promises w !! p) as [[| |]|]; auto with sdk.
Qed.

Lemma fx_send_with k message w : effects w (send_with k message w).1.
Proof.
  unfold send_with, new_promise, enqueue.
  destruct (negb (is_open w)); [reflexivity|]. cbn [fst].
  etransitivity; [apply rtc_once, eff_promises | apply rtc_once, eff_jobs].
Qed.

Lemma fx_send message w : effects w (send message w).1.
Proof.
  unfold send. pose proof (fx_send_with KSend message w) as H.
  destruct (send_with KSend message w) as [w1 [| |]]; exact H.
Qed.

Lemma fx_connect_refused w : effects w (connect_refused w).1.
Proof. unfold connect_refused. cbn [fst]. auto with sdk. Qed.

Lemma fx_connect token w : effects w (connect token w).1.
Proof.
  unfold connect, new_promise. cbn [fst].
  etransitivity; [|apply fx_once].
  etransitivity; [|apply rtc_once, eff_ws].
  etransitivity; [|apply rtc_once, eff_socket_new].
  auto with sdk.
Qed.

Lemma fx_disconnect w : effects w (disconnect w).
Proof.
  unfold disconnect.
  etransitivity; [|apply rtc_once, eff_connected].
  match goal with
  | |- effects w (match ws ?w1 with _ => _ end) =>
      transitivity w1;
      [|destruct (ws w1);
        [etransitivity; [apply rtc_once, eff_socket_alter
                        | apply rtc_once, eff_ws]
        | reflexivity]]
  end.
  destruct (reconnectTimer w) eqn:E; [|reflexivity].
  apply rtc_once. now apply eff_clear.
Qed.

Lemma fx_method c w : effects w (method c w).
Proof.
  destruct c; cbn [method]; try destruct (has_fragment _);
    try reflexivity;
    try apply fx_connect; try apply fx_connect_refused;
    try apply fx_disconnect;
    try apply fx_on; try apply fx_once; try apply fx_off;
    try apply fx_send; try apply fx_send_with.
  unfold sendMessage. destruct (is_str _ _); [|reflexivity].
  apply fx_send_with.
Qed.

Lemma fx_transmit packed w : effects w (transmit packed w).1.
Proof.
  unfold transmit. destruct (ws w) as [i|]; [|reflexivity].
  destruct (readyState <$> sockets w !! i) as [[| | |]|]; cbn [fst];
    auto with sdk.
Qed.

Lemma fx_conclude p k r w : effects w (conclude p k r w).
Proof.
  unfold conclude. destruct r as [|e]; [|apply fx_settle].
  destruct k; try apply fx_settle.
  - etransitivity; [apply rtc_once, (eff_roomId room) | apply fx_once].
  - apply fx_once.
Qed.

Lemma fx_run_job j w : effects w (run_job j w).
Proof.
  destruct j as [packed p k|p k r]; cbn [run_job]; [|apply fx_conclude].
  pose proof (fx_transmit packed w) as H.
  destruct (transmit packed w) as [w1 r]. cbn [fst] in H.
  etransitivity; [exact H|].
  destruct k; try apply fx_conclude; unfold enqueue; auto with sdk.
Qed.

Lemma fx_drain fuel k : forall w, effects w (drain fuel k w).
Proof.
  induction fuel as [|fuel IH]; intros w; [reflexivity|]. cbn [drain].
  destruct (jobs w !! k) as [j|]; [|reflexivity].
  etransitivity; [apply rtc_once, eff_jobs|].
  etransitivity; [apply fx_run_job | apply IH].
Qed.

Lemma fx_run_jobs k w : effects w (run_jobs k w).
Proof. apply fx_drain. Qed.

Lemma fx_handshake p data w : effects w (handshake p data w).1.
Proof.
  unfold handshake. destruct (nullish data); [reflexivity|]. cbn [fst].
  etransitivity; [|apply fx_settle].
  etransitivity; [apply rtc_once, eff_clientId | apply rtc_once, eff_user].
Qed.

Lemma fx_settle_with p field data w :
  effects w (settle_with p field data w).1.
Proof.
  unfold settle_with. destruct field; [destruct (nullish data)|];
    cbn [fst]; try reflexivity; apply fx_settle.
Qed.

Lemma fx_mark r i w : effects w (mark r i w).
Proof. unfold mark. auto with sdk. Qed.

Lemma fx_reconnect t tm w :
  pending t w = Some tm -> effects w (reconnect tm (clearTimeout t w)).
Proof.
  intros H. unfold reconnect.
  etransitivity; [|apply fx_connect].
  apply rtc_once. eapply eff_expire. eassumption.
Qed.

#[local] Hint Resolve fx_on fx_off fx_once fx_settle fx_send fx_connect
  fx_disconnect fx_method fx_handshake fx_settle_with fx_mark : sdk.

(** Whatever the interpreter returns was reached by effects. *)
Lemma interp_effects n :
  (forall event data w w' c,
      emit n event data w = Some (w', c) -> effects w w')
  /\ (forall ev data k len w w' c,
         for_each n ev data k len w = Some (w', c) -> effects w w')
  /\ (forall h data w w' c,
         call_handler n h data w = Some (w', c) -> effects w w')
  /\ (forall body data w w' c,
         run_stmts n body data w = Some (w', c) -> effects w w')
  /\ (forall c0 w w' c, run_call n c0 w = Some (w', c) -> effects w w').
Proof.
  induction n as [|n (IHe & IHf & IHh & IHs & IHc)].
  { repeat split; intros; discriminate. }
  repeat split.
  - intros event data w w' c. rewrite emit_S.
    destruct (handlers_of _ _) as [[ev hs]|].
    + intros H. etransitivity; [apply rtc_once, eff_log_emit | eauto].
    + intros [= <- <-]. auto with sdk.
  - intros ev data k len w w' c. rewrite for_each_S.
    destruct (decide _); [intros [= <- <-]; auto with sdk|].
    destruct (_ !! k) as [h|]; [|eauto].
    destruct (call_handler n h data w) as [[w1 [|e]]|] eqn:Hh;
      [| |discriminate]; intros H.
    + etransitivity; eauto.
    + etransitivity; [eauto|].
      etransitivity; [apply rtc_once, eff_console | eauto].
  - intros h data w w' c. rewrite call_handler_S.
    destruct (code h) as [body|ev inner|p|p field].
    + eauto.
    + intros H. etransitivity; [apply fx_off | eauto].
    + intros [= H]. replace w' with (handshake p data w).1
        by (rewrite H; reflexivity). auto with sdk.
    + intros [= H]. replace w' with (settle_with p field data w).1
        by (rewrite H; reflexivity). auto with sdk.
  - intros body data w w' c. rewrite run_stmts_S.
    destruct body as [|[tag|tag|c0] rest].
    + intros [= <- <-]. auto with sdk.
    + intros H. etransitivity; [apply rtc_once, eff_record | eauto].
    + intros [= <- <-]. auto with sdk.
    + intros H. apply and_then_Some in H as [[H _] | (w1 & H1 & H2)].
      * eauto.
      * etransitivity; eauto.
  - intros c0 w w' c.
    intros H. apply run_call_cases in H as [(ev & d & -> & H) | [-> _]];
      [eauto | auto with sdk].
Qed.

Lemma emit_effects n event data w w' c :
  emit n event data w = Some (w', c) -> effects w w'.
Proof. apply (interp_effects n). Qed.

Lemma run_call_effects n c0 w w' c :
  run_call n c0 w = Some (w', c) -> effects w w'.
Proof. apply (interp_effects n). Qed.

Lemma run_stmts_effects n body data w w' c :
  run_stmts n body data w = Some (w', c) -> effects w w'.
Proof. apply (interp_effects n). Qed.

Lemma handleMessage_effects n msg w w' c :
  _handleMessage n msg w = Some (w', c) -> effects w w'.
Proof.
  unfold _handleMessage. destruct (nullish msg).
  { intros [= <- <-]. reflexivity. }
  intros H.
  etransitivity; [apply rtc_once, eff_console|].
  apply and_then_Some in H as [[H _] | (w1 & H1 & H)];
    [eapply emit_effects; eassumption|].
  etransitivity; [eapply emit_effects; eassumption|].
  apply and_then_Some in H as [[H _] | (w2 & H2 & H)];
    [eapply emit_effects; eassumption|].
  etransitivity; [eapply emit_effects; eassumption|].
  repeat match type of H with
         | (if ?b then _ else _) = _ => destruct b
         end;
    try (eapply emit_effects; eassumption);
    injection H as <- <-; auto with sdk.
  etransitivity; [apply rtc_once, eff_clientId | apply rtc_once, eff_user].
Qed.

Lemma finish_effects k r w w' :
  (forall w1 c, r = Some (w1, c) -> effects w w1) ->
  finish k r = Some w' -> effects w w'.
Proof.
  intros Hr. destruct r as [[w1 c]|]; cbn; intros [= <-].
  etransitivity; [eauto | apply fx_run_jobs].
Qed.

Lemma ws_onopen_effects n w w' c :
  ws_onopen n w = Some (w', c) -> effects w w'.
Proof.
  unfold ws_onopen. intros H.
  etransitivity; [apply rtc_once, (eff_connected true)|].
  apply and_then_Some in H as [[H _] | (w1 & H1 & [= <- <-])].
  - eapply emit_effects; eassumption.
  - etransitivity; [eapply emit_effects; eassumption|].
    apply rtc_once, eff_console.
Qed.

Lemma ws_onmessage_effects n data w w' c :
  ws_onmessage n data w = Some (w', c) -> effects w w'.
Proof.
  unfold ws_onmessage. destruct (_unpack data) as [e|msg].
  - intros [= <- <-]. reflexivity.
  - apply handleMessage_effects.
Qed.

Lemma ws_onerror_effects n s error w w' c :
  ws_onerror n s error w = Some (w', c) -> effects w w'.
Proof.
  unfold ws_onerror. intros H.
  etransitivity; [apply rtc_once, eff_console|].
  apply and_then_Some in H as [[H _] | (w1 & H1 & [= <- <-])].
  - eapply emit_effects; eassumption.
  - etransitivity; [eapply emit_effects; eassumption | apply fx_settle].
Qed.

Lemma ws_onclose_effects n s w w' c :
  ws_onclose n s w = Some (w', c) -> effects w w'.
Proof.
  unfold ws_onclose. intros H.
  etransitivity; [apply rtc_once, (eff_connected false)|].
  apply and_then_Some in H as [[H _] | (w1 & H1 & H)];
    [eapply emit_effects; eassumption|].
  etransitivity; [eapply emit_effects; eassumption|].
  etransitivity; [apply rtc_once, (eff_console LogDisconnected)|].
  destruct (truthy _ && _) eqn:Hb.
  - apply andb_true_iff in Hb as [_ Hb].
    apply negb_true_iff, bool_decide_eq_false in Hb.
    injection H as <- <-. apply rtc_once.
    apply (eff_arm _ (console_push LogDisconnected w1)).
    destruct (reconnectTimer (console_push LogDisconnected w1));
      [exfalso; apply Hb; eauto | reflexivity].
  - injection H as <- <-. reflexivity.
Qed.

Lemma step_effects n e w w' : step n e w = Some w' -> effects w w'.
Proof.
  destruct e as [c|cs|i|i data|i error|i|t]; simpl.
  - apply finish_effects. intros w1 c1. apply run_call_effects.
  - apply finish_effects. intros w1 c1. apply run_stmts_effects.
  - destruct (sockets w !! i); [|intros [= <-]; reflexivity].
    intros H. etransitivity; [apply (fx_mark OPEN i)|].
    revert H. apply finish_effects. intros w1 c1. apply ws_onopen_effects.
  - destruct (sockets w !! i); [|intros [= <-]; reflexivity].
    apply finish_effects. intros w1 c1. apply ws_onmessage_effects.
  - destruct (sockets w !! i); [|intros [= <-]; reflexivity].
    apply finish_effects. intros w1 c1. apply ws_onerror_effects.
  - destruct (sockets w !! i); [|intros [= <-]; reflexivity].
    intros H. etransitivity; [apply (fx_mark CLOSED i)|].
    revert H. apply finish_effects. intros w1 c1. apply ws_onclose_effects.
  - destruct (pending t w) eqn:Hp; intros [= <-]; [|reflexivity].
    now apply fx_reconnect.
Qed.

Lemma run_effects n es w w' : run n es w = Some w' -> effects w w'.
Proof.
  revert w. induction es as [|e es IH]; simpl; intros w.
  - intros [= <-]. reflexivity.
  - destruct (step n e w) as [w1|] eqn:H1; [|discriminate].
    intros H. etransitivity; [eapply step_effects; eassumption | eauto].
Qed.

(** ** What the effects leave alone *)


Lemma effect_options w w' : effect w w' -> options w' = options w.
Proof. destruct 1; reflexivity. Qed.

Lemma effects_options w w' : effects w w' -> options w' = options w.
Proof.
  intros H. induction H as [|w1 w2 w3 H1 _ IH]; [reflexivity|].
  rewrite IH. now apply effect_options.
Qed.

Lemma effect_emitted w w' :
  effect w w' -> exists xs, emitted w' = emitted w ++ xs.
Proof.
  destruct 1; try (exists []; rewrite app_nil_r; reflexivity).
  eexists. reflexivity.
Qed.

Lemma effects_emitted w w' :
  effects w w' -> exists xs, emitted w' = emitted w ++ xs.
Proof.
  intros H. induction H as [|w1 w2 w3 H1 _ [ys IH]].
  - exists []. now rewrite app_nil_r.
  - destruct (effect_emitted _ _ H1) as [xs E].
    exists (xs ++ ys). rewrite IH, E, app_assoc. reflexivity.
Qed.

Lemma effect_sockets w w' :
  effect w w' -> (length (sockets w) <= length (sockets w'))%nat.
Proof.
  destruct 1; simpl; rewrite ?length_app, ?length_alter; simpl; lia.
Qed.

Lemma effects_sockets w w' :
  effects w w' -> (length (sockets w) <= length (sockets w'))%nat.
Proof.
  intros H. induction H as [|w1 w2 w3 H1 _ IH]; [lia|].
  apply effect_sockets in H1. lia.
Qed.

(** ** The reconnect timer *)


Lemma timers_ok_clear t w :
  timers_ok w -> t ∈ (timers w).*1 ->
  timers_ok (set_reconnectTimer None (clearTimeout t w)).
Proof.
  unfold timers_ok. intros H Hin. cbn.
  destruct (timers w) as [|[t0 tm0] [|x l]]; simpl in *.
  - reflexivity.
  - apply list_elem_of_singleton in Hin as ->.
    rewrite filter_cons. simpl.
    destruct (decide (t0 ≠ t0)); [congruence | reflexivity].
  - destruct (reconnectTimer w); discriminate H.
Qed.




(** ** emit never throws *)

Lemma for_each_normal n ev data k len w w' c :
  for_each n ev data k len w = Some (w', c) -> c = Normal.
Proof.
  revert k w. induction n as [|n IH]; intros k w; [discriminate|].
  rewrite for_each_S.
  destruct (decide _); [intros [= _ <-]; reflexivity|].
  destruct (_ !! k) as [h|]; [|apply IH].
  destruct (call_handler n h data w) as [[w1 [|e]]|]; [| |discriminate];
    apply IH.
Qed.

Lemma emit_normal n event data w w' c :
  emit n event data w = Some (w', c) -> c = Normal.
Proof.
  destruct n as [|n]; [discriminate|]. rewrite emit_S.
  destruct (handlers_of _ _) as [[ev hs]|].
  - apply for_each_normal.
  - intros [= _ <-]. reflexivity.
Qed.

Lemma and_then_emit n event data w k w' c :
  and_then (emit n event data w) k = Some (w', c) ->
  exists w1, emit n event data w = Some (w1, Normal) /\ k w1 = Some (w', c).
Proof.
  intros H. apply and_then_Some in H as [[H Hc] | H]; [|exact H].
  apply emit_normal in H. contradiction.
Qed.

(** ** emit on plain subscribers *)

Lemma run_stmts_plain body data w n :
  forallb simple body = true -> (length body < n)%nat ->
  run_stmts n body data w = Some (run_plain body data w).
Proof.
  revert w n. induction body as [|[tag|tag|c] rest IH]; intros w n Hs Hn;
    (destruct n as [|n]; [simpl in Hn; lia|]); rewrite run_stmts_S;
    cbn [run_plain].
  - reflexivity.
  - apply IH; [exact Hs | simpl in Hn; lia].
  - reflexivity.
  - discriminate Hs.
Qed.

Lemma run_plain_listeners body data w :
  listeners (run_plain body data w).1 = listeners w.
Proof.
  revert w. induction body as [|[tag|tag|c] rest IH]; intros w;
    cbn [run_plain fst]; try reflexivity.
  rewrite IH. reflexivity.
Qed.

Lemma call_plain_listeners ev data w h :
  listeners (call_plain ev data w h) = listeners w.
Proof.
  unfold call_plain. destruct (code h); try reflexivity.
  pose proof (run_plain_listeners body data w) as H.
  destruct (run_plain body data w) as [w1 [|e]]; exact H.
Qed.

Lemma call_handler_plain ev h data w n :
  plain h = true -> (weight h + 1 < n)%nat ->
  exists w1 c, call_handler n h data w = Some (w1, c)
    /\ call_plain ev data w h
       = match c with
         | Normal => w1
         | Abrupt e => console_push (LogHandlerError ev e) w1
         end.
Proof.
  unfold plain, weight, call_plain. intros Hp Hn.
  destruct n as [|n]; [lia|]. rewrite call_handler_S.
  destruct (code h) as [body| | |]; try discriminate.
  rewrite run_stmts_plain by (assumption || lia).
  destruct (run_plain body data w) as [w1 c]. exists w1, c.
  split; [reflexivity | destruct c; reflexivity].
Qed.

Lemma weight_le_max h (hs : list handler) :
  h ∈ hs -> (weight h <= max_list (weight <$> hs))%nat.
Proof.
  intros H. apply max_list_elem_of_le, list_elem_of_fmap. eauto.
Qed.

Lemma for_each_plain ev data hs :
  forallb plain hs = true ->
  forall m k n w,
    listeners w !! ev = Some hs ->
    (length hs - k <= m)%nat ->
    (m + max_list (weight <$> hs) + 3 <= n)%nat ->
    for_each n ev data k (length hs) w
    = Some (deliver ev data (drop k hs) w, Normal).
Proof.
  intros Hp. induction m as [|m IH]; intros k n w Hl Hk Hn;
    (destruct n as [|n]; [lia|]); rewrite for_each_S.
  - destruct (decide _); [|lia]. rewrite drop_ge by lia. reflexivity.
  - destruct (decide (length hs <= k)%nat).
    { rewrite drop_ge by lia. reflexivity. }
    rewrite Hl. change (default [] (Some hs)) with hs.
    destruct (hs !! k) as [h|] eqn:Hh;
      [|apply lookup_ge_None in Hh; lia].
    assert (Hin : h ∈ hs) by (eapply list_elem_of_lookup_2; eassumption).
    assert (Hph : plain h = true).
    { rewrite forallb_forall in Hp. apply Hp. now apply list_elem_of_In. }
    pose proof (weight_le_max h hs Hin) as Hw.
    destruct (call_handler_plain ev h data w n Hph ltac:(lia))
      as (w1 & c & -> & E).
    rewrite (drop_S _ _ _ Hh). unfold deliver. cbn [fold_left].
    fold (deliver ev data (drop (S k) hs) (call_plain ev data w h)).
    assert (Hl' : listeners (call_plain ev data w h) !! ev = Some hs)
      by (rewrite call_plain_listeners; exact Hl).
    rewrite E in *. destruct c; apply IH; (assumption || lia).
Qed.

(** On plain subscribers [emit] returns, normally, having called each of
    them in order. *)
Lemma emit_plain ev data w n :
  calm ev w -> (budget (subscribers ev w) <= n)%nat ->
  emit n (VStr ev) data w
  = Some (deliver ev data (subscribers ev w) (log_emit (VStr ev) data w),
          Normal).
Proof.
  unfold calm, subscribers, budget. intros Hp Hn.
  destruct n as [|n]; [lia|]. rewrite emit_S. unfold handlers_of.
  change (listeners (log_emit (VStr ev) data w)) with (listeners w).
  destruct (listeners w !! ev) as [hs|] eqn:Hl.
  - change (default [] (Some hs)) with hs in *.
    change ((fun hs0 => (ev, hs0)) <$> Some hs) with (Some (ev, hs)).
    cbv iota beta.
    rewrite (for_each_plain ev data hs Hp (length hs) 0 n); try lia.
    + rewrite drop_0. reflexivity.
    + exact Hl.
  - reflexivity.
Qed.

(** ** What plain subscribers leave behind *)

Lemma set_trace_console_id w :
  set_console (console w ++ []) (set_trace (trace w ++ []) w) = w.
Proof. destruct w. cbn. rewrite !app_nil_r. reflexivity. Qed.

Lemma run_plain_closed_form body data w :
  run_plain body data w
  = (set_trace (trace w ++ ((fun tag => (tag, data)) <$> seen body)) w,
     fate body).
Proof.
  revert w. induction body as [|[tag|tag|c] rest IH]; intros w;
    cbn [run_plain seen fate fmap list_fmap];
    try (destruct w; cbn; rewrite app_nil_r; reflexivity).
  rewrite IH. destruct w. cbn. rewrite <- app_assoc. reflexivity.
Qed.

Lemma call_plain_closed_form ev data w h :
  call_plain ev data w h
  = set_console (console w ++ complaints ev [h])
      (set_trace (trace w ++ observed data [h]) w).
Proof.
  unfold call_plain, complaints, observed, seen_by.
  cbn [fmap list_fmap concat]. rewrite !app_nil_r.
  destruct (code h) as [body| | |];
    try (symmetry; apply set_trace_console_id).
  rewrite run_plain_closed_form.
  destruct (fate body); destruct w; cbn; rewrite ?app_nil_r; reflexivity.
Qed.

Lemma deliver_closed_form ev data hs w :
  deliver ev data hs w
  = set_console (console w ++ complaints ev hs)
      (set_trace (trace w ++ observed data hs) w).
Proof.
  unfold deliver. revert w. induction hs as [|h hs IH]; intros w.
  - symmetry. apply set_trace_console_id.
  - cbn [fold_left]. rewrite IH, call_plain_closed_form.
    unfold complaints, observed. cbn [fmap list_fmap concat].
    rewrite !app_nil_r. destruct w. cbn. rewrite <- !app_assoc.
    reflexivity.
Qed.

(** ** emit on subscribers that do not emit *)

Lemma tame_world_off B L ev i w :
  tame_world B L w -> tame_world B L (off ev i w).
Proof.
  unfold tame_world, off. intros H.
  destruct (listeners w !! ev) as [hs|] eqn:Hl; [|exact H].
  destruct (index_of i hs) as [k|]; [|exact H].
  cbn. apply map_Forall_insert_2; [|exact H].
  destruct (H ev hs Hl) as [Ht Hn]. split.
  - rewrite forallb_forall in *. intros h Hin. apply Ht.
    apply list_elem_of_In. apply list_elem_of_In in Hin.
    eapply elem_of_sublist; [exact Hin | apply sublist_delete].
  - pose proof (sublist_length _ _ (sublist_delete hs k)). lia.
Qed.

Lemma tame_world_same B L w w' :
  listeners w' = listeners w -> tame_world B L w -> tame_world B L w'.
Proof. unfold tame_world. intros ->. trivial. Qed.

Lemma plain_code_run B body data w n :
  plain_code B (User body) = true -> (B < n)%nat ->
  run_stmts n body data w = Some (run_plain body data w).
Proof.
  cbn [plain_code]. intros H Hn. apply andb_true_iff in H as [Hs Hb].
  apply bool_decide_eq_true in Hb. apply run_stmts_plain; [exact Hs | lia].
Qed.

Lemma settle_listeners p st w : listeners (settle p st w) = listeners w.
Proof.
  unfold settle. destruct (promises w !! p) as [[| |]|]; reflexivity.
Qed.

Lemma settle_emitted p st w : emitted (settle p st w) = emitted w.
Proof.
  unfold settle. destruct (promises w !! p) as [[| |]|]; reflexivity.
Qed.

Lemma settle_jobs p st w : jobs (settle p st w) = jobs w.
Proof.
  unfold settle. destruct (promises w !! p) as [[| |]|]; reflexivity.
Qed.

Lemma off_emitted ev i w : emitted (off ev i w) = emitted w.
Proof.
  unfold off. destruct (listeners w !! ev); [|reflexivity].
  destruct (index_of _ _); reflexivity.
Qed.

Lemma off_jobs ev i w : jobs (off ev i w) = jobs w.
Proof.
  unfold off. destruct (listeners w !! ev); [|reflexivity].
  destruct (index_of _ _); reflexivity.
Qed.

Lemma kept_refl B L w : tame_world B L w -> kept B L w w.
Proof. intros H. split; [exact H | split; reflexivity]. Qed.

Lemma kept_same B L w w' :
  listeners w' = listeners w -> emitted w' = emitted w ->
  jobs w' = jobs w ->
  tame_world B L w -> kept B L w w'.
Proof.
  intros Hl He Hj Hw. split; [|split; assumption].
  eapply tame_world_same; eassumption.
Qed.

Lemma handshake_kept B L p data w :
  tame_world B L w -> kept B L w (handshake p data w).1.
Proof.
  unfold handshake. intros Hw.
  destruct (nullish data); cbn [fst]; [now apply kept_refl|].
  apply kept_same; [| | |exact Hw].
  - now rewrite settle_listeners.
  - now rewrite settle_emitted.
  - now rewrite settle_jobs.
Qed.

Lemma settle_with_kept B L p field data w :
  tame_world B L w -> kept B L w (settle_with p field data w).1.
Proof.
  unfold settle_with. intros Hw.
  destruct field; [destruct (nullish data)|]; cbn [fst];
    try (now apply kept_refl);
    (apply kept_same; [| | |exact Hw]);
    first [now rewrite settle_listeners | now rewrite settle_emitted
          | now rewrite settle_jobs].
Qed.

Lemma kept_after_off B L ev i w w' :
  kept B L (off ev i w) w' -> kept B L w w'.
Proof. unfold kept. rewrite off_emitted, off_jobs. trivial. Qed.

Lemma call_handler_tame B L h data w n :
  tame B h = true -> tame_world B L w -> (B + 3 <= n)%nat ->
  exists w' c, call_handler n h data w = Some (w', c) /\ kept B L w w'.
Proof.
  unfold tame. intros Ht Hw Hn.
  destruct n as [|[|n]]; try lia. rewrite call_handler_S.
  destruct (code h) as [body|ev inner|p|p field] eqn:Hc.
  - rewrite (plain_code_run B) by (assumption || lia).
    rewrite run_plain_closed_form. do 2 eexists.
    split; [reflexivity|]. now apply kept_same.
  - pose proof (tame_world_off B L ev (hid h) w Hw) as Hoff.
    rewrite call_handler_S. cbn [code].
    destruct inner as [body|ev' inner'|p|p field]; try discriminate Ht.
    + rewrite (plain_code_run B) by (assumption || lia).
      rewrite run_plain_closed_form. do 2 eexists.
      split; [reflexivity|]. apply (kept_after_off B L ev (hid h)).
      now apply kept_same.
    + exists (handshake p data (off ev (hid h) w)).1,
        (handshake p data (off ev (hid h) w)).2.
      split; [now rewrite <- surjective_pairing|].
      apply (kept_after_off B L ev (hid h)). now apply handshake_kept.
    + exists (settle_with p field data (off ev (hid h) w)).1,
        (settle_with p field data (off ev (hid h) w)).2.
      split; [now rewrite <- surjective_pairing|].
      apply (kept_after_off B L ev (hid h)). now apply settle_with_kept.
  - exists (handshake p data w).1, (handshake p data w).2.
    split; [now rewrite <- surjective_pairing | now apply handshake_kept].
  - exists (settle_with p field data w).1, (settle_with p field data w).2.
    split; [now rewrite <- surjective_pairing | now apply settle_with_kept].
Qed.

Lemma for_each_tame B L ev data len :
  forall m k n w,
    tame_world B L w -> (len - k <= m)%nat -> (m + B + 4 <= n)%nat ->
    exists w', for_each n ev data k len w = Some (w', Normal)
               /\ kept B L w w'.
Proof.
  induction m as [|m IH]; intros k n w Hw Hk Hn;
    (destruct n as [|n]; [lia|]); rewrite for_each_S.
  - destruct (decide _); [|lia]. exists w.
    split; [reflexivity | now apply kept_refl].
  - destruct (decide (len <= k)%nat).
    { exists w. split; [reflexivity | now apply kept_refl]. }
    destruct (default [] (listeners w !! ev) !! k) as [h|] eqn:Hh.
    + assert (Ht : tame B h = true).
      { destruct (listeners w !! ev) as [hs|] eqn:Hl; [|discriminate Hh].
        cbn in Hh. destruct (Hw ev hs Hl) as [Hf _].
        rewrite forallb_forall in Hf. apply Hf, list_elem_of_In.
        eapply list_elem_of_lookup_2; eassumption. }
      destruct (call_handler_tame B L h data w n Ht Hw ltac:(lia))
        as (w1 & c & -> & Hw1 & He1 & Hj1).
      destruct c as [|e].
      * destruct (IH (S k) n w1 Hw1 ltac:(lia) ltac:(lia))
          as (w2 & -> & Hw2 & He2 & Hj2).
        exists w2. split; [reflexivity|].
        split; [exact Hw2 | split; congruence].
      * destruct (IH (S k) n (console_push (LogHandlerError ev e) w1))
          as (w2 & -> & Hw2 & He2 & Hj2); [exact Hw1 | lia | lia |].
        exists w2. split; [reflexivity|]. split; [exact Hw2|].
        rewrite He2, Hj2. split; [exact He1 | exact Hj1].
    + destruct (IH (S k) n w Hw ltac:(lia) ltac:(lia)) as (w2 & -> & H2).
      exists w2. split; [reflexivity | exact H2].
Qed.

(** With tame subscribers everywhere, [emit] returns, the subscribers
    are still tame, the emission is the only one made and no job was
    added. *)
Lemma emit_tame_jobs B L n event data w :
  tame_world B L w -> (L + B + 5 <= n)%nat ->
  exists w', emit n event data w = Some (w', Normal)
             /\ tame_world B L w'
             /\ emitted w' = emitted w ++ [(event, data)]
             /\ jobs w' = jobs w.
Proof.
  intros Hw Hn. destruct n as [|n]; [lia|]. rewrite emit_S.
  unfold handlers_of. destruct event as [| | | | |ev| |];
    try (eexists; split; [reflexivity|]; split; [exact Hw|];
         split; reflexivity).
  change (listeners (log_emit (VStr ev) data w)) with (listeners w).
  destruct (listeners w !! ev) as [hs|] eqn:Hl; cbn;
    [|eexists; split; [reflexivity|]; split; [exact Hw|];
      split; reflexivity].
  destruct (Hw ev hs Hl) as [_ Hlen].
  destruct (for_each_tame B L ev data (length hs) (length hs) 0 n
              (log_emit (VStr ev) data w))
    as (w' & -> & Hw' & He & Hj); [exact Hw | lia | lia |].
  exists w'. split; [reflexivity|].
  split; [exact Hw' | split; [exact He | exact Hj]].
Qed.

Lemma emit_tame B L n event data w :
  tame_world B L w -> (L + B + 5 <= n)%nat ->
  exists w', emit n event data w = Some (w', Normal)
             /\ tame_world B L w'
             /\ emitted w' = emitted w ++ [(event, data)].
Proof.
  intros Hw Hn.
  destruct (emit_tame_jobs B L n event data w Hw Hn)
    as (w' & E & Hw' & He & _).
  eauto.
Qed.

(** With tame subscribers everywhere, every message is handled to the
    end. *)
Lemma handleMessage_tame B L n msg w :
  tame_world B L w -> (L + B + 5 <= n)%nat ->
  exists w' c, _handleMessage n msg w = Some (w', c) /\ tame_world B L w'.
Proof.
  intros Hw Hn. unfold _handleMessage.
  destruct (nullish msg); [eauto|].
  destruct (emit_tame B L n (prop (str "type") msg) msg
              (console_push (LogReceived (prop (str "type") msg)) w))
    as (w1 & -> & Hw1 & _); [exact Hw | exact Hn |].
  cbn [and_then].
  destruct (emit_tame B L n (VStr (str "message")) msg w1 Hw1 Hn)
    as (w2 & -> & Hw2 & _).
  cbn [and_then].
  repeat match goal with
         | |- context [if ?b then _ else _] => destruct b
         end;
    try (do 2 eexists; split; [reflexivity | exact Hw2]);
    match goal with
    | |- context [emit n ?e ?d w2] =>
        destruct (emit_tame B L n e d w2 Hw2 Hn) as (w3 & -> & Hw3 & _);
        eauto
    end.
Qed.

(** ** The wire codec *)

Lemma usv_paired t : paired t = true -> usv t = t.
Proof.
  remember (length t) as n eqn:En. revert t En.
  induction n as [n IH] using lt_wf_ind. intros t En Ht.
  destruct t as [|c r]; [reflexivity|]. cbn [usv paired] in *.
  destruct (is_high c).
  - destruct r as [|d r']; [discriminate|].
    apply andb_true_iff in Ht as [Hd Hr]. rewrite Hd.
    rewrite (IH (length r'));
      [reflexivity | subst n; simpl; lia | reflexivity | exact Hr].
  - apply andb_true_iff in Ht as [Hl Hr].
    apply negb_true_iff in Hl. rewrite Hl.
    rewrite (IH (length r));
      [reflexivity | subst n; simpl; lia | reflexivity | exact Hr].
Qed.

(** A Blob made of what [JSON.stringify] wrote reads back as it was
    written. *)
Lemma blob_text_ser v : blob_text (ser v) = ser v.
Proof.
  unfold blob_text. rewrite usv_paired by apply ser_paired.
  pose proof (ser_first v) as H. unfold strip_bom.
  destruct (ser v) as [|c r]; [reflexivity|]. simpl in H.
  destruct (N.eqb_spec c 65279); [congruence | reflexivity].
Qed.

Lemma unpack_pack m :
  is_undef m = false ->
  _unpack (_pack m)
  = match JSON_parse (ser m) with
    | Some v => inr v
    | None => inl SyntaxError
    end.
Proof.
  intros Hu. unfold _pack, _unpack, JSON_stringify. rewrite Hu.
  cbn [default from_option id frame_text]. rewrite blob_text_ser.
  reflexivity.
Qed.

Lemma unpack_pack_data m : json_data m = true -> _unpack (_pack m) = inr m.
Proof.
  intros H. rewrite unpack_pack by (now apply json_data_defined).
  rewrite JSON_parse_ser by (now apply json_data_sendable).
  rewrite on_the_wire_id by assumption. reflexivity.
Qed.

(** C6, as stated, fails: the message that [broadcastState('cursor',
    undefined)] sends, an [app_state_broadcast] record of the taxonomy,
    comes back without its [state]. *)
Lemma undefined_state_does_not_come_back :
  (exists w,
      step 8 (Call (CBroadcastState (VStr (str "cursor")) VUndef 1)) online
      = Some w
      /\ outbox w = [_pack cursor_gone])
  /\ _unpack (_pack cursor_gone) = inr cursor_gone_received
  /\ cursor_gone_received <> cursor_gone
  /\ deep_equal cursor_gone_received cursor_gone = false
  /\ deep_equal cursor_gone cursor_gone_received = false.
Proof.
  split; [eexists; split; [vm_compute; reflexivity | reflexivity]|].
  split; [vm_compute; reflexivity|].
  split; [discriminate|]. split; reflexivity.
Qed.

(** C6, amended.  A message is sendable when it is made of strings,
    booleans, [null], numbers that are safe integers or decimals, arrays
    and objects with distinct keys, and of [undefined] below the top.
    Decoding the encoding of a sendable message gives the message with
    every property that is [undefined] left out and every array element
    that is [undefined] replaced by [null]; that is the message itself
    exactly when no [undefined] occurs in it. *)
Theorem unpack_pack_round_trip m :
  is_undef m = false -> sendable m = true ->
  _unpack (_pack m) = inr (on_the_wire m)
  /\ (json_data m = true -> _unpack (_pack m) = inr m)
  /\ (_unpack (_pack m) = inr m -> json_data m = true).
Proof.
  intros Hu Hs.
  assert (E : _unpack (_pack m) = inr (on_the_wire m)).
  { rewrite unpack_pack by assumption.
    rewrite JSON_parse_ser by assumption. reflexivity. }
  split; [exact E|]. split.
  - intros Hd. rewrite E, on_the_wire_id by assumption. reflexivity.
  - rewrite E. intros [= H]. now apply on_the_wire_changes.
Qed.

Lemma unpack_pack_round_trip_witness :
  is_undef cursor_at = false /\ sendable cursor_at = true
  /\ _unpack (_pack cursor_at) = inr cursor_at.
Proof.
  assert (Hu : is_undef cursor_at = false) by reflexivity.
  assert (Hs : sendable cursor_at = true) by (vm_compute; reflexivity).
  assert (Hd : json_data cursor_at = true) by (vm_compute; reflexivity).
  split; [exact Hu|]. split; [exact Hs|].
  exact (proj1 (proj2 (unpack_pack_round_trip cursor_at Hu Hs)) Hd).
Defined.

(** ** Sending *)

Lemma send_closed message w :
  is_open w = false -> send message w = (w, Abrupt not_connected).
Proof. intros H. unfold send, send_with. rewrite H. reflexivity. Qed.

Lemma send_with_closed k message w :
  is_open w = false -> send_with k message w = (w, Rejected not_connected).
Proof. intros H. unfold send_with. rewrite H. reflexivity. Qed.

(** C10. [sendMessage content type] with a [type] argument other than
    ['text'] transmits nothing: the state, hence what every socket has sent,
    is unchanged, and the call resolves with [{success: true}], whether the
    client is connected or not. *)
Theorem sendMessage_other_type content type w :
  type <> VUndef -> type <> VStr (str "text") ->
  sendMessage content type w
  = (w, Fulfilled (VObj [(str "success", VBool true)])).
Proof.
  intros Hu Ht. unfold sendMessage.
  assert (E : is_str (str "text") (param (VStr (str "text")) type) = false).
  { destruct type; try reflexivity; [congruence|].
    cbn [param is_str]. apply bool_decide_eq_false. congruence. }
  rewrite E. reflexivity.
Qed.

Lemma sendMessage_other_type_witness :
  is_open fresh = false
  /\ sendMessage (VStr (str "hi")) (VStr (str "image")) fresh
     = (fresh, Fulfilled (VObj [(str "success", VBool true)])).
Proof.
  split; [reflexivity|].
  apply sendMessage_other_type; discriminate.
Defined.

(** C9, as stated, fails: on a client that never connected,
    [sendMessage('hi', 'image')] does not fail with the "not connected"
    error, it resolves. *)
Lemma send_while_disconnected_not_every_call :
  is_open fresh = false
  /\ (sendMessage (VStr (str "hi")) (VStr (str "image")) fresh).2
     <> Rejected not_connected.
Proof. split; [reflexivity | discriminate]. Qed.

(** C9, amended. While no open transport exists, every call that reaches
    [send] fails with the "not connected" error and leaves the whole state
    as it was, so nothing is queued and neither the subscriptions nor the
    lifecycle fields change: [send] itself, [joinRoom], [sendMessage] with
    the type ['text'] or none, [sendImage], [uploadFile], [getMessages],
    [getFiles] and [broadcastState]. *)
Theorem send_while_disconnected w :
  is_open w = false ->
  (forall message, send message w = (w, Abrupt not_connected))
  /\ (forall room, joinRoom room w = (w, Rejected not_connected))
  /\ (forall content type,
         type = VUndef \/ type = VStr (str "text") ->
         sendMessage content type w = (w, Rejected not_connected))
  /\ (forall filename base64Data caption,
         sendImage filename base64Data caption w
         = (w, Rejected not_connected))
  /\ (forall filename base64Data path description,
         uploadFile filename base64Data path description w
         = (w, Rejected not_connected))
  /\ (forall limit before,
         getMessages limit before w = (w, Rejected not_connected))
  /\ (forall path, getFiles path w = (w, Rejected not_connected))
  /\ (forall appName state now,
         broadcastState appName state now w = (w, Rejected not_connected)).
Proof.
  intros H. repeat split; intros;
    unfold joinRoom, sendMessage, sendImage, uploadFile, getMessages,
      getFiles, broadcastState;
    rewrite ?send_closed, ?send_with_closed by assumption;
    try reflexivity.
  destruct H0 as [-> | ->]; cbn [param is_str];
    rewrite bool_decide_eq_true_2 by reflexivity; reflexivity.
Qed.

Lemma send_while_disconnected_witness :
  is_open fresh = false
  /\ sendMessage (VStr (str "hi")) VUndef fresh
     = (fresh, Rejected not_connected).
Proof.
  split; [reflexivity|].
  apply (send_while_disconnected fresh); [reflexivity | left; reflexivity].
Defined.

(** ** The jobs of a turn *)

Lemma set_jobs_same w : set_jobs (jobs w) w = w.
Proof. destruct w; reflexivity. Qed.

Lemma once_jobs ev f w : jobs (once ev f w).1 = jobs w.
Proof. reflexivity. Qed.

Lemma transmit_jobs packed w : jobs (transmit packed w).1 = jobs w.
Proof.
  unfold transmit. destruct (ws w) as [i|]; [|reflexivity].
  destruct (readyState <$> sockets w !! i) as [[| | |]|]; reflexivity.
Qed.

Lemma conclude_jobs p k r w : jobs (conclude p k r w) = jobs w.
Proof.
  unfold conclude. destruct r as [|e]; [|apply settle_jobs].
  destruct k; try apply settle_jobs; reflexivity.
Qed.

(** A socket that passes the check of [send] takes the frame. *)
Lemma transmit_open packed w :
  is_open w = true ->
  exists i, ws w = Some i
    /\ transmit packed w
       = (set_sockets (alter (push_sent packed) i (sockets w)) w, Normal).
Proof.
  unfold is_open, transmit. destruct (ws w) as [i|]; [|discriminate].
  destruct (sockets w !! i) as [s|]; [|discriminate].
  cbn [fmap option_fmap option_map].
  intros H. apply bool_decide_eq_true in H. rewrite H. eauto.
Qed.

Lemma drain_none fuel k w : (length (jobs w) <= k)%nat -> drain fuel k w = w.
Proof.
  intros H. destruct fuel; [reflexivity|]. cbn [drain].
  rewrite lookup_ge_None_2 by exact H. reflexivity.
Qed.

(** A turn that added no job ends where its synchronous code ended. *)
Lemma run_jobs_none w0 w :
  jobs w = jobs w0 -> run_jobs (length (jobs w0)) w = w.
Proof.
  intros H. unfold run_jobs. apply drain_none. rewrite H. reflexivity.
Qed.

Lemma finish_none w0 w c :
  jobs w = jobs w0 -> finish (length (jobs w0)) (Some (w, c)) = Some w.
Proof.
  intros H. unfold finish. cbn [fmap option_fmap option_map fst].
  now rewrite run_jobs_none.
Qed.

Lemma drain_head fuel w0 j rest w :
  jobs w = jobs w0 ++ j :: rest ->
  drain (S fuel) (length (jobs w0)) w
  = drain fuel (length (jobs w0)) (run_job j (set_jobs (jobs w0 ++ rest) w)).
Proof.
  intros H. cbn [drain]. rewrite H, list_lookup_middle by reflexivity.
  rewrite delete_middle. reflexivity.
Qed.

(** A turn that added one transmission: the frame goes out, or not, and
    the method that awaited [send] goes on. *)
Lemma run_jobs_transmit packed p k w0 w :
  jobs w = jobs w0 ++ [Transmit packed p k] ->
  run_jobs (length (jobs w0)) w
  = conclude p k (transmit packed (set_jobs (jobs w0) w)).2
             (transmit packed (set_jobs (jobs w0) w)).1.
Proof.
  intros H. unfold run_jobs. rewrite H, length_app. cbn [length].
  replace (2 * (length (jobs w0) + 1 - length (jobs w0)))%nat with 2%nat
    by lia.
  rewrite (drain_head _ w0 _ [] w H), app_nil_r. cbn [run_job].
  pose proof (transmit_jobs packed (set_jobs (jobs w0) w)) as Hj.
  destruct (transmit packed (set_jobs (jobs w0) w)) as [w1 r].
  cbn [fst snd] in *. change (jobs w1 = jobs w0) in Hj.
  assert (Hend : forall w2, jobs w2 = jobs w0 ->
                   drain 1 (length (jobs w0)) w2 = w2).
  { intros w2 H2. apply drain_none. rewrite H2. reflexivity. }
  assert (Hres : drain 1 (length (jobs w0)) (enqueue (Resume p k r) w1)
                 = conclude p k r w1).
  { rewrite (drain_head 0 w0 (Resume p k r) [] (enqueue (Resume p k r) w1))
      by (cbn; now rewrite Hj).
    rewrite app_nil_r. cbn [drain run_job].
    change (set_jobs (jobs w0) (enqueue (Resume p k r) w1))
      with (set_jobs (jobs w0) w1).
    rewrite <- Hj, set_jobs_same. reflexivity. }
  destruct k; try exact Hres.
  apply Hend. now rewrite conclude_jobs.
Qed.

(** A turn in which one async method is called on an open socket, and
    nothing else. *)
Lemma turn_send_with k message w :
  is_open w = true ->
  exists i,
    ws w = Some i
    /\ run_jobs (length (jobs w)) (send_with k message w).1
       = conclude (length (promises w)) k Normal
           (set_sockets (alter (push_sent (_pack message)) i (sockets w))
              (set_promises (promises w ++ [Pending]) w)).
Proof.
  intros Ho.
  destruct (transmit_open (_pack message)
              (set_promises (promises w ++ [Pending]) w) Ho)
    as (i & Hi & Ht).
  exists i. split; [exact Hi|].
  unfold send_with, new_promise. rewrite Ho. cbn [negb fst].
  rewrite (run_jobs_transmit (_pack message) (length (promises w)) k w)
    by reflexivity.
  change (set_jobs (jobs w) (enqueue _ ?w1)) with (set_jobs (jobs w) w1).
  change (set_jobs (jobs w) (set_promises ?ps w))
    with (set_promises ps (set_jobs (jobs w) w)).
  rewrite set_jobs_same, Ht. reflexivity.
Qed.

Lemma step_call n c w :
  (1 <= n)%nat -> (forall event data, c <> CEmit event data) ->
  step n (Call c) w = Some (run_jobs (length (jobs w)) (method c w)).
Proof.
  intros Hn Hc. destruct n as [|n]; [lia|]. cbn [step]. rewrite run_call_S.
  destruct c as [| | | | | | | | | | | | |ev d| |]; try reflexivity.
  now destruct (Hc ev d).
Qed.

Lemma run_stmts_methods data cs :
  Forall (fun c => forall event d, c <> CEmit event d) cs ->
  forall n w,
    (length cs < n)%nat ->
    run_stmts n (SCall <$> cs) data w
    = Some (foldl (fun w c => method c w) w cs, Normal).
Proof.
  induction 1 as [|c cs Hc Hcs IH]; intros n w Hn;
    (destruct n as [|n]; [simpl in Hn; lia|]); rewrite run_stmts_S.
  - reflexivity.
  - cbn [fmap list_fmap length] in *.
    destruct n as [|n]; [lia|].
    assert (E : run_call (S n) c w = Some (method c w, Normal)).
    { rewrite run_call_S.
      destruct c as [| | | | | | | | | | | | |ev d| |]; try reflexivity.
      now destruct (Hc ev d). }
    rewrite E. cbn [and_then]. rewrite IH by lia. reflexivity.
Qed.

Lemma steady_refl w : steady w w.
Proof. repeat split. Qed.

Lemma steady_trans a b c : steady a b -> steady b c -> steady a c.
Proof.
  unfold steady. intros H1 H2.
  repeat match goal with H : _ /\ _ |- _ => destruct H end.
  repeat split; congruence.
Qed.

Lemma steady_settle p st w : steady w (settle p st w).
Proof.
  unfold settle. destruct (promises w !! p) as [[| |]|]; repeat split.
Qed.

Lemma steady_transmit packed w : steady w (transmit packed w).1.
Proof.
  unfold transmit. destruct (ws w) as [i|]; [|apply steady_refl].
  destruct (readyState <$> sockets w !! i) as [[| | |]|]; repeat split.
Qed.

Lemma steady_conclude p k r w : steady w (conclude p k r w).
Proof.
  unfold conclude. destruct r as [|e]; [|apply steady_settle].
  destruct k; try apply steady_settle; repeat split.
Qed.

Lemma steady_run_job j w : steady w (run_job j w).
Proof.
  destruct j as [packed p k|p k r]; cbn [run_job];
    [|apply steady_conclude].
  pose proof (steady_transmit packed w) as H.
  destruct (transmit packed w) as [w1 r]. cbn [fst] in H.
  eapply steady_trans; [exact H|].
  destruct k; try apply steady_conclude; repeat split.
Qed.

Lemma steady_drain fuel k : forall w, steady w (drain fuel k w).
Proof.
  induction fuel as [|fuel IH]; intros w; [apply steady_refl|].
  cbn [drain]. destruct (jobs w !! k) as [j|]; [|apply steady_refl].
  eapply steady_trans; [|apply IH].
  eapply steady_trans; [|apply steady_run_job]. repeat split.
Qed.

Lemma steady_run_jobs k w : steady w (run_jobs k w).
Proof. apply steady_drain. Qed.

Lemma disconnect_fields w :
  ws (disconnect w) = None
  /\ roomId (disconnect w) = roomId w
  /\ promises (disconnect w) = promises w
  /\ listeners (disconnect w) = listeners w
  /\ next_closure (disconnect w) = next_closure w
  /\ jobs (disconnect w) = jobs w
  /\ sent <$> sockets (disconnect w) = sent <$> sockets w.
Proof.
  destruct w as [o [i|] c r u l [t|] cn ss ts nt ps nc co tr em js];
    repeat split; cbn; try reflexivity;
    (induction ss as [|s ss IH] in i |- *; [reflexivity|]);
    (destruct i as [|i]; cbn;
     [f_equal; unfold socket_close; destruct (readyState s); reflexivity
     | f_equal; apply IH]).
Qed.

Lemma job_cost_app a b : job_cost (a ++ b) = (job_cost a + job_cost b)%nat.
Proof.
  unfold job_cost. induction a as [|j a IH]; [reflexivity|].
  cbn. rewrite IH. lia.
Qed.

Lemma run_job_jobs j w :
  exists l, jobs (run_job j w) = jobs w ++ l
            /\ (job_cost l < job_cost [j])%nat.
Proof.
  destruct j as [packed p k|p k r]; cbn [run_job].
  - pose proof (transmit_jobs packed w) as H.
    destruct (transmit packed w) as [w1 r]. cbn [fst] in H.
    destruct k;
      try (exists []; rewrite conclude_jobs, app_nil_r;
           split; [exact H | cbn; lia]);
      (eexists; split; [cbn; rewrite H; reflexivity | cbn; lia]).
  - exists []. rewrite conclude_jobs, app_nil_r. split; [reflexivity|].
    cbn. lia.
Qed.

Lemma job_cost_bound l : (job_cost l <= 2 * length l)%nat.
Proof.
  unfold job_cost. induction l as [|[packed p [| | |]|p k r] l IH];
    cbn in *; lia.
Qed.

Lemma drop_delete_at {A} k : forall l : list A,
  drop k (delete k l) = drop (S k) l.
Proof.
  induction k as [|k IH]; intros [|x l]; try reflexivity. apply IH.
Qed.

(** The fuel of [run_jobs] is enough: no job that the turn added is
    left when it ends. *)
Lemma drain_complete k fuel : forall w,
  (job_cost (drop k (jobs w)) <= fuel)%nat ->
  (length (jobs (drain fuel k w)) <= k)%nat.
Proof.
  induction fuel as [|fuel IH]; intros w Hc; cbn [drain].
  - destruct (drop k (jobs w)) as [|j l] eqn:E.
    + apply (f_equal length) in E. rewrite length_drop in E.
      simpl in E. lia.
    + exfalso. destruct j as [packed p [| | |]|p k0 r]; cbn in Hc; lia.
  - destruct (jobs w !! k) as [j|] eqn:Hj;
      [|now apply lookup_ge_None].
    apply IH.
    destruct (run_job_jobs j (set_jobs (delete k (jobs w)) w))
      as (l & -> & Hf).
    change (jobs (set_jobs ?x w)) with x.
    pose proof (take_drop_middle _ _ _ Hj) as E.
    assert (Hd : drop k (jobs w) = j :: drop (S k) (jobs w)).
    { now apply drop_S. }
    rewrite Hd in Hc.
    assert (Hk : (k <= length (delete k (jobs w)))%nat).
    { rewrite length_delete by (eexists; exact Hj).
      apply lookup_lt_Some in Hj. lia. }
    rewrite drop_app_le by exact Hk.
    rewrite job_cost_app.
    assert (Hdel : drop k (delete k (jobs w)) = drop (S k) (jobs w)).
    { apply drop_delete_at. }
    rewrite Hdel.
    change (j :: drop (S k) (jobs w)) with ([j] ++ drop (S k) (jobs w)) in Hc.
    rewrite job_cost_app in Hc. lia.
Qed.

Lemma run_jobs_complete k w : (length (jobs (run_jobs k w)) <= k)%nat.
Proof.
  apply drain_complete.
  etransitivity; [apply job_cost_bound|]. rewrite length_drop. lia.
Qed.

(** From a state without jobs every turn ends without jobs. *)
Lemma step_no_job_left n e w w' :
  jobs w = [] -> step n e w = Some w' -> jobs w' = [].
Proof.
  intros Hw.
  assert (Hf : forall r, finish (length (jobs w)) r = Some w' -> jobs w' = []).
  { intros [[w1 c]|]; cbn [finish fmap option_fmap option_map fst];
      intros [= <-].
    pose proof (run_jobs_complete (length (jobs w)) w1) as H.
    rewrite Hw in H. apply nil_length_inv. simpl in H. rewrite Hw. simpl. lia. }
  destruct e as [c|cs|i|i data|i error|i|t]; cbn [step];
    try (destruct (sockets w !! i));
    try apply Hf; try (intros [= <-]; exact Hw).
  destruct (pending t w); intros [= <-]; exact Hw.
Qed.

Lemma run_no_job_left n es : forall w w',
  jobs w = [] -> run n es w = Some w' -> jobs w' = [].
Proof.
  induction es as [|e es IH]; intros w w' Hw; cbn [run].
  - now intros [= <-].
  - destruct (step n e w) as [w1|] eqn:E; [|discriminate].
    apply IH. eapply step_no_job_left; eassumption.
Qed.

(** ** Room membership *)

(** C2, as stated, fails: on a connected client, [joinRoom('r1')] alone
    sets [roomId] to ['r1'].  No message was received: the only emission so
    far is [connected]. *)
Lemma joinRoom_sets_roomId_before_confirmation :
  exists w w',
    run 8 go_online fresh = Some w
    /\ roomId w = VNull
    /\ run 8 [Call (CJoinRoom (VStr (str "r1")))] w = Some w'
    /\ roomId w' = VStr (str "r1")
    /\ emitted_names w' = [VStr (str "connected")].
Proof.
  do 2 eexists. split; [vm_compute; reflexivity|].
  split; [reflexivity|]. split; [vm_compute; reflexivity|].
  split; reflexivity.
Qed.

Lemma outbox_open w :
  is_open w = true ->
  exists i s, ws w = Some i /\ sockets w !! i = Some s /\ outbox w = sent s.
Proof.
  unfold is_open, outbox. destruct (ws w) as [i|]; [|discriminate].
  destruct (sockets w !! i) as [s|] eqn:E; [|discriminate]. intros _.
  exists i, s. auto.
Qed.

Lemma outbox_pushed packed i w w' :
  ws w = Some i -> is_open w = true ->
  ws w' = ws w -> sockets w' = alter (push_sent packed) i (sockets w) ->
  outbox w' = outbox w ++ [packed].
Proof.
  intros Hi Ho Hw Hs. destruct (outbox_open w Ho) as (j & s & Hj & Hl & ->).
  assert (j = i) as -> by congruence.
  unfold outbox. rewrite Hw, Hi, Hs, list_lookup_alter_eq, Hl. reflexivity.
Qed.

(** C2, amended.  A turn that calls [joinRoom] on an open socket, and
    nothing after it, ends with the request sent, [roomId] set to the
    requested room, before any answer, the one-shot subscription to
    [room_joined] in place and the promise pending.  What follows the
    [await] in [send] runs after the turn: when the turn goes on to call
    [disconnect], no frame is sent, the promise is rejected with a
    TypeError, and [roomId] and the subscriptions are as they were.
    [joinRoom] leaves the state unchanged and fails at once when no
    transport is open.  A [room_joined] message that is handled sets
    [roomId] to the [roomId] of the message, and it is handled to the end
    when no subscriber emits. *)
Theorem roomId_assignment room w :
  (forall n,
      is_open w = true -> (1 <= n)%nat ->
      exists w',
        step n (Call (CJoinRoom room)) w = Some w'
        /\ roomId w' = room
        /\ promises w' = promises w ++ [Pending]
        /\ outbox w'
           = outbox w ++ [_pack (VObj [(str "type", VStr (str "join_room"));
                                       (str "roomId", room)])]
        /\ subscribers (str "room_joined") w'
           = subscribers (str "room_joined") w
             ++ [Handler (ByOnce (next_closure w))
                   (OnceWrapper (str "room_joined")
                      (Settle (length (promises w)) None))]
        /\ jobs w' = jobs w)
  /\ (forall n,
         is_open w = true -> (3 <= n)%nat ->
         exists w',
           step n (Turn [CJoinRoom room; CDisconnect]) w = Some w'
           /\ roomId w' = roomId w
           /\ promises w' = promises w ++ [Failed TypeError]
           /\ sent <$> sockets w' = sent <$> sockets w
           /\ listeners w' = listeners w
           /\ jobs w' = jobs w)
  /\ (is_open w = false -> joinRoom room w = (w, Rejected not_connected))
  /\ (forall n msg w' c,
         prop (str "type") msg = VStr (str "room_joined") ->
         _handleMessage n msg w = Some (w', c) ->
         roomId w' = prop (str "roomId") msg)
  /\ (forall B L n msg,
         prop (str "type") msg = VStr (str "room_joined") ->
         tame_world B L w -> (L + B + 5 <= n)%nat ->
         exists w', _handleMessage n msg w = Some (w', Normal)).
Proof.
  split; [|split; [|split; [|split]]].
  - intros n Ho Hn. rewrite step_call by (assumption || discriminate).
    cbn [method]. unfold joinRoom.
    destruct (turn_send_with (KJoin room)
                (VObj [(str "type", VStr (str "join_room"));
                       (str "roomId", room)]) w Ho) as (i & Hi & ->).
    eexists. split; [reflexivity|].
    split; [reflexivity|]. split; [reflexivity|].
    split; [now apply (outbox_pushed _ i w)|].
    split; [|reflexivity].
    unfold subscribers. cbn. rewrite lookup_insert_eq. reflexivity.
  - intros n Ho Hn. cbn [step].
    rewrite run_stmts_methods
      by (repeat constructor; discriminate || (simpl; lia)).
    cbn [foldl method finish fmap option_fmap option_map fst].
    unfold joinRoom, send_with, new_promise. rewrite Ho. cbn [negb fst].
    set (j := Transmit _ _ _).
    set (wp := set_promises (promises w ++ [Pending]) w).
    destruct (disconnect_fields (enqueue j wp))
      as (Hws & Hr & Hp & Hl & _ & Hj & Hs).
    rewrite (run_jobs_transmit _ (length (promises w)) (KJoin room) w)
      by exact Hj.
    set (W := set_jobs (jobs w) (disconnect (enqueue j wp))).
    assert (Ews : ws W = None) by exact Hws.
    assert (E : promises W = promises w ++ [Pending]) by exact Hp.
    unfold transmit. rewrite Ews. cbn [fst snd conclude].
    assert (Hset : settle (length (promises w)) (Failed TypeError) W
                   = set_promises (promises w ++ [Failed TypeError]) W).
    { unfold settle. rewrite E, list_lookup_middle by reflexivity.
      rewrite insert_app_r_alt by lia. rewrite Nat.sub_diag. reflexivity. }
    rewrite Hset. eexists. split; [reflexivity|].
    split; [exact Hr|]. split; [reflexivity|].
    split; [exact Hs|]. split; [exact Hl | reflexivity].
  - intros H. unfold joinRoom. now apply send_with_closed.
  - intros n msg w' c Ht. unfold _handleMessage.
    destruct msg; try discriminate Ht. cbn [nullish]. rewrite Ht.
    intros H.
    apply and_then_emit in H as (w1 & _ & H).
    apply and_then_emit in H as (w2 & _ & H).
    replace (is_str (str "connection_established")
                    (VStr (str "room_joined"))) with false in H
      by reflexivity.
    replace (is_str (str "room_joined") (VStr (str "room_joined")))
      with true in H by reflexivity.
    injection H as <- _. reflexivity.
  - intros B L n msg Ht Hw Hn. unfold _handleMessage.
    destruct msg; try discriminate Ht. cbn [nullish]. rewrite Ht.
    destruct (emit_tame B L n (VStr (str "room_joined")) (VObj l)
                (console_push (LogReceived (VStr (str "room_joined"))) w))
      as (w1 & -> & Hw1 & _); [exact Hw | exact Hn |].
    cbn [and_then].
    destruct (emit_tame B L n (VStr (str "message")) (VObj l) w1 Hw1 Hn)
      as (w2 & -> & _ & _).
    cbn [and_then].
    replace (is_str (str "connection_established")
                    (VStr (str "room_joined"))) with false by reflexivity.
    replace (is_str (str "room_joined") (VStr (str "room_joined")))
      with true by reflexivity.
    eauto.
Qed.

Lemma roomId_assignment_witness :
  is_open online = true
  /\ exists w',
       step 8 (Turn [CJoinRoom (VStr (str "r1")); CDisconnect]) online
       = Some w'
       /\ roomId w' = VNull
       /\ promises w' = [Pending; Failed TypeError]
       /\ sent <$> sockets w' = [[]].
Proof.
  assert (Ho : is_open online = true) by reflexivity.
  split; [exact Ho|].
  destruct (proj1 (proj2 (roomId_assignment (VStr (str "r1")) online))
              8%nat Ho ltac:(lia))
    as (w' & E & Hr & Hp & Hs & _).
  exists w'. split; [exact E|]. split; [exact Hr|].
  split; [exact Hp | exact Hs].
Defined.

(** End to end: a turn that calls [joinRoom('r1')] on a connected client
    transmits [{type:'join_room', roomId:'r1'}]; when
    [{type:'room_joined', roomId:'r1', currentUsers:[]}] arrives, the
    pending call resolves with that payload, [roomId] is ['r1'] and the
    one-shot subscription is gone. *)
Lemma joinRoom_correlation :
  exists w w',
    run 8 [Call (CJoinRoom (VStr (str "r1")))] online = Some w
    /\ sent <$> sockets w
       = [[_pack (VObj [(str "type", VStr (str "join_room"));
                        (str "roomId", VStr (str "r1"))])]]
    /\ promises w !! 1%nat = Some Pending
    /\ run 8 [Message 0 (_pack room_joined_r1)] w = Some w'
    /\ promises w' !! 1%nat = Some (Resolved room_joined_r1)
    /\ roomId w' = VStr (str "r1")
    /\ subscribers (str "room_joined") w' = [].
Proof.
  do 2 eexists. split; [vm_compute; reflexivity|].
  split; [reflexivity|]. split; [reflexivity|].
  split; [vm_compute; reflexivity|]. repeat split; reflexivity.
Qed.

(** ** Frames that do not decode *)

(** C3, as stated, fails: with a subscriber on [error], a frame that is
    not JSON produces no [error] event.  The subscriber is not called and
    nothing is emitted after [connected]; the SyntaxError is the rejection
    of the promise that the [onmessage] handler returned. *)
Lemma decode_failure_emits_no_error_event :
  exists w,
    run 8 (Call (COn (str "error") (ByUser 1) (spy 1)) :: go_online) fresh
    = Some w
    /\ JSON_parse (frame_text garbled) = None
    /\ ws_onmessage 8 garbled w = Some (w, Abrupt SyntaxError)
    /\ run 8 [Message 0 garbled] w = Some w
    /\ tags w = []
    /\ emitted_names w = [VStr (str "connected")].
Proof.
  eexists. split; [vm_compute; reflexivity|].
  repeat split; reflexivity.
Qed.

(** C3, amended. What is parsed is the text of the frame: a text frame
    as it is, a Blob as [blob.text()] reads it, which drops a byte order
    mark at the start, so that a Blob of a mark and JSON is routed where
    the same text frame is not.  A frame whose text cannot be parsed
    affects that message only: the handler ends with the SyntaxError,
    which rejects the promise it returned, and the state is left exactly
    as it was.  So no event is emitted for it, not even [error], no
    subscriber runs, the socket, the [connected] flag and the
    subscriptions are as before, and the frames that follow are handled
    as if the bad one had not arrived. *)
Theorem decode_failure_is_local n frame w :
  JSON_parse (frame_text frame) = None ->
  ws_onmessage n frame w = Some (w, Abrupt SyntaxError)
  /\ (forall i later,
        run n (Message i frame :: later) w = run n later w)
  /\ (forall t,
        frame_text (WBlob (65279 :: t)) = usv t
        /\ _unpack (WText (65279 :: t)) = inl SyntaxError)
  /\ (forall v,
        json_data v = true ->
        _unpack (WBlob (65279 :: ser v)) = inr v).
Proof.
  intros H.
  assert (E : ws_onmessage n frame w = Some (w, Abrupt SyntaxError)).
  { unfold ws_onmessage, _unpack. rewrite H. reflexivity. }
  split; [exact E|]. split; [|split].
  - intros i later. cbn [run step].
    destruct (sockets w !! i); [|reflexivity].
    rewrite E, (finish_none w) by reflexivity. reflexivity.
  - intros t. split; reflexivity.
  - intros v Hv. pose proof (unpack_pack_data v Hv) as Hp.
    unfold _pack, JSON_stringify in Hp.
    rewrite json_data_defined in Hp by assumption.
    unfold _unpack in *. cbn [default from_option id frame_text] in Hp.
    rewrite blob_text_ser in Hp.
    change (frame_text (WBlob (65279 :: ser v))) with (usv (ser v)).
    rewrite usv_paired by apply ser_paired. exact Hp.
Qed.

Lemma decode_failure_is_local_witness :
  JSON_parse (frame_text garbled) = None
  /\ ws_onmessage 0 garbled fresh = Some (fresh, Abrupt SyntaxError).
Proof.
  split; [reflexivity|].
  apply (decode_failure_is_local 0 garbled fresh). reflexivity.
Defined.

(** ** One-shot subscriptions *)

(** The wrapper that [once] registers removes itself, then calls the
    handler. *)
Lemma once_wrapper_removes_first n i event f data w :
  call_handler (S n) (Handler i (OnceWrapper event f)) data w
  = call_handler n (Handler i f) data (off event i w).
Proof. reflexivity. Qed.

(** A one-shot subscriber that is alone on its event is called once by
    two emissions, also when it emits the event again itself. *)
Lemma once_alone_exactly_once :
  exists w w',
    run 8 [Call (COnce (str "E") (spy 1)); emit_E; emit_E] fresh = Some w
    /\ tags w = [1%nat]
    /\ run 20 [Call (COnce (str "E") (echo 1 (str "E"))); emit_E; emit_E] fresh
       = Some w'
    /\ tags w' = [1%nat].
Proof.
  do 2 eexists. split; [vm_compute; reflexivity|].
  split; [reflexivity|]. split; [vm_compute; reflexivity|]. reflexivity.
Qed.

(** C4: the code does not do what the claim says.  With four one-shot
    subscribers on [E], two emissions of [E] call the first and the third,
    then the second: the fourth was registered once and is never called.
    Each wrapper splices itself out of the array that [emit] is walking, so
    the walk skips the subscriber that moves into the freed slot. *)
Theorem once_fourth_subscriber_never_called :
  exists w,
    run 8 (four_once ++ [emit_E; emit_E]) fresh = Some w
    /\ tags w = [1; 3; 2]%nat
    /\ hid <$> subscribers (str "E") w = [ByOnce 3].
Proof.
  eexists. split; [vm_compute; reflexivity|]. split; reflexivity.
Qed.

(** ** Handler isolation *)

(** An error raised by a subscriber does not leave [emit]: whatever the
    subscribers are, [emit] never completes abruptly.  When the
    subscribers of the event are application code that looks at its
    argument and may throw, and so leave the subscriptions alone, [emit]
    returns and every one of them was called in registration order: the
    trace grows by what each records up to its own throw, and the console
    by one line for each throw. *)
Lemma emit_delivers_to_plain_subscribers n event data w :
  (forall w' c, emit n event data w = Some (w', c) -> c = Normal)
  /\ (forall ev,
         event = VStr ev -> calm ev w ->
         (budget (subscribers ev w) <= n)%nat ->
         exists w',
           emit n event data w = Some (w', Normal)
           /\ trace w' = trace w ++ observed data (subscribers ev w)
           /\ console w' = console w ++ complaints ev (subscribers ev w)
           /\ listeners w' = listeners w).
Proof.
  split; [intros w' c; apply emit_normal|].
  intros ev -> Hc Hn. eexists. split; [now apply emit_plain|].
  rewrite deliver_closed_form. repeat split; reflexivity.
Qed.

(** C5: the code does not do what the claim says.  After
    [once('E', f)], where [f] throws, and [on('E', g)], an emission of [E]
    calls [f], catches and logs its error, and does not call [g]: nothing
    is recorded, though [g] was subscribed when the emission began and
    still is when it ends.  The wrapper that [once] made of [f] takes
    itself out of the array that [emit] is walking before it calls [f], so
    [g] moves into the place that the walk has left.  With [on('E', f)]
    in place of [once('E', f)] the same emission does call [g]. *)
Theorem once_thrower_hides_next_subscriber :
  exists w w',
    run 8 [Call (COnce (str "E") (User [SThrow 1]));
           Call (COn (str "E") (ByUser 2) (spy 2))] fresh = Some w
    /\ hid <$> subscribers (str "E") w = [ByOnce 0; ByUser 2]
    /\ emit 8 (VStr (str "E")) VNull w = Some (w', Normal)
    /\ console w' = [LogHandlerError (str "E") (UserError 1)]
    /\ trace w' = []
    /\ subscribers (str "E") w' = [Handler (ByUser 2) (spy 2)]
    /\ exists w'',
         emit 8 (VStr (str "E")) VNull thrower_then_spy = Some (w'', Normal)
         /\ console w'' = [LogHandlerError (str "E") (UserError 1)]
         /\ trace w'' = [(2%nat, VNull)].
Proof.
  do 2 eexists. split; [vm_compute; reflexivity|].
  split; [reflexivity|]. split; [vm_compute; reflexivity|].
  split; [reflexivity|]. split; [reflexivity|]. split; [reflexivity|].
  eexists. split; [vm_compute; reflexivity|]. split; reflexivity.
Qed.

(** ** The router *)

Lemma emit_emitted n event data w w' c :
  emit n event data w = Some (w', c) ->
  exists xs, emitted w' = emitted w ++ (event, data) :: xs.
Proof.
  destruct n as [|n]; [discriminate|]. rewrite emit_S.
  destruct (handlers_of _ _) as [[ev hs]|].
  - intros H. apply (proj1 (proj2 (interp_effects n))) in H.
    apply effects_emitted in H as [xs E]. exists xs.
    rewrite E. cbn. rewrite <- app_assoc. reflexivity.
  - intros [= <- _]. exists []. reflexivity.
Qed.

(** C7. Handling the inbound message
    [{type:'user_joined', userId:7, user:{username:'al'}}] emits, in this
    order, [user_joined] with the message, [message] with the message, and
    [user_presence] with a payload structurally equal to
    [{type:'joined', userId:7, user:{username:'al'}}].  Whatever the
    subscribers do, these three emissions occur in this order.  When no
    subscriber emits (plain application code and the one-shot waits of the
    SDK itself), handling the frame that carries the message returns and
    exactly these three emissions are made. *)
Theorem user_joined_emissions w :
  deep_equal derived_al presence_al = true
  /\ (forall n w' c,
         _handleMessage n user_joined_al w = Some (w', c) ->
         exists xs ys zs,
           emitted w'
           = emitted w
             ++ (VStr (str "user_joined"), user_joined_al) :: xs
             ++ (VStr (str "message"), user_joined_al) :: ys
             ++ (VStr (str "user_presence"), derived_al) :: zs)
  /\ (forall B L n,
         tame_world B L w -> (L + B + 5 <= n)%nat ->
         exists w',
           ws_onmessage n (_pack user_joined_al) w = Some (w', Normal)
           /\ emitted w' = emitted w ++ emissions_al).
Proof.
  split; [reflexivity|]. split.
  - intros n w' c. unfold _handleMessage. cbn [nullish user_joined_al].
    replace (prop (str "type") user_joined_al)
      with (VStr (str "user_joined")) by reflexivity.
    intros H.
    apply and_then_emit in H as (w1 & H1 & H).
    apply and_then_emit in H as (w2 & H2 & H).
    replace (is_str (str "connection_established")
                    (VStr (str "user_joined"))) with false in H
      by reflexivity.
    replace (is_str (str "room_joined") (VStr (str "user_joined")))
      with false in H by reflexivity.
    replace (is_str (str "text_message") (VStr (str "user_joined"))
             || is_str (str "image_message") (VStr (str "user_joined"))
             || is_str (str "file_shared") (VStr (str "user_joined")))
      with false in H by reflexivity.
    replace (is_str (str "user_joined") (VStr (str "user_joined")))
      with true in H by reflexivity.
    apply emit_emitted in H1 as [xs E1].
    apply emit_emitted in H2 as [ys E2].
    apply emit_emitted in H as [zs E3].
    exists xs, ys, zs. rewrite E3, E2, E1. cbn.
    rewrite <- !app_assoc. reflexivity.
  - intros B L n Hw Hn. unfold ws_onmessage.
    replace (_unpack (_pack user_joined_al))
      with (inr user_joined_al : exn + jsval) by (vm_compute; reflexivity).
    unfold _handleMessage. cbn [nullish user_joined_al].
    replace (prop (str "type") user_joined_al)
      with (VStr (str "user_joined")) by reflexivity.
    destruct (emit_tame B L n (VStr (str "user_joined")) user_joined_al
                (console_push (LogReceived (VStr (str "user_joined"))) w))
      as (w1 & -> & Hw1 & E1); [exact Hw | exact Hn |].
    cbn [and_then].
    destruct (emit_tame B L n (VStr (str "message")) user_joined_al w1
                Hw1 Hn) as (w2 & -> & Hw2 & E2).
    cbn [and_then].
    replace (is_str (str "connection_established")
                    (VStr (str "user_joined"))) with false by reflexivity.
    replace (is_str (str "room_joined") (VStr (str "user_joined")))
      with false by reflexivity.
    replace (is_str (str "text_message") (VStr (str "user_joined"))
             || is_str (str "image_message") (VStr (str "user_joined"))
             || is_str (str "file_shared") (VStr (str "user_joined")))
      with false by reflexivity.
    replace (is_str (str "user_joined") (VStr (str "user_joined")))
      with true by reflexivity.
    destruct (emit_tame B L n (VStr (str "user_presence")) derived_al w2
                Hw2 Hn) as (w3 & E & Hw3 & E3).
    exists w3. split; [exact E|].
    rewrite E3, E2, E1. cbn. rewrite <- !app_assoc. reflexivity.
Qed.

Lemma user_joined_emissions_witness :
  exists w',
    ws_onmessage 8 (_pack user_joined_al) online = Some (w', Normal)
    /\ emitted w' = emitted online ++ emissions_al.
Proof.
  apply (proj2 (proj2 (user_joined_emissions online)) 1%nat 1%nat 8%nat).
  - apply (bool_decide_unpack _). vm_compute. exact I.
  - vm_compute. lia.
Defined.

(** ** At most one reconnect timer *)



(** When the close handler returns with auto-reconnect on, the client
    holds a timer. *)
Lemma ws_onclose_armed n s w w' c :
  auto_reconnect w -> ws_onclose n s w = Some (w', c) ->
  is_Some (reconnectTimer w').
Proof.
  unfold auto_reconnect, ws_onclose. intros Ha H.
  apply and_then_emit in H as (w1 & H1 & H).
  apply emit_effects, effects_options in H1.
  change (options (console_push LogDisconnected w1)) with (options w1) in H.
  rewrite H1 in H. change (options (set_connected false w)) with (options w)
    in H.
  rewrite Ha in H. cbn [andb] in H.
  destruct (bool_decide _) eqn:Hb; cbn [negb] in H; injection H as <- _.
  - now apply bool_decide_eq_true in Hb.
  - cbn. eauto.
Qed.

Lemma step_close_armed n i w w' :
  auto_reconnect w -> is_Some (sockets w !! i) ->
  step n (Close i) w = Some w' -> is_Some (reconnectTimer w').
Proof.
  intros Ha [s Hs]. cbn [step]. rewrite Hs.
  destruct (ws_onclose n s (mark CLOSED i w)) as [[w1 c]|] eqn:H;
    cbn [finish fmap option_fmap option_map fst]; intros [= <-].
  destruct (steady_run_jobs (length (jobs w)) w1)
    as (_ & _ & _ & _ & -> & _).
  apply (ws_onclose_armed n s (mark CLOSED i w) w1 c Ha H).
Qed.






(** ** Explicit disconnect *)

Lemma disconnect_clears_timer w : reconnectTimer (disconnect w) = None.
Proof.
  unfold disconnect.
  destruct (reconnectTimer w) eqn:E; destruct (ws _); cbn; auto.
Qed.

(** [disconnect] leaves no mark that the close handler could see: with
    auto-reconnect on, the close event of any socket after [disconnect]
    arms a timer. *)
Lemma close_after_disconnect_arms n i w w' :
  auto_reconnect w -> is_Some (sockets w !! i) ->
  step n (Close i) (disconnect w) = Some w' ->
  reconnectTimer (disconnect w) = None /\ is_Some (reconnectTimer w').
Proof.
  intros Ha Hi H. split; [apply disconnect_clears_timer|].
  pose proof (fx_disconnect w) as Hfx.
  eapply step_close_armed; [| |exact H].
  - unfold auto_reconnect. rewrite (effects_options _ _ Hfx). exact Ha.
  - apply lookup_lt_is_Some. apply lookup_lt_is_Some in Hi.
    apply effects_sockets in Hfx. lia.
Qed.

(** C1: the code does not do what the claim says.  A client with
    auto-reconnect on (the default) connects, the transport opens, the
    application calls [disconnect()], and the close event of the socket that
    [disconnect] closed fires: the close handler arms a reconnect timeout,
    and when it expires the client connects again. *)
Theorem disconnect_then_close_rearms :
  exists w w',
    run 8 (go_online ++ [Call CDisconnect; Close 0]) fresh = Some w
    /\ reconnectTimer w = Some 1%positive
    /\ (timers w).*1 = [1%positive]
    /\ run 8 [Timeout 1%positive] w = Some w'
    /\ ws w' = Some 1%nat
    /\ length (sockets w') = 2%nat.
Proof.
  do 2 eexists. split; [vm_compute; reflexivity|].
  split; [reflexivity|]. split; [reflexivity|].
  split; [vm_compute; reflexivity|]. split; reflexivity.
Qed.

(** ** The constructor *)

Lemma obj_get_obj_set k k' v o :
  obj_get k (obj_set k' v o)
  = if decide (k' = k) then Some v else obj_get k o.
Proof.
  induction o as [|[k0 v0] o IH]; cbn.
  - reflexivity.
  - destruct (decide (k0 = k')) as [->|Hne]; cbn.
    + destruct (decide (k' = k)); reflexivity.
    + destruct (decide (k0 = k)) as [->|]; [|exact IH].
      destruct (decide (k' = k)); [congruence | reflexivity].
Qed.

Lemma obj_get_absent k (o : list (text * jsval)) :
  k ∉ o.*1 -> obj_get k o = None.
Proof.
  induction o as [|[k0 v0] o IH]; cbn; [reflexivity|].
  intros H. apply not_elem_of_cons in H as [H1 H2].
  destruct (decide (k0 = k)); [congruence | auto].
Qed.

Lemma spread_absent given :
  forall o k, k ∉ given.*1 -> obj_get k (spread given o) = obj_get k o.
Proof.
  unfold spread. induction given as [|[k0 v0] given IH]; intros o k H; cbn.
  - reflexivity.
  - cbn in H. apply not_elem_of_cons in H as [H1 H2].
    rewrite IH by exact H2. rewrite obj_get_obj_set.
    destruct (decide (k0 = k)); [congruence | reflexivity].
Qed.

Lemma spread_given given :
  NoDup given.*1 ->
  forall o k v, (k, v) ∈ given -> obj_get k (spread given o) = Some v.
Proof.
  induction given as [|[k0 v0] given IH]; intros Hnd o k v Hin.
  - inversion Hin.
  - cbn in Hnd. apply NoDup_cons in Hnd as [Hk0 Hnd].
    apply elem_of_cons in Hin as [[= -> ->]|Hin].
    + change (spread ((k0, v0) :: given) o)
        with (spread given (obj_set k0 v0 o)).
      rewrite spread_absent by exact Hk0. rewrite obj_get_obj_set.
      destruct (decide (k0 = k0)); [reflexivity | congruence].
    + apply (IH Hnd (obj_set k0 v0 o)). exact Hin.
Qed.

Lemma constructor_options given :
  options (constructor given) = spread given (default_options given).
Proof. reflexivity. Qed.

(** X1. Every option given to the constructor is stored as given, whatever
    its name and its value: for [serverUrl], [autoReconnect] and
    [reconnectDelay] the spread [...options] comes after the defaults and
    replaces what [||] and [!== false] computed, also by a falsy value or by
    [undefined]. *)
Theorem constructor_given_wins given k v :
  NoDup given.*1 -> (k, v) ∈ given ->
  obj_get k (options (constructor given)) = Some v.
Proof.
  intros Hnd Hin. rewrite constructor_options. now apply spread_given.
Qed.

Lemma constructor_given_wins_witness :
  obj_get (str "reconnectDelay")
          (options (constructor [(str "reconnectDelay", VNum 0)]))
  = Some (VNum 0).
Proof.
  apply constructor_given_wins.
  - apply (bool_decide_unpack _). vm_compute. exact I.
  - left.
Defined.

(** X2. An option that is not given takes its default: the server
    ['ws://localhost:3000'], auto-reconnect on, a delay of 3000. *)
Theorem constructor_defaults given :
  (str "serverUrl" ∉ given.*1 ->
   prop (str "serverUrl") (VObj (options (constructor given)))
   = VStr (str "ws://localhost:3000"))
  /\ (str "autoReconnect" ∉ given.*1 ->
      prop (str "autoReconnect") (VObj (options (constructor given)))
      = VBool true)
  /\ (str "reconnectDelay" ∉ given.*1 ->
      prop (str "reconnectDelay") (VObj (options (constructor given)))
      = VNum 3000).
Proof.
  rewrite constructor_options. unfold prop.
  split; [|split]; intros H; rewrite spread_absent by exact H;
    unfold default_options, prop; rewrite (obj_get_absent _ given H);
    reflexivity.
Qed.

Lemma constructor_defaults_witness :
  prop (str "reconnectDelay")
       (VObj (options (constructor [(str "serverUrl", VStr (str "ws://h"))])))
  = VNum 3000.
Proof.
  apply (proj2 (proj2 (constructor_defaults
                         [(str "serverUrl", VStr (str "ws://h"))]))).
  apply (bool_decide_unpack _). vm_compute. exact I.
Defined.

(** X3. Whether a new client reconnects by itself: it does unless
    [autoReconnect] is given with a falsy value.  [false] turns it off, and
    so do [0], [null], the empty string and an explicit [undefined]. *)
Theorem constructor_auto_reconnect given :
  NoDup given.*1 ->
  truthy (prop (str "autoReconnect") (VObj (options (constructor given))))
  = match obj_get (str "autoReconnect") given with
    | Some v => truthy v
    | None => true
    end.
Proof.
  intros Hnd. rewrite constructor_options. unfold prop.
  destruct (obj_get (str "autoReconnect") given) as [v|] eqn:E.
  - assert (Hin : (str "autoReconnect", v) ∈ given).
    { clear Hnd. induction given as [|[k0 v0] given IH]; [discriminate|].
      cbn in E. destruct (decide (k0 = str "autoReconnect")) as [->|].
      - injection E as ->. left.
      - right. auto. }
    rewrite (spread_given given Hnd _ _ _ Hin). reflexivity.
  - assert (Hout : str "autoReconnect" ∉ given.*1).
    { clear Hnd.
      induction given as [|[k0 v0] given IH]; [apply not_elem_of_nil|].
      cbn in E. destruct (decide (k0 = str "autoReconnect")); [discriminate|].
      cbn. apply not_elem_of_cons. split; [congruence | auto]. }
    rewrite spread_absent by exact Hout.
    unfold default_options, prop. rewrite E. reflexivity.
Qed.

Lemma constructor_auto_reconnect_witness :
  truthy (prop (str "autoReconnect")
            (VObj (options (constructor [(str "autoReconnect", VNull)]))))
  = false.
Proof.
  apply (constructor_auto_reconnect [(str "autoReconnect", VNull)]).
  apply (bool_decide_unpack _). vm_compute. exact I.
Defined.

(** ** Subscribing and unsubscribing *)

Lemma index_of_absent i hs : i ∉ hid <$> hs -> index_of i hs = None.
Proof.
  induction hs as [|h hs IH]; cbn; [reflexivity|].
  intros H. apply not_elem_of_cons in H as [H1 H2].
  destruct (decide (hid h = i)); [congruence|]. now rewrite IH.
Qed.

Lemma index_of_first pre h post :
  hid h ∉ hid <$> pre ->
  index_of (hid h) (pre ++ h :: post) = Some (length pre).
Proof.
  induction pre as [|h0 pre IH]; cbn.
  - intros _. destruct (decide (hid h = hid h)); [reflexivity | congruence].
  - intros H. apply not_elem_of_cons in H as [H1 H2].
    destruct (decide (hid h0 = hid h)); [congruence|]. now rewrite IH.
Qed.

Lemma subscribers_Some ev w hs :
  listeners w !! ev = Some hs -> subscribers ev w = hs.
Proof. unfold subscribers. now intros ->. Qed.

Lemma subscribers_on ev h w :
  subscribers ev (on ev h w) = subscribers ev w ++ [h].
Proof. unfold subscribers, on. cbn. now rewrite lookup_insert_eq. Qed.

Lemma subscribers_on_ne ev ev' h w :
  ev' <> ev -> subscribers ev' (on ev h w) = subscribers ev' w.
Proof.
  intros H. unfold subscribers, on. cbn. now rewrite lookup_insert_ne.
Qed.

Lemma subscribers_off_ne ev ev' i w :
  ev' <> ev -> subscribers ev' (off ev i w) = subscribers ev' w.
Proof.
  intros H. unfold subscribers, off.
  destruct (listeners w !! ev) as [hs|]; [|reflexivity].
  destruct (index_of i hs); [|reflexivity].
  cbn. now rewrite lookup_insert_ne.
Qed.

Lemma subscribers_off_first ev h pre post w :
  subscribers ev w = pre ++ h :: post -> hid h ∉ hid <$> pre ->
  subscribers ev (off ev (hid h) w) = pre ++ post.
Proof.
  unfold subscribers, off. intros E H.
  destruct (listeners w !! ev) as [hs|] eqn:El; cbn in E;
    [subst hs | now destruct pre].
  rewrite index_of_first by exact H. cbn.
  rewrite lookup_insert_eq. cbn. apply delete_middle.
Qed.

(** X4. [off] removes one registration, the oldest one of that handler: the
    subscribers before it and after it stay, in order, also later
    registrations of the same handler, and the other events keep their
    subscribers. *)
Theorem off_removes_first ev h pre post w :
  subscribers ev w = pre ++ h :: post -> hid h ∉ hid <$> pre ->
  subscribers ev (off ev (hid h) w) = pre ++ post
  /\ forall ev', ev' <> ev ->
       subscribers ev' (off ev (hid h) w) = subscribers ev' w.
Proof.
  intros E H. split; [now apply subscribers_off_first|].
  intros ev' Hne. now apply subscribers_off_ne.
Qed.

Lemma off_removes_first_witness :
  subscribers (str "E") (off (str "E") (ByUser 1) thrower_then_spy)
  = [Handler (ByUser 2) (spy 2)].
Proof.
  apply (off_removes_first (str "E") (Handler (ByUser 1) (User [SThrow 1]))
           [] [Handler (ByUser 2) (spy 2)] thrower_then_spy).
  - reflexivity.
  - apply (bool_decide_unpack _). vm_compute. exact I.
Defined.

(** X5. [off] for a handler that is not subscribed to the event, or for an
    event that nobody ever subscribed to, changes nothing at all. *)
Theorem off_not_subscribed ev i w :
  i ∉ hid <$> subscribers ev w -> off ev i w = w.
Proof.
  unfold subscribers, off. intros H.
  destruct (listeners w !! ev) as [hs|]; [|reflexivity].
  cbn in H. now rewrite index_of_absent.
Qed.

Lemma off_not_subscribed_witness :
  off (str "F") (ByUser 1) thrower_then_spy = thrower_then_spy.
Proof.
  apply off_not_subscribed.
  apply (bool_decide_unpack _). vm_compute. exact I.
Defined.

(** X6. Subscribing and then unsubscribing leaves every event with the
    subscribers it had, for [on] followed by [off] of a handler that was
    not subscribed before, and for [once] followed by the unsubscribe
    function it returned. *)
Theorem subscribe_then_unsubscribe ev f w :
  (forall i, i ∉ hid <$> subscribers ev w ->
     forall ev',
       subscribers ev' (off ev i (on ev (Handler i f) w)) = subscribers ev' w)
  /\ (ByOnce (next_closure w) ∉ hid <$> subscribers ev w ->
      forall ev',
        subscribers ev' (off ev (once ev f w).2 (once ev f w).1)
        = subscribers ev' w).
Proof.
  assert (H : forall i g w0,
             i ∉ hid <$> subscribers ev w0 ->
             forall ev',
               subscribers ev' (off ev i (on ev (Handler i g) w0))
               = subscribers ev' w0).
  { intros i g w0 Hi ev'. destruct (decide (ev' = ev)) as [->|Hne].
    - rewrite (subscribers_off_first ev (Handler i g) (subscribers ev w0) []).
      + apply app_nil_r.
      + apply subscribers_on.
      + exact Hi.
    - rewrite subscribers_off_ne, subscribers_on_ne by exact Hne.
      reflexivity. }
  split; [intros i; apply H|].
  intros Hi ev'. unfold once. cbn [fst snd].
  apply (H (ByOnce (next_closure w)) (OnceWrapper ev f)
           (set_next_closure (S (next_closure w)) w)).
  exact Hi.
Qed.

Lemma subscribe_then_unsubscribe_witness :
  subscribers (str "E")
    (off (str "E") (ByUser 3)
       (on (str "E") (Handler (ByUser 3) (spy 3)) thrower_then_spy))
  = subscribers (str "E") thrower_then_spy.
Proof.
  apply (proj1 (subscribe_then_unsubscribe (str "E") (spy 3)
                  thrower_then_spy) (ByUser 3)).
  apply (bool_decide_unpack _). vm_compute. exact I.
Defined.

(** ** Subscribing and emitting *)





(** One turn of [emit] on an event with a single subscriber. *)
Lemma emit_single n ev h data w w1 c :
  listeners w !! ev = Some [h] ->
  call_handler n h data (log_emit (VStr ev) data w) = Some (w1, c) ->
  emit (S (S n)) (VStr ev) data w
  = Some (match c with
          | Normal => w1
          | Abrupt e => console_push (LogHandlerError ev e) w1
          end, Normal).
Proof.
  intros Hl Hc. rewrite emit_S. unfold handlers_of.
  change (listeners (log_emit (VStr ev) data w)) with (listeners w).
  rewrite Hl. cbn [fmap option_fmap option_map length].
  rewrite for_each_S. destruct (decide (1 <= 0)%nat); [lia|].
  change (listeners (log_emit (VStr ev) data w)) with (listeners w).
  rewrite Hl. cbn [default from_option id lookup list_lookup].
  rewrite Hc. destruct n as [|n]; [discriminate Hc|].
  destruct c; rewrite for_each_S; destruct (decide (1 <= 1)%nat);
    (reflexivity || lia).
Qed.

Lemma once_listeners ev f w :
  subscribers ev w = [] ->
  listeners (once ev f w).1 !! ev
  = Some [Handler (ByOnce (next_closure w)) (OnceWrapper ev f)].
Proof.
  intros E. unfold once, on. cbn.
  rewrite lookup_insert_eq. unfold subscribers in E. now rewrite E.
Qed.

Lemma off_single ev h w :
  listeners w !! ev = Some [h] -> subscribers ev (off ev (hid h) w) = [].
Proof.
  intros Hl.
  apply (subscribers_off_first ev h [] [] w);
    [now apply subscribers_Some | apply not_elem_of_nil].
Qed.




(** ** Frames sent *)

Lemma settle_last ps p st w :
  promises w = ps ++ [Pending] -> p = length ps ->
  settle p st w = set_promises (ps ++ [st]) w.
Proof.
  intros E ->. unfold settle. rewrite E, list_lookup_middle by reflexivity.
  rewrite insert_app_r_alt by lia. rewrite Nat.sub_diag. reflexivity.
Qed.

Lemma is_open_pushed packed i w w' :
  ws w = Some i -> ws w' = ws w ->
  sockets w' = alter (push_sent packed) i (sockets w) ->
  is_open w' = is_open w.
Proof.
  intros Hi Hw Hs. unfold is_open.
  rewrite Hw, Hi, Hs, list_lookup_alter_eq.
  destruct (sockets w !! i); reflexivity.
Qed.

(** A turn that calls one async method on an open socket, and nothing
    else: the state when the turn ends. *)
Lemma step_request n c k message w :
  is_open w = true -> (1 <= n)%nat ->
  (forall event data, c <> CEmit event data) ->
  method c w = (send_with k message w).1 ->
  exists i,
    ws w = Some i
    /\ step n (Call c) w
       = Some (conclude (length (promises w)) k Normal
                 (set_sockets
                    (alter (push_sent (_pack message)) i (sockets w))
                    (set_promises (promises w ++ [Pending]) w))).
Proof.
  intros Ho Hn Hc Hm. rewrite step_call by assumption. rewrite Hm.
  destruct (turn_send_with k message w Ho) as (i & Hi & ->). eauto.
Qed.

Lemma sends_request n c k message w :
  is_open w = true -> (1 <= n)%nat ->
  (forall event data, c <> CEmit event data) ->
  method c w = (send_with k message w).1 ->
  sends n c message (at_end_of_turn k) w.
Proof.
  intros Ho Hn Hc Hm.
  destruct (step_request n c k message w Ho Hn Hc Hm) as (i & Hi & E).
  eexists. split; [exact E|].
  set (w1 := set_sockets _ _).
  assert (Ho1 : outbox w1 = outbox w ++ [_pack message])
    by now apply (outbox_pushed _ i w).
  destruct k; cbn [conclude at_end_of_turn];
    rewrite ?(settle_last (promises w)) by reflexivity;
    (split; [exact Ho1 | split; reflexivity]).
Qed.

(** X9. A turn that calls [send] on an open connection, and nothing
    after it, hands exactly one frame to the current socket, the encoding
    of the message, after the frames sent before; the promise of the call
    is resolved, the other sockets and all other fields of the client stay
    as they are, and the connection is still open.  The frame is handed
    over after the turn: when the turn goes on to call [disconnect], no
    socket gets a frame and the promise is rejected with a TypeError. *)
Theorem send_appends_frame n message w :
  is_open w = true -> (3 <= n)%nat ->
  (exists w',
      step n (Call (CSend message)) w = Some w'
      /\ outbox w' = outbox w ++ [_pack message]
      /\ (forall i j, ws w = Some i -> j <> i ->
            sockets w' !! j = sockets w !! j)
      /\ promises w' = promises w ++ [Resolved VUndef]
      /\ set_promises (promises w) (set_sockets (sockets w) w') = w
      /\ is_open w' = true)
  /\ (exists w',
         step n (Turn [CSend message; CDisconnect]) w = Some w'
         /\ sent <$> sockets w' = sent <$> sockets w
         /\ promises w' = promises w ++ [Failed TypeError]
         /\ is_open w' = false).
Proof.
  intros Ho Hn. split.
  - destruct (step_request n (CSend message) KSend message w Ho)
      as (i & Hi & ->); [lia | discriminate | |].
    { cbn [method]. unfold send.
      destruct (send_with KSend message w) as [w1 [| |]]; reflexivity. }
    cbn [conclude]. rewrite (settle_last (promises w)) by reflexivity.
    eexists. split; [reflexivity|].
    split; [now apply (outbox_pushed _ i w)|].
    split; [|split; [reflexivity|split]].
    + intros i' j Hi' Hne. cbn. rewrite Hi in Hi'. injection Hi' as <-.
      apply list_lookup_alter_ne. congruence.
    + destruct w; reflexivity.
    + rewrite <- Ho. now apply (is_open_pushed (_pack message) i).
  - cbn [step].
    rewrite run_stmts_methods
      by (repeat constructor; discriminate || (simpl; lia)).
    cbn [foldl method finish fmap option_fmap option_map fst].
    unfold send, send_with, new_promise. rewrite Ho. cbn [negb fst].
    set (j := Transmit _ _ _).
    set (wp := set_promises (promises w ++ [Pending]) w).
    destruct (disconnect_fields (enqueue j wp))
      as (Hws & Hr & Hp & Hl & _ & Hj & Hs).
    rewrite (run_jobs_transmit _ (length (promises w)) KSend w)
      by exact Hj.
    set (W := set_jobs (jobs w) (disconnect (enqueue j wp))).
    assert (Ews : ws W = None) by exact Hws.
    assert (E : promises W = promises w ++ [Pending]) by exact Hp.
    unfold transmit. rewrite Ews. cbn [fst snd conclude].
    rewrite (settle_last (promises w)) by (exact E || reflexivity).
    eexists. split; [reflexivity|].
    split; [exact Hs|]. split; [reflexivity|].
    unfold is_open. cbn [ws set_promises]. now rewrite Ews.
Qed.

Lemma send_appends_frame_witness :
  is_open online = true
  /\ exists w',
       step 8 (Call (CSend (VStr (str "hi")))) online = Some w'
       /\ outbox w' = outbox online ++ [_pack (VStr (str "hi"))].
Proof.
  assert (Ho : is_open online = true) by reflexivity.
  split; [exact Ho|].
  destruct (proj1 (send_appends_frame 8 (VStr (str "hi")) online Ho
                     ltac:(lia)))
    as (w' & E & Hb & _).
  exists w'. split; [exact E | exact Hb].
Defined.

(** X10. The frame that each request puts on an open connection when it
    is called in a turn of its own, with the defaults of the parameters
    that were not given: one frame for each call, in the layout below.
    When the turn ends the promise of a call that does not wait for an
    answer is resolved, with [{success: true}] or, for [broadcastState],
    with [undefined]; the promise of [joinRoom], [getMessages] and
    [getFiles] is pending. *)
Theorem request_frames n w :
  is_open w = true -> (1 <= n)%nat ->
  (forall room,
      sends n (CJoinRoom room)
        (VObj [(str "type", VStr (str "join_room"));
               (str "roomId", room)])
        Pending w)
  /\ (forall content type,
         type = VUndef \/ type = VStr (str "text") ->
         sends n (CSendMessage content type)
           (VObj [(str "type", VStr (str "text_message"));
                  (str "content", content)])
           (Resolved success) w)
  /\ (forall filename base64Data caption,
         sends n (CSendImage filename base64Data caption)
           (VObj [(str "type", VStr (str "image_message"));
                  (str "filename", filename);
                  (str "data", base64Data);
                  (str "caption", param (VStr []) caption)])
           (Resolved success) w)
  /\ (forall filename base64Data path description,
         sends n (CUploadFile filename base64Data path description)
           (VObj [(str "type", VStr (str "file_upload_complete"));
                  (str "filename", filename);
                  (str "data", base64Data);
                  (str "path", param (VStr []) path);
                  (str "description", param (VStr []) description)])
           (Resolved success) w)
  /\ (forall limit before,
         sends n (CGetMessages limit before)
           (VObj [(str "type", VStr (str "get_messages"));
                  (str "limit", param (VNum 50) limit);
                  (str "before", param VNull before)])
           Pending w)
  /\ (forall path,
         sends n (CGetFiles path)
           (VObj [(str "type", VStr (str "get_files"));
                  (str "path", param (VStr []) path)])
           Pending w)
  /\ (forall appName state now,
         sends n (CBroadcastState appName state now)
           (VObj [(str "type", VStr (str "app_state_broadcast"));
                  (str "appName", appName);
                  (str "state", state);
                  (str "timestamp", VNum now)])
           (Resolved VUndef) w).
Proof.
  intros Ho Hn.
  repeat split; intros.
  - now apply (sends_request n _ (KJoin room)).
  - apply (sends_request n _ (KReturn success));
      try assumption; try discriminate.
    cbn [method]. unfold sendMessage.
    destruct H as [-> | ->]; cbn [param is_str];
      rewrite bool_decide_eq_true_2 by reflexivity; reflexivity.
  - now apply (sends_request n _ (KReturn success)).
  - now apply (sends_request n _ (KReturn success)).
  - now apply (sends_request n _
                 (KAsk (str "message_history") (str "messages"))).
  - now apply (sends_request n _ (KAsk (str "file_list") (str "files"))).
  - now apply (sends_request n _ (KReturn VUndef)).
Qed.

Lemma request_frames_witness :
  is_open online = true
  /\ sends 8 (CGetMessages VUndef VUndef)
        (VObj [(str "type", VStr (str "get_messages"));
               (str "limit", VNum 50);
               (str "before", VNull)])
        Pending online.
Proof.
  assert (Ho : is_open online = true) by reflexivity.
  split; [exact Ho|].
  exact (proj1 (proj2 (proj2 (proj2 (proj2
           (request_frames 8 online Ho ltac:(lia))))))
           VUndef VUndef).
Defined.

(** ** What the codec does with undefined *)

Lemma ser_members_defined first l :
  ser_members ser first (List.filter defined l) = ser_members ser first l.
Proof.
  revert first. induction l as [|[k v] l IH]; intros first; [reflexivity|].
  cbn [List.filter]. unfold defined at 1. cbn [snd].
  destruct (is_undef v) eqn:E; cbn [negb ser_members]; rewrite E, IH;
    reflexivity.
Qed.

Lemma ser_elems_holes l :
  ser_elems ser (hole_to_null <$> l) = ser_elems ser l.
Proof.
  induction l as [|v l IH]; [reflexivity|].
  cbn [fmap list_fmap ser_elems]. cbn [fmap] in IH. rewrite IH.
  destruct l; destruct v; reflexivity.
Qed.

Lemma filter_defined_data l :
  NoDup l.*1 -> forallb (fun kv => json_data_or_undefined kv.2) l = true ->
  json_data (VObj (List.filter defined l)) = true.
Proof.
  intros Hnd Hd. cbn [json_data]. apply andb_true_iff. split.
  - apply bool_decide_eq_true. clear Hd.
    induction l as [|[k v] l IH]; [constructor|].
    cbn in Hnd. apply NoDup_cons in Hnd as [Hk Hnd].
    cbn [List.filter]. destruct (defined (k, v)); [|auto].
    cbn. apply NoDup_cons. split; [|auto].
    intros Hin. apply Hk. clear -Hin.
    induction l as [|[k0 v0] l IH]; [inversion Hin|].
    cbn [List.filter] in Hin. cbn. destruct (defined (k0, v0)).
    + cbn in Hin. apply elem_of_cons in Hin as [->|Hin];
        [left | right; auto].
    + right. auto.
  - clear Hnd. induction l as [|[k v] l IH]; [reflexivity|].
    cbn in Hd. apply andb_true_iff in Hd as [Hv Hd].
    cbn [List.filter]. unfold defined at 1. cbn [snd].
    unfold json_data_or_undefined in Hv.
    destruct (is_undef v); cbn [negb]; [auto|].
    cbn [forallb snd]. cbn in Hv. rewrite Hv. cbn. auto.
Qed.

Lemma holes_data l :
  forallb json_data_or_undefined l = true ->
  json_data (VArr (hole_to_null <$> l)) = true.
Proof.
  cbn [json_data]. induction l as [|v l IH]; [reflexivity|].
  cbn. intros H. apply andb_true_iff in H as [Hv Hl].
  cbn [fmap] in IH. rewrite IH by exact Hl.
  unfold json_data_or_undefined, hole_to_null in *.
  destruct (is_undef v); cbn in *; [reflexivity | now rewrite Hv].
Qed.

(** X11. [undefined] does not survive the wire.  A property whose value is
    [undefined] is left out of the encoded object, so the decoded message
    lacks the key; an array element that is [undefined] comes back as
    [null]; and the encoding of [undefined] itself is a frame that
    [_unpack] rejects. *)
Theorem undefined_on_the_wire :
  (forall l,
      NoDup l.*1 ->
      forallb (fun kv => json_data_or_undefined kv.2) l = true ->
      _unpack (_pack (VObj l)) = inr (VObj (List.filter defined l)))
  /\ (forall l,
         forallb json_data_or_undefined l = true ->
         _unpack (_pack (VArr l)) = inr (VArr (hole_to_null <$> l)))
  /\ _unpack (_pack VUndef) = inl SyntaxError.
Proof.
  split; [|split].
  - intros l Hnd Hd.
    pose proof (unpack_pack_data _ (filter_defined_data l Hnd Hd)) as H.
    assert (E : _pack (VObj (List.filter defined l)) = _pack (VObj l)).
    { unfold _pack, JSON_stringify. cbn [is_undef default from_option id ser].
      now rewrite ser_members_defined. }
    rewrite <- E. exact H.
  - intros l Hd.
    pose proof (unpack_pack_data _ (holes_data l Hd)) as H.
    assert (E : _pack (VArr (hole_to_null <$> l)) = _pack (VArr l)).
    { unfold _pack, JSON_stringify. cbn [is_undef default from_option id ser].
      now rewrite ser_elems_holes. }
    rewrite <- E. exact H.
  - vm_compute. reflexivity.
Qed.

Lemma undefined_on_the_wire_witness :
  _unpack (_pack (VObj [(str "type", VStr (str "join_room"));
                        (str "roomId", VUndef)]))
  = inr (VObj [(str "type", VStr (str "join_room"))]).
Proof.
  apply (proj1 undefined_on_the_wire
           [(str "type", VStr (str "join_room")); (str "roomId", VUndef)]).
  - apply (bool_decide_unpack _). vm_compute. exact I.
  - reflexivity.
Defined.

(** ** disconnect *)

(** X12. Calling [disconnect] twice is calling it once. *)
Theorem disconnect_idempotent w : disconnect (disconnect w) = disconnect w.
Proof.
  destruct w as [o [i|] c r u l [t|] cn ss ts nt ps nc co tr em];
    reflexivity.
Qed.

Lemma disconnect_ws w : ws (disconnect w) = None.
Proof.
  destruct w as [o [i|] c r u l [t|] cn ss ts nt ps nc co tr em];
    reflexivity.
Qed.

Lemma disconnect_not_open w : is_open (disconnect w) = false.
Proof. unfold is_open. now rewrite disconnect_ws. Qed.

(** X13. What [disconnect] does and what it leaves: the connection is not
    open afterwards, so that every [send] is refused; the state reported is
    disconnected, with the client id, the room and the user it had (they
    are not cleared); of the sockets only the current one is closed; the
    subscriptions stay. *)
Theorem disconnect_closes w :
  is_open (disconnect w) = false
  /\ (forall message,
         send message (disconnect w) = (disconnect w, Abrupt not_connected))
  /\ getState (disconnect w)
     = VObj [(str "connected", VBool false); (str "clientId", clientId w);
             (str "roomId", roomId w); (str "user", user w)]
  /\ (forall i, ws w = Some i ->
        sockets (disconnect w) = alter socket_close i (sockets w))
  /\ (ws w = None -> sockets (disconnect w) = sockets w)
  /\ listeners (disconnect w) = listeners w.
Proof.
  split; [apply disconnect_not_open|].
  split; [intros; apply send_closed, disconnect_not_open|].
  unfold disconnect, getState.
  destruct (reconnectTimer w); destruct (ws w) eqn:E; cbn;
    rewrite ?E; cbn; repeat split; congruence.
Qed.

Lemma timers_ok_disconnect w :
  timers_ok w -> timers (disconnect w) = [].
Proof.
  intros H. unfold disconnect.
  assert (E : timers (match reconnectTimer w with
                      | Some t => set_reconnectTimer None (clearTimeout t w)
                      | None => w
                      end) = []).
  { unfold timers_ok in H. destruct (reconnectTimer w) as [t|] eqn:Et.
    - pose proof (timers_ok_clear t w) as Hc. unfold timers_ok in Hc.
      rewrite H, Et in Hc. cbn in Hc.
      specialize (Hc eq_refl ltac:(left)).
      apply fmap_nil_inv in Hc. exact Hc.
    - cbn in H. now apply fmap_nil_inv in H. }
  revert E. generalize (match reconnectTimer w with
                        | Some t => set_reconnectTimer None (clearTimeout t w)
                        | None => w
                        end).
  intros w1 E. destruct (ws w1); exact E.
Qed.

(** X14. [disconnect] cancels the reconnect that is pending: in a state where
    the pending timeouts are the one the client holds, which is every state
    a client reaches, no timeout is pending after [disconnect], the client
    holds none, and a timeout event finds nothing to run. *)
Theorem disconnect_cancels_reconnect w :
  timers_ok w ->
  timers (disconnect w) = []
  /\ reconnectTimer (disconnect w) = None
  /\ forall n t, step n (Timeout t) (disconnect w) = Some (disconnect w).
Proof.
  intros H. pose proof (timers_ok_disconnect w H) as E.
  split; [exact E|]. split.
  - unfold disconnect.
    destruct (reconnectTimer w) eqn:Et; destruct (ws _); cbn; auto.
  - intros n t. cbn [step]. unfold pending. rewrite E. reflexivity.
Qed.

Lemma disconnect_cancels_reconnect_witness :
  timers dropped <> [] /\ timers (disconnect dropped) = [].
Proof.
  split; [vm_compute; discriminate|].
  apply (disconnect_cancels_reconnect dropped). vm_compute. reflexivity.
Defined.

(** ** What the subscribers cannot do *)

(** A relation between states that holds across every operation open to
    the code of a subscriber holds across [emit], whatever the subscribers
    are. *)
Section Keeps.
Variable R : world -> world -> Prop.
Hypothesis R_refl : forall w, R w w.
Hypothesis R_trans : forall a b c, R a b -> R b c -> R a c.
Hypothesis R_log_emit : forall event data w, R w (log_emit event data w).
Hypothesis R_console : forall l w, R w (console_push l w).
Hypothesis R_record : forall tag data w, R w (record tag data w).
Hypothesis R_off : forall ev i w, R w (off ev i w).
Hypothesis R_handshake : forall p data w, R w (handshake p data w).1.
Hypothesis R_settle_with :
  forall p field data w, R w (settle_with p field data w).1.
Hypothesis R_method : forall c w, R w (method c w).

Lemma interp_keeps n :
  (forall event data w w' c,
      emit n event data w = Some (w', c) -> R w w')
  /\ (forall ev data k len w w' c,
         for_each n ev data k len w = Some (w', c) -> R w w')
  /\ (forall h data w w' c,
         call_handler n h data w = Some (w', c) -> R w w')
  /\ (forall body data w w' c,
         run_stmts n body data w = Some (w', c) -> R w w')
  /\ (forall c0 w w' c, run_call n c0 w = Some (w', c) -> R w w').
Proof.
  induction n as [|n (IHe & IHf & IHh & IHs & IHc)].
  { repeat split; intros; discriminate. }
  repeat split.
  - intros event data w w' c. rewrite emit_S.
    destruct (handlers_of _ _) as [[ev hs]|].
    + intros H. eapply R_trans; [apply R_log_emit | eapply IHf, H].
    + intros [= <- <-]. apply R_log_emit.
  - intros ev data k len w w' c. rewrite for_each_S.
    destruct (decide _); [intros [= <- <-]; apply R_refl|].
    destruct (_ !! k) as [h|]; [|apply IHf].
    destruct (call_handler n h data w) as [[w1 [|e]]|] eqn:Hh;
      [| |discriminate]; intros H.
    + eapply R_trans; [eapply IHh, Hh | eapply IHf, H].
    + eapply R_trans; [eapply IHh, Hh|].
      eapply R_trans; [apply R_console | eapply IHf, H].
  - intros h data w w' c. rewrite call_handler_S.
    destruct (code h) as [body|ev inner|p|p field].
    + apply IHs.
    + intros H. eapply R_trans; [apply R_off | eapply IHh, H].
    + intros [= H]. replace w' with (handshake p data w).1
        by (rewrite H; reflexivity). apply R_handshake.
    + intros [= H]. replace w' with (settle_with p field data w).1
        by (rewrite H; reflexivity). apply R_settle_with.
  - intros body data w w' c. rewrite run_stmts_S.
    destruct body as [|[tag|tag|c0] rest].
    + intros [= <- <-]. apply R_refl.
    + intros H. eapply R_trans; [apply R_record | eapply IHs, H].
    + intros [= <- <-]. apply R_refl.
    + intros H. apply and_then_Some in H as [[H _] | (w1 & H1 & H2)].
      * eapply IHc, H.
      * eapply R_trans; [eapply IHc, H1 | eapply IHs, H2].
  - intros c0 w w' c.
    intros H. apply run_call_cases in H as [(ev & d & -> & H) | [-> _]];
      [eapply IHe, H | apply R_method].
Qed.

Lemma emit_keeps n event data w w' c :
  emit n event data w = Some (w', c) -> R w w'.
Proof. apply (interp_keeps n). Qed.

Lemma run_call_keeps n c0 w w' c :
  run_call n c0 w = Some (w', c) -> R w w'.
Proof. apply (interp_keeps n). Qed.

Lemma run_stmts_keeps n body data w w' c :
  run_stmts n body data w = Some (w', c) -> R w w'.
Proof. apply (interp_keeps n). Qed.

End Keeps.

(** ** A client with auto-reconnect off *)

Lemma quiet_refl w : quiet w w.
Proof. split; [reflexivity | trivial]. Qed.

Lemma quiet_trans a b c : quiet a b -> quiet b c -> quiet a c.
Proof. intros [H1 H2] [H3 H4]. split; [congruence | auto]. Qed.

Lemma quiet_same w w' :
  options w' = options w -> timers w' = timers w ->
  reconnectTimer w' = reconnectTimer w -> quiet w w'.
Proof.
  intros Ho Ht Hr. split; [exact Ho|]. unfold no_timer. now rewrite Ht, Hr.
Qed.

Lemma quiet_settle p st w : quiet w (settle p st w).
Proof.
  unfold settle. destruct (promises w !! p) as [[| |]|];
    apply quiet_same; reflexivity.
Qed.

Lemma quiet_off ev i w : quiet w (off ev i w).
Proof.
  unfold off. destruct (listeners w !! ev) as [hs|]; [|apply quiet_refl].
  destruct (index_of i hs); apply quiet_same; reflexivity.
Qed.

Lemma quiet_send_with k message w : quiet w (send_with k message w).1.
Proof.
  unfold send_with. destruct (negb (is_open w)); [apply quiet_refl|].
  apply quiet_same; reflexivity.
Qed.

Lemma quiet_send message w : quiet w (send message w).1.
Proof.
  unfold send. pose proof (quiet_send_with KSend message w) as H.
  destruct (send_with KSend message w) as [w1 [| |]]; exact H.
Qed.

Lemma quiet_run_jobs k w : quiet w (run_jobs k w).
Proof.
  destruct (steady_run_jobs k w)
    as (Ho & _ & _ & _ & Hr & _ & Ht & _).
  now apply quiet_same.
Qed.

Lemma quiet_finish k r w w' :
  (forall w1 c, r = Some (w1, c) -> quiet w w1) ->
  finish k r = Some w' -> quiet w w'.
Proof.
  intros Hr. destruct r as [[w1 c]|]; cbn; intros [= <-].
  eapply quiet_trans; [eauto | apply quiet_run_jobs].
Qed.

Lemma quiet_disconnect w : quiet w (disconnect w).
Proof.
  split.
  - apply effects_options, fx_disconnect.
  - intros [Ht Hr]. unfold disconnect. rewrite Hr.
    destruct (ws w); split; assumption.
Qed.

Lemma quiet_method c w : quiet w (method c w).
Proof.
  destruct c; cbn [method]; try destruct (has_fragment _);
    try apply quiet_refl; try apply quiet_disconnect;
    try apply quiet_off; try apply quiet_send;
    try apply quiet_send_with;
    try (apply quiet_same; reflexivity).
  unfold sendMessage. destruct (is_str _ _); [|apply quiet_refl].
  apply quiet_send_with.
Qed.

Lemma quiet_handshake p data w : quiet w (handshake p data w).1.
Proof.
  unfold handshake. destruct (nullish data); [apply quiet_refl|]. cbn [fst].
  eapply quiet_trans; [|apply quiet_settle]. apply quiet_same; reflexivity.
Qed.

Lemma quiet_settle_with p field data w :
  quiet w (settle_with p field data w).1.
Proof.
  unfold settle_with. destruct field; [destruct (nullish data)|];
    cbn [fst]; try apply quiet_refl; apply quiet_settle.
Qed.

Lemma quiet_emit n event data w w' c :
  emit n event data w = Some (w', c) -> quiet w w'.
Proof.
  apply (emit_keeps quiet quiet_refl quiet_trans);
    auto using quiet_off, quiet_handshake, quiet_settle_with, quiet_method;
    intros; apply quiet_same; reflexivity.
Qed.

Lemma quiet_run_call n c0 w w' c :
  run_call n c0 w = Some (w', c) -> quiet w w'.
Proof.
  apply (run_call_keeps quiet quiet_refl quiet_trans);
    auto using quiet_off, quiet_handshake, quiet_settle_with, quiet_method;
    intros; apply quiet_same; reflexivity.
Qed.

Lemma quiet_run_stmts n body data w w' c :
  run_stmts n body data w = Some (w', c) -> quiet w w'.
Proof.
  apply (run_stmts_keeps quiet quiet_refl quiet_trans);
    auto using quiet_off, quiet_handshake, quiet_settle_with, quiet_method;
    intros; apply quiet_same; reflexivity.
Qed.

Lemma quiet_handleMessage n msg w w' c :
  _handleMessage n msg w = Some (w', c) -> quiet w w'.
Proof.
  unfold _handleMessage. destruct (nullish msg).
  { intros [= <- <-]. apply quiet_refl. }
  intros H.
  apply and_then_emit in H as (w1 & H1 & H).
  apply and_then_emit in H as (w2 & H2 & H).
  apply quiet_emit in H1, H2.
  eapply quiet_trans; [|eapply quiet_trans; [exact H1|]];
    [apply quiet_same; reflexivity|].
  eapply quiet_trans; [exact H2|].
  repeat match type of H with
         | (if ?b then _ else _) = _ => destruct b
         end;
    try (eapply quiet_emit; eassumption);
    injection H as <- <-; apply quiet_same; reflexivity.
Qed.

Lemma quiet_step n e w w' :
  ~ auto_reconnect w -> step n e w = Some w' -> quiet w w'.
Proof.
  intros Ha. destruct e as [c|cs|i|i data|i error|i|t]; cbn [step].
  - apply quiet_finish. intros w1 c1. apply quiet_run_call.
  - apply quiet_finish. intros w1 c1. apply quiet_run_stmts.
  - destruct (sockets w !! i); [|intros [= <-]; apply quiet_refl].
    apply quiet_finish. intros w1 c1. unfold ws_onopen. intros E.
    apply and_then_emit in E as (w2 & E & [= <- <-]).
    apply quiet_emit in E.
    eapply quiet_trans; [|eapply quiet_trans; [exact E|]];
      apply quiet_same; reflexivity.
  - destruct (sockets w !! i); [|intros [= <-]; apply quiet_refl].
    apply quiet_finish. intros w1 c1.
    unfold ws_onmessage. destruct (_unpack data) as [e|msg].
    + intros [= <- <-]. apply quiet_refl.
    + apply quiet_handleMessage.
  - destruct (sockets w !! i) as [s|]; [|intros [= <-]; apply quiet_refl].
    apply quiet_finish. intros w1 c1. unfold ws_onerror. intros E.
    apply and_then_emit in E as (w2 & E & [= <- <-]).
    apply quiet_emit in E.
    eapply quiet_trans; [|eapply quiet_trans; [exact E|]];
      [apply quiet_same; reflexivity | apply quiet_settle].
  - destruct (sockets w !! i) as [s|]; [|intros [= <-]; apply quiet_refl].
    apply quiet_finish. intros w1 c1. unfold ws_onclose. intros E.
    apply and_then_emit in E as (w2 & E & H).
    apply quiet_emit in E.
    assert (Ho : options (console_push LogDisconnected w2) = options w).
    { destruct E as [E _]. exact E. }
    rewrite Ho in H.
    unfold auto_reconnect in Ha. apply not_true_is_false in Ha.
    rewrite Ha in H. cbn [andb] in H. injection H as <- <-.
    eapply quiet_trans; [|eapply quiet_trans; [exact E|]];
      apply quiet_same; reflexivity.
  - destruct (pending t w) as [tm|] eqn:Hp; intros [= <-];
      [|apply quiet_refl].
    split.
    + apply effects_options. eapply fx_reconnect. eassumption.
    + intros [Ht _]. unfold pending in Hp. rewrite Ht in Hp. discriminate.
Qed.

(** X15. A client with auto-reconnect off never schedules a reconnect.  From
    a state without a pending timeout, whatever the application calls,
    whatever happens to the sockets and whatever the subscribers do, no
    timeout is ever pending and the client holds none, and a timeout event
    finds nothing to run. *)
Theorem never_reconnects_when_off n es :
  forall w w',
    ~ auto_reconnect w -> no_timer w ->
    run n es w = Some w' ->
    no_timer w' /\ ~ auto_reconnect w'
    /\ forall t, step n (Timeout t) w' = Some w'.
Proof.
  induction es as [|e es IH]; intros w w' Ha Hn; cbn [run].
  - intros [= <-]. split; [exact Hn|]. split; [exact Ha|].
    intros t. cbn [step]. unfold pending. destruct Hn as [-> _].
    reflexivity.
  - destruct (step n e w) as [w1|] eqn:E; [|discriminate].
    apply quiet_step in E as [Ho Hq]; [|exact Ha].
    apply IH; [|auto]. unfold auto_reconnect in *. now rewrite Ho.
Qed.

Lemma never_reconnects_when_off_witness :
  exists w',
    run 8 [Call (CConnect VUndef); Open 0%nat; Close 0%nat] manual = Some w'
    /\ no_timer w'.
Proof.
  eexists. split; [vm_compute; reflexivity|].
  eapply (never_reconnects_when_off 8
            [Call (CConnect VUndef); Open 0%nat; Close 0%nat] manual).
  - vm_compute. discriminate.
  - split; reflexivity.
  - vm_compute. reflexivity.
Defined.

(** ** The router, message by message *)

Lemma typed_not_nullish msg t :
  prop (str "type") msg = VStr t -> nullish msg = false.
Proof. destruct msg; (discriminate || reflexivity). Qed.

(** The two emissions that every message causes. *)
Lemma handleMessage_head B L n msg w (k : world -> result) :
  tame_world B L w -> (L + B + 5 <= n)%nat ->
  exists w2,
    tame_world B L w2
    /\ emitted w2
       = emitted w ++ [(prop (str "type") msg, msg);
                       (VStr (str "message"), msg)]
    /\ and_then (emit n (prop (str "type") msg) msg
                   (console_push (LogReceived (prop (str "type") msg)) w))
         (fun w => and_then (emit n (VStr (str "message")) msg w) k)
       = k w2.
Proof.
  intros Hw Hn.
  destruct (emit_tame B L n (prop (str "type") msg) msg
              (console_push (LogReceived (prop (str "type") msg)) w))
    as (w1 & E1 & Hw1 & He1); [exact Hw | exact Hn |].
  destruct (emit_tame B L n (VStr (str "message")) msg w1 Hw1 Hn)
    as (w2 & E2 & Hw2 & He2).
  exists w2. split; [exact Hw2|]. split.
  - rewrite He2, He1. cbn. rewrite <- app_assoc. reflexivity.
  - rewrite E1. cbn [and_then]. rewrite E2. reflexivity.
Qed.

Lemma is_str_eq s t : is_str s (VStr t) = bool_decide (t = s).
Proof. reflexivity. Qed.

(** X16. A [text_message], an [image_message] and a [file_shared] message are
    each emitted three times: under their own type, as [message], and as
    [chat_message], always with the message itself as payload. *)
Theorem chat_message_fan_in B L n t msg w :
  tame_world B L w -> (L + B + 5 <= n)%nat ->
  prop (str "type") msg = VStr t ->
  t ∈ [str "text_message"; str "image_message"; str "file_shared"] ->
  exists w',
    _handleMessage n msg w = Some (w', Normal)
    /\ emitted w'
       = emitted w ++ [(VStr t, msg); (VStr (str "message"), msg);
                       (VStr (str "chat_message"), msg)].
Proof.
  intros Hw Hn Ht Hin. unfold _handleMessage.
  rewrite (typed_not_nullish _ _ Ht). cbv beta iota zeta.
  match goal with
  | |- context [and_then _ (fun w1 => and_then (@?e w1) ?k)] =>
      destruct (handleMessage_head B L n msg w k Hw Hn)
        as (w2 & Hw2 & He2 & ->)
  end.
  rewrite Ht in *. cbv beta. rewrite !is_str_eq.
  destruct (emit_tame B L n (VStr (str "chat_message")) msg w2 Hw2 Hn)
    as (w3 & E & _ & He3).
  exists w3. split; [|rewrite He3, He2, <- app_assoc; reflexivity].
  repeat (apply elem_of_cons in Hin as [->|Hin]); [| | |inversion Hin];
    repeat (rewrite bool_decide_eq_false_2 by (vm_compute; discriminate));
    rewrite ?bool_decide_eq_true_2 by reflexivity; cbn [orb]; exact E.
Qed.

Lemma chat_message_fan_in_witness :
  exists w',
    _handleMessage 8 text_hi online = Some (w', Normal)
    /\ emitted w'
       = emitted online
         ++ [(VStr (str "text_message"), text_hi);
             (VStr (str "message"), text_hi);
             (VStr (str "chat_message"), text_hi)].
Proof.
  apply (chat_message_fan_in 1 1 8 (str "text_message") text_hi online).
  - apply (bool_decide_unpack _). vm_compute. exact I.
  - vm_compute. lia.
  - reflexivity.
  - left.
Defined.








(** X20. A frame that decodes to [null] is valid JSON, and is dropped like a
    frame that does not decode: reading its type fails, nothing is emitted,
    not even [message], the client stays as it was and the frames that
    follow are handled as if it had not arrived. *)
Theorem null_message_dropped n frame w :
  _unpack frame = inr VNull ->
  ws_onmessage n frame w = Some (w, Abrupt TypeError)
  /\ forall i later, run n (Message i frame :: later) w = run n later w.
Proof.
  intros H.
  assert (E : ws_onmessage n frame w = Some (w, Abrupt TypeError)).
  { unfold ws_onmessage. rewrite H. reflexivity. }
  split; [exact E|]. intros i later. cbn [run step].
  destruct (sockets w !! i); [|reflexivity].
  rewrite E, (finish_none w) by reflexivity. reflexivity.
Qed.

Lemma null_message_dropped_witness :
  ws_onmessage 0 (WText (str " null ")) fresh
  = Some (fresh, Abrupt TypeError).
Proof.
  apply (null_message_dropped 0 (WText (str " null ")) fresh).
  vm_compute. reflexivity.
Defined.

(** ** Waiting for an answer *)

Lemma off_only_listeners ev i w :
  off ev i w = set_listeners (listeners (off ev i w)) w.
Proof.
  unfold off. destruct (listeners w !! ev) as [hs|];
    [destruct (index_of i hs)|]; destruct w; reflexivity.
Qed.

Lemma settle_only_promises p st w :
  settle p st w = set_promises (promises (settle p st w)) w.
Proof.
  unfold settle. destruct (promises w !! p) as [[| |]|];
    destruct w; reflexivity.
Qed.

Lemma settle_pending p st w :
  promises w !! p = Some Pending -> promises (settle p st w) !! p = Some st.
Proof.
  intros H. unfold settle. rewrite H. cbn.
  apply list_lookup_insert_eq. eapply lookup_lt_Some. eassumption.
Qed.

Lemma emit_calm n ev data w :
  calm ev w -> (budget (subscribers ev w) <= n)%nat ->
  emit n (VStr ev) data w
  = Some (set_console (console w ++ complaints ev (subscribers ev w))
            (set_trace (trace w ++ observed data (subscribers ev w))
               (log_emit (VStr ev) data w)), Normal).
Proof.
  intros Hc Hn. rewrite emit_plain by assumption.
  rewrite deliver_closed_form. reflexivity.
Qed.

Lemma calm_same ev w w' :
  listeners w' !! ev = listeners w !! ev -> calm ev w -> calm ev w'.
Proof. unfold calm, subscribers. now intros ->. Qed.

(** [emit] on an event whose only subscriber is a one-shot wait of the
    SDK. *)
Lemma emit_once_settle n ev i p field data w :
  listeners w !! ev = Some [Handler i (OnceWrapper ev (Settle p field))] ->
  nullish data = false -> (4 <= n)%nat ->
  emit n (VStr ev) data w
  = Some (settle p (Resolved match field with
                             | None => data
                             | Some k => prop k data
                             end)
            (off ev i (log_emit (VStr ev) data w)), Normal).
Proof.
  intros Hl Hd Hn. destruct n as [|[|[|[|n]]]]; try lia.
  erewrite emit_single; [|exact Hl|].
  2:{ rewrite call_handler_S. cbn [code]. rewrite call_handler_S.
      cbn [code hid]. unfold settle_with.
      instantiate (1 := Normal).
      instantiate (1 := settle p (Resolved match field with
                                           | None => data
                                           | Some k => prop k data
                                           end)
                          (off ev i (log_emit (VStr ev) data w))).
      destruct field; [rewrite Hd|]; reflexivity. }
  reflexivity.
Qed.

Lemma emit_once_handshake n ev i p data w :
  listeners w !! ev = Some [Handler i (OnceWrapper ev (Handshake p))] ->
  nullish data = false -> (4 <= n)%nat ->
  emit n (VStr ev) data w
  = Some (settle p (Resolved data)
            (set_user (prop (str "user") data)
               (set_clientId (prop (str "clientId") data)
                  (off ev i (log_emit (VStr ev) data w)))), Normal).
Proof.
  intros Hl Hd Hn. destruct n as [|[|[|[|n]]]]; try lia.
  erewrite emit_single; [|exact Hl|].
  2:{ rewrite call_handler_S. cbn [code]. rewrite call_handler_S.
      cbn [code hid]. unfold handshake. rewrite Hd. reflexivity. }
  reflexivity.
Qed.

Lemma budget_ge hs : (4 <= budget hs)%nat.
Proof. unfold budget. lia. Qed.

Lemma lookup_new_promise w :
  (promises w ++ [Pending]) !! length (promises w) = Some Pending.
Proof. apply list_lookup_middle. reflexivity. Qed.

Lemma subscribers_once ev f w :
  subscribers ev w = [] ->
  subscribers ev (off ev (ByOnce (next_closure w)) (once ev f w).1) = [].
Proof.
  intros E.
  apply (off_single ev (Handler (ByOnce (next_closure w)) (OnceWrapper ev f))).
  now apply once_listeners.
Qed.

Lemma subscribers_settle ev p st w :
  subscribers ev (settle p st w) = subscribers ev w.
Proof. unfold subscribers. now rewrite settle_listeners. Qed.

Lemma message_ne ev :
  ev ∈ [str "connection_established"; str "room_joined";
        str "message_history"; str "file_list"] ->
  str "message" <> ev.
Proof.
  intros H E. subst ev. revert H.
  apply (bool_decide_unpack _). vm_compute. exact I.
Qed.

(** A message of type [ev] arrives while the only subscriber of [ev] is
    a one-shot wait of the SDK and the subscribers of [message] are plain:
    the state after the two emissions that every message causes. *)
Lemma handleMessage_answer n ev i p field msg w (k : world -> result) :
  listeners w !! ev = Some [Handler i (OnceWrapper ev (Settle p field))] ->
  promises w !! p = Some Pending ->
  str "message" <> ev ->
  calm (str "message") w ->
  (budget (subscribers (str "message") w) <= n)%nat ->
  nullish msg = false ->
  exists w2,
    and_then (emit n (VStr ev) msg (console_push (LogReceived (VStr ev)) w))
      (fun w => and_then (emit n (VStr (str "message")) msg w) k)
    = k w2
    /\ promises w2 !! p
       = Some (Resolved match field with
                        | None => msg
                        | Some k => prop k msg
                        end)
    /\ subscribers ev w2 = []
    /\ roomId w2 = roomId w /\ clientId w2 = clientId w /\ user w2 = user w
    /\ emitted w2
       = emitted w ++ [(VStr ev, msg); (VStr (str "message"), msg)].
Proof.
  intros Hl Hp Hne Hc Hn Hd.
  pose proof (budget_ge (subscribers (str "message") w)) as H4.
  rewrite (emit_once_settle n ev i p field msg
             (console_push (LogReceived (VStr ev)) w) Hl Hd ltac:(lia)).
  cbn [and_then].
  set (r := match field with None => msg | Some k0 => prop k0 msg end).
  set (w0 := off ev i (log_emit (VStr ev) msg
                         (console_push (LogReceived (VStr ev)) w))).
  assert (Hs0 : subscribers ev w0 = []).
  { apply (off_single ev (Handler i (OnceWrapper ev (Settle p field)))).
    exact Hl. }
  assert (Hm : subscribers (str "message") (settle p (Resolved r) w0)
               = subscribers (str "message") w).
  { rewrite subscribers_settle. subst w0.
    rewrite subscribers_off_ne by exact Hne. reflexivity. }
  rewrite emit_calm;
    [|unfold calm; rewrite Hm; exact Hc | rewrite Hm; exact Hn].
  cbn [and_then]. eexists. split; [reflexivity|].
  cbn [promises roomId clientId user emitted set_console set_trace log_emit
       set_emitted].
  assert (Hw0 : w0 = set_listeners (listeners w0)
                       (log_emit (VStr ev) msg
                          (console_push (LogReceived (VStr ev)) w))).
  { apply off_only_listeners. }
  split.
  { apply settle_pending. rewrite Hw0. exact Hp. }
  split.
  { change (subscribers ev (settle p (Resolved r) w0) = []).
    rewrite subscribers_settle. exact Hs0. }
  rewrite settle_only_promises, Hw0. cbn. rewrite <- app_assoc.
  repeat split; reflexivity.
Qed.

Lemma handleMessage_hello n ev i p msg w (k : world -> result) :
  listeners w !! ev = Some [Handler i (OnceWrapper ev (Handshake p))] ->
  promises w !! p = Some Pending ->
  str "message" <> ev ->
  calm (str "message") w ->
  (budget (subscribers (str "message") w) <= n)%nat ->
  nullish msg = false ->
  exists w2,
    and_then (emit n (VStr ev) msg (console_push (LogReceived (VStr ev)) w))
      (fun w => and_then (emit n (VStr (str "message")) msg w) k)
    = k w2
    /\ promises w2 !! p = Some (Resolved msg)
    /\ subscribers ev w2 = []
    /\ roomId w2 = roomId w /\ connected w2 = connected w
    /\ emitted w2
       = emitted w ++ [(VStr ev, msg); (VStr (str "message"), msg)].
Proof.
  intros Hl Hp Hne Hc Hn Hd.
  pose proof (budget_ge (subscribers (str "message") w)) as H4.
  rewrite (emit_once_handshake n ev i p msg
             (console_push (LogReceived (VStr ev)) w) Hl Hd ltac:(lia)).
  cbn [and_then].
  set (w0 := off ev i (log_emit (VStr ev) msg
                         (console_push (LogReceived (VStr ev)) w))).
  set (w1 := set_user _ _).
  assert (Hs0 : subscribers ev w0 = []).
  { apply (off_single ev (Handler i (OnceWrapper ev (Handshake p)))).
    exact Hl. }
  assert (Hm : subscribers (str "message") (settle p (Resolved msg) w1)
               = subscribers (str "message") w).
  { rewrite subscribers_settle. subst w1 w0.
    change (subscribers (str "message") (set_user ?a (set_clientId ?b ?x)))
      with (subscribers (str "message") x).
    rewrite subscribers_off_ne by exact Hne. reflexivity. }
  rewrite emit_calm;
    [|unfold calm; rewrite Hm; exact Hc | rewrite Hm; exact Hn].
  cbn [and_then]. eexists. split; [reflexivity|].
  cbn [promises roomId connected emitted set_console set_trace log_emit
       set_emitted].
  assert (Hw0 : w0 = set_listeners (listeners w0)
                       (log_emit (VStr ev) msg
                          (console_push (LogReceived (VStr ev)) w))).
  { apply off_only_listeners. }
  split.
  { apply settle_pending. subst w1. cbn. rewrite Hw0. exact Hp. }
  split.
  { change (subscribers ev (settle p (Resolved msg) w1) = []).
    rewrite subscribers_settle. exact Hs0. }
  rewrite settle_only_promises. subst w1. rewrite Hw0. cbn.
  rewrite <- app_assoc. repeat split; reflexivity.
Qed.

(** The state in which a request waits for its answer, when the turn
    that made it on an open socket has ended. *)
Lemma request_waits n c k ev field message w :
  is_open w = true -> (1 <= n)%nat -> subscribers ev w = [] ->
  (forall event data, c <> CEmit event data) ->
  method c w = (send_with k message w).1 ->
  awaited k = Some (ev, field) ->
  exists w1,
    step n (Call c) w = Some w1
    /\ listeners w1 !! ev
       = Some [Handler (ByOnce (next_closure w))
                 (OnceWrapper ev (Settle (length (promises w)) field))]
    /\ promises w1 !! length (promises w) = Some Pending
    /\ forall ev', ev' <> ev -> subscribers ev' w1 = subscribers ev' w.
Proof.
  intros Ho Hn Hs Hc Hm Hk.
  destruct (step_request n c k message w Ho Hn Hc Hm) as (i & Hi & E).
  eexists. split; [exact E|].
  set (W := set_sockets _ _).
  assert (HW : subscribers ev W = []) by exact Hs.
  destruct k as [|v|room|ev0 fl]; try discriminate Hk;
    injection Hk as <- <-; cbn [conclude].
  - split; [now rewrite (once_listeners _ _ (set_roomId room W) HW)|].
    split; [exact (lookup_new_promise w)|].
    intros ev' Hne. unfold once. cbn [fst].
    now rewrite subscribers_on_ne by exact Hne.
  - split; [now rewrite (once_listeners _ _ _ HW)|].
    split; [exact (lookup_new_promise w)|].
    intros ev' Hne. unfold once. cbn [fst].
    now rewrite subscribers_on_ne by exact Hne.
Qed.

(** X21. [getMessages] and its answer.  A turn that calls [getMessages]
    on an open connection, and nothing after it, with no other subscriber
    of [message_history] and subscribers of [message] that only record or
    throw, ends with the promise of the call pending; the next
    [message_history] message resolves it with the [messages] field of
    the message, [undefined] if it has none, and ends the wait. *)
Theorem getMessages_resolves n limit before msg w :
  is_open w = true -> subscribers (str "message_history") w = [] ->
  calm (str "message") w ->
  (budget (subscribers (str "message") w) <= n)%nat ->
  prop (str "type") msg = VStr (str "message_history") ->
  exists w1 w',
    step n (Call (CGetMessages limit before)) w = Some w1
    /\ promises w1 !! length (promises w) = Some Pending
    /\ _handleMessage n msg w1 = Some (w', Normal)
    /\ promises w' !! length (promises w)
       = Some (Resolved (prop (str "messages") msg))
    /\ subscribers (str "message_history") w' = [].
Proof.
  intros Ho Hs Hc Hn Ht.
  pose proof (budget_ge (subscribers (str "message") w)) as H4.
  destruct (request_waits n (CGetMessages limit before)
              (KAsk (str "message_history") (str "messages"))
              (str "message_history") (Some (str "messages")) _ w
              Ho ltac:(lia) Hs ltac:(discriminate) eq_refl eq_refl)
    as (w1 & E & Hl & Hp & Hsub).
  exists w1.
  assert (Hc' : calm (str "message") w1).
  { unfold calm. rewrite Hsub by (vm_compute; discriminate). exact Hc. }
  assert (Hn' : (budget (subscribers (str "message") w1) <= n)%nat).
  { rewrite Hsub by (vm_compute; discriminate). exact Hn. }
  cut (exists w',
         _handleMessage n msg w1 = Some (w', Normal)
         /\ promises w' !! length (promises w)
            = Some (Resolved (prop (str "messages") msg))
         /\ subscribers (str "message_history") w' = []).
  { intros (w' & H1 & H2). exists w'.
    split; [exact E|]. split; [exact Hp|]. auto. }
  unfold _handleMessage. rewrite (typed_not_nullish _ _ Ht).
  cbv beta iota zeta. rewrite Ht.
  match goal with
  | |- context [and_then _ (fun w1 => and_then (@?e w1) ?k)] =>
      destruct (handleMessage_answer _ _ _ _ _ _ _ k Hl Hp
                  ltac:(apply message_ne, (bool_decide_unpack _);
                        vm_compute; exact I)
                  Hc' Hn' (typed_not_nullish _ _ Ht))
        as (w2 & -> & Hp2 & Hs2 & Hr2 & Hc2 & Hu2 & He2)
  end.
  cbv beta. rewrite !is_str_eq.
  repeat (rewrite bool_decide_eq_false_2 by (vm_compute; discriminate)).
  rewrite ?bool_decide_eq_true_2 by reflexivity. cbn [orb].
  eexists. split; [reflexivity|]. split; [exact Hp2|]. exact Hs2.
Qed.

Lemma getMessages_resolves_witness :
  exists w1 w',
    step 8 (Call (CGetMessages VUndef VUndef)) online = Some w1
    /\ promises w1 !! 1%nat = Some Pending
    /\ _handleMessage 8 history_none w1 = Some (w', Normal)
    /\ promises w' !! 1%nat = Some (Resolved (VArr [])).
Proof.
  destruct (getMessages_resolves 8 VUndef VUndef history_none online)
    as (w1 & w' & H1 & H2 & H3 & H4 & _).
  - reflexivity.
  - reflexivity.
  - reflexivity.
  - vm_compute. lia.
  - reflexivity.
  - exists w1, w'. auto.
Defined.
(** X22. [getFiles] and its answer.  A turn that calls [getFiles] on an
    open connection, and nothing after it, with no other subscriber of
    [file_list] and subscribers of [message] that only record or throw,
    ends with the promise of the call pending; the next [file_list]
    message resolves it with the [files] field of the message and ends
    the wait. *)
Theorem getFiles_resolves n path msg w :
  is_open w = true -> subscribers (str "file_list") w = [] ->
  calm (str "message") w ->
  (budget (subscribers (str "message") w) <= n)%nat ->
  prop (str "type") msg = VStr (str "file_list") ->
  exists w1 w',
    step n (Call (CGetFiles path)) w = Some w1
    /\ promises w1 !! length (promises w) = Some Pending
    /\ _handleMessage n msg w1 = Some (w', Normal)
    /\ promises w' !! length (promises w)
       = Some (Resolved (prop (str "files") msg))
    /\ subscribers (str "file_list") w' = [].
Proof.
  intros Ho Hs Hc Hn Ht.
  pose proof (budget_ge (subscribers (str "message") w)) as H4.
  destruct (request_waits n (CGetFiles path)
              (KAsk (str "file_list") (str "files"))
              (str "file_list") (Some (str "files")) _ w
              Ho ltac:(lia) Hs ltac:(discriminate) eq_refl eq_refl)
    as (w1 & E & Hl & Hp & Hsub).
  exists w1.
  assert (Hc' : calm (str "message") w1).
  { unfold calm. rewrite Hsub by (vm_compute; discriminate). exact Hc. }
  assert (Hn' : (budget (subscribers (str "message") w1) <= n)%nat).
  { rewrite Hsub by (vm_compute; discriminate). exact Hn. }
  cut (exists w',
         _handleMessage n msg w1 = Some (w', Normal)
         /\ promises w' !! length (promises w)
            = Some (Resolved (prop (str "files") msg))
         /\ subscribers (str "file_list") w' = []).
  { intros (w' & H1 & H2). exists w'.
    split; [exact E|]. split; [exact Hp|]. auto. }
  unfold _handleMessage. rewrite (typed_not_nullish _ _ Ht).
  cbv beta iota zeta. rewrite Ht.
  match goal with
  | |- context [and_then _ (fun w1 => and_then (@?e w1) ?k)] =>
      destruct (handleMessage_answer _ _ _ _ _ _ _ k Hl Hp
                  ltac:(apply message_ne, (bool_decide_unpack _);
                        vm_compute; exact I)
                  Hc' Hn' (typed_not_nullish _ _ Ht))
        as (w2 & -> & Hp2 & Hs2 & Hr2 & Hc2 & Hu2 & He2)
  end.
  cbv beta. rewrite !is_str_eq.
  repeat (rewrite bool_decide_eq_false_2 by (vm_compute; discriminate)).
  rewrite ?bool_decide_eq_true_2 by reflexivity. cbn [orb].
  eexists. split; [reflexivity|]. split; [exact Hp2|]. exact Hs2.
Qed.

Lemma getFiles_resolves_witness :
  exists w1 w',
    step 8 (Call (CGetFiles VUndef)) online = Some w1
    /\ _handleMessage 8 files_none w1 = Some (w', Normal)
    /\ promises w' !! 1%nat = Some (Resolved (VArr [])).
Proof.
  destruct (getFiles_resolves 8 VUndef files_none online)
    as (w1 & w' & H1 & _ & H3 & H4 & _).
  - reflexivity.
  - reflexivity.
  - reflexivity.
  - vm_compute. lia.
  - reflexivity.
  - exists w1, w'. auto.
Defined.
(** X23. [joinRoom] and its answer.  A turn that calls [joinRoom] on an
    open connection, and nothing after it, with no other subscriber of
    [room_joined] and subscribers of [message] that only record or throw,
    ends with the promise of the call pending; the next [room_joined]
    message resolves it with the whole message and ends the wait.  The
    answer is not matched against the request: whatever room was asked
    for, [roomId] is afterwards the [roomId] of the message. *)
Theorem joinRoom_resolves n room msg w :
  is_open w = true -> subscribers (str "room_joined") w = [] ->
  calm (str "message") w ->
  (budget (subscribers (str "message") w) <= n)%nat ->
  prop (str "type") msg = VStr (str "room_joined") ->
  exists w1 w',
    step n (Call (CJoinRoom room)) w = Some w1
    /\ promises w1 !! length (promises w) = Some Pending
    /\ _handleMessage n msg w1 = Some (w', Normal)
    /\ promises w' !! length (promises w) = Some (Resolved msg)
    /\ roomId w' = prop (str "roomId") msg
    /\ subscribers (str "room_joined") w' = [].
Proof.
  intros Ho Hs Hc Hn Ht.
  pose proof (budget_ge (subscribers (str "message") w)) as H4.
  destruct (request_waits n (CJoinRoom room) (KJoin room)
              (str "room_joined") None _ w
              Ho ltac:(lia) Hs ltac:(discriminate) eq_refl eq_refl)
    as (w1 & E & Hl & Hp & Hsub).
  exists w1.
  assert (Hc' : calm (str "message") w1).
  { unfold calm. rewrite Hsub by (vm_compute; discriminate). exact Hc. }
  assert (Hn' : (budget (subscribers (str "message") w1) <= n)%nat).
  { rewrite Hsub by (vm_compute; discriminate). exact Hn. }
  cut (exists w',
         _handleMessage n msg w1 = Some (w', Normal)
         /\ promises w' !! length (promises w) = Some (Resolved msg)
         /\ roomId w' = prop (str "roomId") msg
         /\ subscribers (str "room_joined") w' = []).
  { intros (w' & H1 & H2). exists w'.
    split; [exact E|]. split; [exact Hp|]. auto. }
  unfold _handleMessage. rewrite (typed_not_nullish _ _ Ht).
  cbv beta iota zeta. rewrite Ht.
  match goal with
  | |- context [and_then _ (fun w1 => and_then (@?e w1) ?k)] =>
      destruct (handleMessage_answer _ _ _ _ _ _ _ k Hl Hp
                  ltac:(apply message_ne, (bool_decide_unpack _);
                        vm_compute; exact I)
                  Hc' Hn' (typed_not_nullish _ _ Ht))
        as (w2 & -> & Hp2 & Hs2 & Hr2 & Hc2 & Hu2 & He2)
  end.
  cbv beta. rewrite !is_str_eq.
  repeat (rewrite bool_decide_eq_false_2 by (vm_compute; discriminate)).
  rewrite ?bool_decide_eq_true_2 by reflexivity. cbn [orb].
  eexists. split; [reflexivity|]. split; [exact Hp2|].
  split; [reflexivity | exact Hs2].
Qed.

Lemma joinRoom_resolves_witness :
  exists w1 w',
    step 8 (Call (CJoinRoom (VStr (str "lobby")))) online = Some w1
    /\ roomId w1 = VStr (str "lobby")
    /\ _handleMessage 8 room_joined_r1 w1 = Some (w', Normal)
    /\ promises w' !! 1%nat = Some (Resolved room_joined_r1)
    /\ roomId w' = VStr (str "r1").
Proof.
  destruct (joinRoom_resolves 8 (VStr (str "lobby")) room_joined_r1 online)
    as (w1 & w' & H1 & H2 & H3 & H4 & H5 & _).
  - reflexivity.
  - reflexivity.
  - reflexivity.
  - vm_compute. lia.
  - reflexivity.
  - exists w1, w'. split; [exact H1|]. split; [|auto].
    revert H1. vm_compute. intros [= <-]. reflexivity.
Defined.

(** ** connect and the events of its socket *)

(** The socket that [connect] makes has the URL [connect_url]. *)
Lemma connect_opens_connect_url token w :
  url <$> sockets (connect token w).1 !! length (sockets w)
  = Some (connect_url token w).
Proof.
  unfold connect, connect_url, new_promise, once, on. cbn.
  rewrite list_lookup_middle by reflexivity. reflexivity.
Qed.

(** X24. [connect] and the handshake.  When the platform accepts the
    URL, nobody else is subscribed to [connection_established] and the
    subscribers of [message] only record or throw, the promise that
    [connect] returned is pending until a [connection_established] message
    arrives; the message resolves it with the message itself, sets
    [clientId] and [user] from its fields (to [undefined] for a field it
    lacks), and ends the wait.  It does not touch [connected], which the
    open event sets.  When the platform refuses the URL, the promise that
    [connect] returns is rejected with the SyntaxError of the platform and
    nothing else has changed: no socket was made, [ws] is what it was and
    nothing was subscribed.  A URL with a [#] is always refused. *)
Theorem connect_handshake n token msg w :
  (subscribers (str "connection_established") w = [] ->
   calm (str "message") w ->
   (budget (subscribers (str "message") w) <= n)%nat ->
   prop (str "type") msg = VStr (str "connection_established") ->
   exists w',
     _handleMessage n msg (connect token w).1 = Some (w', Normal)
     /\ promises (connect token w).1 !! (connect token w).2 = Some Pending
     /\ promises w' !! (connect token w).2 = Some (Resolved msg)
     /\ clientId w' = prop (str "clientId") msg
     /\ user w' = prop (str "user") msg
     /\ subscribers (str "connection_established") w' = []
     /\ connected w' = connected w)
  /\ ((1 <= n)%nat ->
      step n (Call (CConnectRefused token)) w = Some (connect_refused w).1
      /\ promises (connect_refused w).1
         = promises w ++ [Failed (DOMException (str "SyntaxError"))]
      /\ (connect_refused w).2 = length (promises w)
      /\ set_promises (promises w) (connect_refused w).1 = w
      /\ (has_fragment (connect_url token w) = true ->
          step n (Call (CConnect token)) w = Some (connect_refused w).1)).
Proof.
  split.
  2:{ intros Hn. rewrite !step_call by (assumption || discriminate).
      cbn [method]. rewrite (run_jobs_none w) by reflexivity.
      split; [reflexivity|]. split; [reflexivity|].
      split; [reflexivity|]. split; [destruct w; reflexivity|].
      intros ->. now rewrite (run_jobs_none w). }
  intros Hs Hc Hn Ht. unfold connect, new_promise. cbn [fst snd].
  match goal with
  | |- context [once ?ev ?f ?x] => set (w0 := x)
  end.
  assert (Hl : listeners (once (str "connection_established")
                            (Handshake (length (promises w))) w0).1
               !! str "connection_established"
               = Some [Handler (ByOnce (next_closure w))
                         (OnceWrapper (str "connection_established")
                            (Handshake (length (promises w))))]).
  { apply (once_listeners _ _ w0). exact Hs. }
  assert (Hp : promises (once (str "connection_established")
                           (Handshake (length (promises w))) w0).1
               !! length (promises w) = Some Pending).
  { exact (lookup_new_promise w). }
  assert (Hsub : subscribers (str "message")
                   (once (str "connection_established")
                      (Handshake (length (promises w))) w0).1
                 = subscribers (str "message") w).
  { unfold once. cbn [fst].
    rewrite subscribers_on_ne by (vm_compute; discriminate). reflexivity. }
  assert (Hc' : calm (str "message")
                  (once (str "connection_established")
                     (Handshake (length (promises w))) w0).1).
  { unfold calm. rewrite Hsub. exact Hc. }
  rewrite <- Hsub in Hn.
  unfold _handleMessage. rewrite (typed_not_nullish _ _ Ht).
  cbv beta iota zeta. rewrite Ht.
  match goal with
  | |- context [and_then _ (fun w1 => and_then (@?e w1) ?k)] =>
      destruct (handleMessage_hello _ _ _ _ _ _ k Hl Hp
                  ltac:(apply message_ne, (bool_decide_unpack _);
                        vm_compute; exact I)
                  Hc' Hn (typed_not_nullish _ _ Ht))
        as (w2 & -> & Hp2 & Hs2 & Hr2 & Hc2 & He2)
  end.
  cbv beta. rewrite is_str_eq, bool_decide_eq_true_2 by reflexivity.
  eexists. split; [reflexivity|]. split; [exact Hp|].
  split; [exact Hp2|]. split; [reflexivity|]. split; [reflexivity|].
  split; [exact Hs2 | exact Hc2].
Qed.

Lemma connect_handshake_witness :
  exists w',
    _handleMessage 8 hello_c1 (connect VUndef fresh).1 = Some (w', Normal)
    /\ promises w' !! 0%nat = Some (Resolved hello_c1)
    /\ clientId w' = VStr (str "c1")
    /\ connected w' = false.
Proof.
  destruct (proj1 (connect_handshake 8 VUndef hello_c1 fresh))
    as (w' & H1 & _ & H3 & H4 & _ & _ & H7).
  - reflexivity.
  - reflexivity.
  - vm_compute. lia.
  - reflexivity.
  - exists w'. auto.
Defined.











(** ** Subscriptions that change during an emission *)

(** One turn of [emit] on an event with two subscribers of which the
    first one leaves the second slot of the array empty. *)
Lemma emit_pair n ev h1 h2 data w w1 :
  listeners w !! ev = Some [h1; h2] ->
  call_handler (S (S n)) h1 data (log_emit (VStr ev) data w)
  = Some (w1, Normal) ->
  subscribers ev w1 !! 1%nat = None ->
  emit (S (S (S (S n)))) (VStr ev) data w = Some (w1, Normal).
Proof.
  intros Hl Hc Hnone. rewrite emit_S. unfold handlers_of.
  change (listeners (log_emit (VStr ev) data w)) with (listeners w).
  rewrite Hl. cbn [fmap option_fmap option_map length].
  rewrite for_each_S. destruct (decide (2 <= 0)%nat); [lia|].
  change (listeners (log_emit (VStr ev) data w)) with (listeners w).
  rewrite Hl. cbn [default from_option id lookup list_lookup].
  rewrite Hc. rewrite for_each_S. destruct (decide (2 <= 1)%nat); [lia|].
  fold (subscribers ev w1). rewrite Hnone.
  rewrite for_each_S. destruct (decide (2 <= 2)%nat); [reflexivity | lia].
Qed.

Lemma call_one_method n i c data w :
  (forall event d, c <> CEmit event d) ->
  call_handler (S (S (S n))) (Handler i (User [SCall c])) data w
  = Some (method c w, Normal).
Proof.
  intros Hc. rewrite call_handler_S. cbn [code]. rewrite run_stmts_S.
  rewrite run_call_S.
  destruct c; try (cbn [and_then]; rewrite run_stmts_S; reflexivity).
  exfalso. eapply Hc. reflexivity.
Qed.

(** X29. Subscriptions that change while [emit] walks the subscribers.  A
    handler that [emit] calls may subscribe another handler to the same
    event: the new one is subscribed afterwards, and is not called by the
    emission under way.  It may also unsubscribe a handler that comes after
    it: that one is not called either.  In both cases the emission changes
    nothing but the subscriptions. *)
Theorem subscriptions_changed_during_emit n ev i j g data w :
  (5 <= n)%nat ->
  (listeners w !! ev = Some [Handler i (User [SCall (COn ev j g)])] ->
   emit n (VStr ev) data w
   = Some (on ev (Handler j g) (log_emit (VStr ev) data w), Normal))
  /\ (i <> j ->
      listeners w !! ev
      = Some [Handler i (User [SCall (COff ev j)]); Handler j g] ->
      emit n (VStr ev) data w
      = Some (off ev j (log_emit (VStr ev) data w), Normal)
      /\ subscribers ev (off ev j (log_emit (VStr ev) data w))
         = [Handler i (User [SCall (COff ev j)])]).
Proof.
  intros Hn. destruct n as [|[|[|[|[|n]]]]]; try lia. split.
  - intros Hl.
    rewrite (emit_single _ ev _ data w _ Normal Hl
               (call_one_method n i (COn ev j g) data _
                  ltac:(discriminate))).
    reflexivity.
  - intros Hne Hl.
    assert (Hs : subscribers ev (off ev j (log_emit (VStr ev) data w))
                 = [Handler i (User [SCall (COff ev j)])]).
    { apply (subscribers_off_first ev (Handler j g)
               [Handler i (User [SCall (COff ev j)])] []).
      - apply subscribers_Some. exact Hl.
      - cbn. intros H. apply list_elem_of_singleton in H. congruence. }
    split; [|exact Hs].
    apply (emit_pair (S n) ev _ _ data w _ Hl).
    + rewrite call_one_method by discriminate. reflexivity.
    + cbn [method]. rewrite Hs. reflexivity.
Qed.

Lemma subscriptions_changed_during_emit_witness :
  emit 8 (VStr (str "E")) VNull grower
  = Some (on (str "E") (Handler (ByUser 2) (spy 2))
            (log_emit (VStr (str "E")) VNull grower), Normal).
Proof.
  assert (H : listeners grower !! str "E"
              = Some [Handler (ByUser 1)
                        (User [SCall (COn (str "E") (ByUser 2) (spy 2))])]).
  { vm_compute. reflexivity. }
  exact (proj1 (subscriptions_changed_during_emit 8 (str "E") (ByUser 1)
                  (ByUser 2) (spy 2) VNull grower ltac:(lia)) H).
Defined.

(** ** The options *)

(** X30. The options are fixed when the client is made.  No call of a
    method, no event of a socket, no timeout, no job and no subscriber
    changes them, so that the URL that [connect] computes for a token, by
    the application or by the reconnect timer, is at every later moment
    the one that the first options give. *)
Theorem options_never_change n es w w' :
  run n es w = Some w' ->
  options w' = options w
  /\ forall token, endpoint token w' = endpoint token w.
Proof.
  intros H. apply run_effects, effects_options in H.
  split; [exact H|]. intros token. unfold endpoint. rewrite H. reflexivity.
Qed.

Lemma options_never_change_witness :
  options online = options fresh.
Proof.
  assert (H : run 8 go_online fresh = Some online).
  { vm_compute. reflexivity. }
  exact (proj1 (options_never_change 8 go_online fresh online H)).
Defined.

End SDKFacts.
